(** * kk7 notebook: forecast-driven strategy and normalization benchmark

    A shallow embedding of [MLStrategy] (the backtrader strategy) and of
    the normalization part of [EnhancedDataPipeline], together with the
    properties of the design document that concern them.

    Python floats and numpy float64 values are IEEE binary64 numbers; they
    are represented by [spec_float] with 53 bits of precision, so that every
    arithmetic step of the source rounds exactly as it does in Python.
    Exceptions are values of an error monad.  What the source obtains from
    backtrader, scikit-learn, scipy and the file system is an explicit input
    of the functions below. *)

From Stdlib Require Import String Ascii ZArith QArith Qround Bool Lia List.
From Stdlib Require Import Floats.SpecFloat.
Import ListNotations.

(* ================================================================= *)
(** ** Binary64 numbers *)

Module Float64.

Definition prec : Z := 53.
Definition emax : Z := 1024.

Definition float : Type := spec_float.

Definition add : float -> float -> float := SFadd prec emax.
Definition sub : float -> float -> float := SFsub prec emax.
Definition mul : float -> float -> float := SFmul prec emax.
Definition div : float -> float -> float := SFdiv prec emax.
Definition sqrt : float -> float := SFsqrt prec emax.

(** [x < y], [x <= y] and [x == y]; all three are false on a NaN. *)
Definition ltb : float -> float -> bool := SFltb.
Definition leb : float -> float -> bool := SFleb.
Definition eqb : float -> float -> bool := SFeqb.

(** The binary64 number nearest to an integer. *)
Definition of_Z (n : Z) : float := binary_normalize prec emax n 0 false.

Definition zero : float := S754_zero false.
Definition one : float := Eval vm_compute in of_Z 1.
Definition hundred : float := Eval vm_compute in of_Z 100.

(** The literal [1e-6]. *)
Definition lit_1em6 : float :=
  Eval vm_compute in div (of_Z 1) (of_Z 1000000).

Definition is_nan (x : float) : bool :=
  match x with S754_nan => true | _ => false end.

Definition is_inf (x : float) : bool :=
  match x with S754_infinity _ => true | _ => false end.

Definition is_zero (x : float) : bool :=
  match x with S754_zero _ => true | _ => false end.

Definition is_finite (x : float) : bool :=
  match x with S754_zero _ | S754_finite _ _ _ => true | _ => false end.

(** The mantissa and the exponent of a finite number are those of a
    binary64 value ([valid_binary] of the standard library); zeros,
    infinities and NaN are valid. *)
Definition valid (x : float) : bool := valid_binary prec emax x.

(** The rational value of a finite number (0 for the others). *)
Definition to_Q (x : float) : Q :=
  match x with
  | S754_finite s m e =>
      match e with
      | Zneg p => Qmake (cond_Zopp s (Zpos m)) (2 ^ p)
      | _ => inject_Z (cond_Zopp s (Zpos m * 2 ^ e))
      end
  | _ => 0%Q
  end.

End Float64.

Import Float64.

(* ================================================================= *)
(** ** Python values and control *)

Module Py.

Inductive exn : Type :=
| ValueError
| KeyError
| IndexError
| ZeroDivisionError
| OverflowError
| OSError.

Inductive result (A : Type) : Type :=
| Ok (a : A)
| Raise (e : exn).

Arguments Ok {A} a.
Arguments Raise {A} e.

Definition bind {A B : Type} (r : result A) (k : A -> result B) : result B :=
  match r with
  | Ok a => k a
  | Raise e => Raise e
  end.

Definition is_ok {A : Type} (r : result A) : bool :=
  match r with Ok _ => true | Raise _ => false end.

(** [int(x)]: truncation toward zero. *)
Definition int (x : float) : result Z :=
  match x with
  | S754_nan => Raise ValueError
  | S754_infinity _ => Raise OverflowError
  | S754_zero _ => Ok 0%Z
  | S754_finite s m e => Ok (cond_Zopp s (Z.shiftl (Zpos m) e))
  end.

(** [x / y] on Python floats. *)
Definition truediv (x y : float) : result float :=
  if is_zero y then Raise ZeroDivisionError else Ok (div x y).

(** [l[-k:]] and [l[:-k]] for a positive [k]: when [l] has fewer than [k]
    elements the first is all of [l] and the second is empty. *)
Definition slice_from_neg {A : Type} (k : nat) (l : list A) : list A :=
  skipn (length l - k) l.

Definition slice_to_neg {A : Type} (k : nat) (l : list A) : list A :=
  firstn (length l - k) l.

(** [l[1:]]. *)
Definition slice_from {A : Type} (k : nat) (l : list A) : list A :=
  skipn k l.

(** [l[-k]] for a positive [k]. *)
Definition index_neg {A : Type} (k : nat) (l : list A) : result A :=
  if (length l <? k)%nat then Raise IndexError
  else match nth_error l (length l - k) with
       | Some a => Ok a
       | None => Raise IndexError
       end.

(** [l[0]]. *)
Definition index0 {A : Type} (l : list A) : result A :=
  match l with
  | a :: _ => Ok a
  | [] => Raise IndexError
  end.

(** [a.reshape(-1, 1)] of a vector and [a.flatten()] of a matrix. *)
Definition reshape_col {A : Type} (l : list A) : list (list A) :=
  map (fun a => [a]) l.

Definition flatten {A : Type} (m : list (list A)) : list A := concat m.

End Py.

Import Py.

Declare Scope py_scope.
Delimit Scope py_scope with py.
Notation "x <- c ;; k" := (bind c (fun x => k))
  (at level 61, c at next level, right associativity) : py_scope.
Open Scope py_scope.

(* ================================================================= *)
(** ** [MLStrategy] *)

Module MLStrategy.

(** [model.predict]: a matrix of rows to one value per row. *)
Definition ForecastModel : Type := list (list float) -> result (list float).

(** [params]. *)
Record params : Type := {
  model : ForecastModel;
  lookback : nat;
  risk_percent : float
}.

(** The fields [next] writes.  [self.order] stays [None] and
    [self.dataclose] is never read. *)
Record state : Type := {
  predicted_prices : list float
}.

Definition init : state := {| predicted_prices := [] |}.

(** What backtrader shows to one call of [next]: the closes delivered so
    far, the current one last; the size of the broker's position; the
    value of the account. *)
Record view : Type := {
  data_close : list float;
  position_size : Z;
  broker_value : float
}.

(** [self.data.close.get(size=n)]: the last [n] closes. *)
Definition get (size : nat) (closes : list float) : list float :=
  skipn (length closes - size) closes.

(** The truth value of [self.position]. *)
Definition position (v : view) : bool := negb (position_size v =? 0)%Z.

(** The calls [next] makes to the broker side: [buy size] stands for
    [self.buy(size=size)] and [close] for [self.close()].  What the
    broker then does with them is backtrader's. *)
Inductive order : Type :=
| buy (size : Z)
| close.

(** [risk_amount] and [size] of the entry branch, as functions of
    [self.broker.getvalue()], [self.p.risk_percent] and [current_price]. *)
Definition risk_amount (value risk_percent : float) : float :=
  mul value (div risk_percent hundred).

Definition entry_size (value risk_percent current_price : float)
  : result Z :=
  q <- truediv (risk_amount value risk_percent) current_price ;;
  int q.

Definition next (p : params) (st : state) (v : view)
  : result (state * option order) :=
  if (length (data_close v) <? lookback p)%nat then Ok (st, None)
  else
    let window := get (lookback p) (data_close v) in
    preds <- model p [window] ;;
    prediction <- index0 preds ;;
    let st' := {| predicted_prices := predicted_prices st ++ [prediction] |} in
    if (length (predicted_prices st') <? 2)%nat then Ok (st', None)
    else
      current_price <- index_neg 1 (data_close v) ;;
      prev_pred <- index_neg 2 (predicted_prices st') ;;
      if ltb prev_pred prediction && negb (position v) then
        size <- entry_size (broker_value v) (risk_percent p) current_price ;;
        Ok (st', Some (buy size))
      else if ltb prediction prev_pred && position v then
        Ok (st', Some close)
      else Ok (st', None).

(** A bar of the feed: its close, and the position and the account value
    that the broker shows when it is delivered. *)
Record bar : Type := {
  bar_close : float;
  bar_position_size : Z;
  bar_broker_value : float
}.

Definition view_of (seen : list float) (b : bar) : view :=
  {| data_close := seen ++ [bar_close b];
     position_size := bar_position_size b;
     broker_value := bar_broker_value b |}.

(** One call of [next] per bar of the feed, in order; [seen] holds the
    closes delivered before. *)
Fixpoint run (p : params) (seen : list float) (st : state) (feed : list bar)
  : result (state * list (option order)) :=
  match feed with
  | [] => Ok (st, [])
  | b :: rest =>
      r <- next p st (view_of seen b) ;;
      r' <- run p (seen ++ [bar_close b]) (fst r) rest ;;
      Ok (fst r', snd r :: snd r')
  end.

(** The bars among the first [n] whose window is full. *)
Definition full_bars (p : params) (n : nat) : nat := n - (lookback p - 1).

End MLStrategy.

(* ================================================================= *)
(** ** [EnhancedDataPipeline]: normalization and choice of the method *)

Module EnhancedDataPipeline.

(** A numpy array of one or of two dimensions. *)
Inductive ndarray : Type :=
| vec (v : list float)
| mat (m : list (list float)).

Definition flatten (a : ndarray) : list float :=
  match a with
  | vec v => v
  | mat m => Py.flatten m
  end.

(** The numeric routines of numpy, scipy and scikit-learn that are no
    single binary64 operation: they are inputs of the model.  The mean
    and the variance are those that [StandardScaler] computes, NaN
    skipped. *)
Record Kernels : Type := {
  np_log : float -> float;
  boxcox_normmax : list float -> float;
  special_boxcox : float -> float -> float;
  np_nanmean : list float -> float;
  np_nanvar : list float -> float
}.

(** [np.nanmin] and [np.nanmax]: NaN entries are skipped; the result is NaN
    when nothing is left. *)
Definition nan_fold (better : float -> float -> bool) (l : list float)
  : float :=
  fold_left
    (fun acc x =>
       if is_nan x then acc
       else if is_nan acc then x
       else if better x acc then x else acc)
    l S754_nan.

Definition np_nanmin : list float -> float := nan_fold ltb.
Definition np_nanmax : list float -> float := nan_fold (fun x y => ltb y x).

(** The machine epsilon of binary64, [np.finfo(np.float64).eps], and
    ten times it. *)
Definition eps : float :=
  Eval vm_compute in div one (of_Z 4503599627370496).

Definition ten_eps : float := Eval vm_compute in mul (of_Z 10) eps.

(** scikit-learn's [_handle_zeros_in_scale] on one entry of an array of
    scales: the entry becomes 1 where the mask of constant features
    holds; without a mask, a scale below ten epsilons counts as
    constant. *)
Definition handle_zeros_in_scale (scale : float)
  (constant_mask : option bool) : float :=
  let mask :=
    match constant_mask with
    | Some b => b
    | None => ltb scale ten_eps
    end in
  if mask then one else scale.

(** scikit-learn's [_is_constant_feature]: the variance is within the
    error bound of its computation. *)
Definition _is_constant_feature (var_ mean_ : float) (n_samples : nat)
  : bool :=
  let n := of_Z (Z.of_nat n_samples) in
  let t := mul (mul n mean_) eps in
  let upper_bound := add (mul (mul n eps) var_) (mul t t) in
  leb var_ upper_bound.

(** The samples that count: those that are not NaN. *)
Definition n_samples_seen (col : list float) : nat :=
  length (filter (fun x => negb (is_nan x)) col).

(** The input check of both scalers: at least one sample, no infinity;
    NaN is let through. *)
Definition check_array (X : list (list float)) : result unit :=
  match X with
  | [] => Raise ValueError
  | _ => if existsb is_inf (Py.flatten X) then Raise ValueError else Ok tt
  end.

(** [StandardScaler().fit_transform(X)] for a matrix of one column. *)
Definition StandardScaler_fit_transform (K : Kernels) (X : list (list float))
  : result (list (list float)) :=
  _ <- check_array X ;;
  let col := Py.flatten X in
  let mean_ := np_nanmean K col in
  let var_ := np_nanvar K col in
  let constant_mask :=
    _is_constant_feature var_ mean_ (n_samples_seen col) in
  let scale_ := handle_zeros_in_scale (sqrt var_) (Some constant_mask) in
  Ok (map (map (fun x => div (sub x mean_) scale_)) X).

(** [MinMaxScaler().fit_transform(X)] for a matrix of one column, with
    the default feature range (0, 1). *)
Definition MinMaxScaler_fit_transform (X : list (list float))
  : result (list (list float)) :=
  _ <- check_array X ;;
  let col := Py.flatten X in
  let data_min := np_nanmin col in
  let data_range := sub (np_nanmax col) data_min in
  let scale_ := div one (handle_zeros_in_scale data_range None) in
  let min_ := sub zero (mul data_min scale_) in
  Ok (map (map (fun x => add (mul x scale_) min_)) X).

(** [stats.boxcox(x)] without a given lambda.  On an empty array scipy
    returns the array alone, and unpacking it into two names fails.
    The search of lambda, [boxcox_normmax], refuses data that are not
    all finite. *)
Definition stats_boxcox (K : Kernels) (x : list float)
  : result (list float * float) :=
  match x with
  | [] => Raise ValueError
  | x0 :: _ =>
      if forallb (fun v => eqb v x0) x then Raise ValueError
      else if existsb (fun v => leb v zero) x then Raise ValueError
      else if negb (forallb is_finite x) then Raise ValueError
      else
        let lmax := boxcox_normmax K x in
        Ok (map (fun v => special_boxcox K v lmax) x, lmax)
  end.

Definition _evaluate_normalization (K : Kernels) (data : list float)
  (method : string) : result (list float) :=
  let X := reshape_col data in
  X_norm <-
    (if (method =? "Box-Cox")%string then
       r <- stats_boxcox K (map (fun x => add x lit_1em6) (Py.flatten X)) ;;
       Ok (vec (fst r))
     else if (method =? "Log")%string then
       Ok (mat (map (map (fun x => np_log K (add x lit_1em6))) X))
     else if (method =? "Z-Score")%string then
       m <- StandardScaler_fit_transform K X ;; Ok (mat m)
     else
       m <- MinMaxScaler_fit_transform X ;; Ok (mat m)) ;;
  Ok (flatten X_norm).

(** What each method does to one close, given the whole series. *)
Definition pointwise (K : Kernels) (method : string) (data : list float)
  (x : float) : float :=
  if (method =? "Box-Cox")%string then
    special_boxcox K (add x lit_1em6)
      (boxcox_normmax K (map (fun v => add v lit_1em6) data))
  else if (method =? "Log")%string then np_log K (add x lit_1em6)
  else if (method =? "Z-Score")%string then
    div (sub x (np_nanmean K data))
      (handle_zeros_in_scale (sqrt (np_nanvar K data))
         (Some (_is_constant_feature (np_nanvar K data) (np_nanmean K data)
                  (n_samples_seen data))))
  else
    let data_min := np_nanmin data in
    let scale_ :=
      div one
        (handle_zeros_in_scale (sub (np_nanmax data) data_min) None) in
    add (mul x scale_) (sub zero (mul data_min scale_)).

(** [RandomForestRegressor]: fitting gives a model, a model predicts one
    value per row.  (The forest draws random numbers; one run of the
    notebook is one such pair of functions.) *)
Record Regressor : Type := {
  fitted : Type;
  fit : list (list float) -> list float -> result fitted;
  predict : fitted -> list (list float) -> result (list float)
}.

(** [sklearn.metrics]: true values first, predictions second. *)
Record Scorers : Type := {
  mean_absolute_error : list float -> list float -> result float;
  mean_squared_error : list float -> list float -> result float;
  r2_score : list float -> list float -> result float
}.

(** One entry of [results]; the first two fields are the keys written in
    Russian in the source (instrument, method). *)
Record row : Type := {
  Instrument : string;
  Method : string;
  MAE : float;
  MSE : float;
  R2 : float
}.

(** Everything [normalize_data] takes from outside. *)
Record World : Type := {
  kernels : Kernels;
  regressor : Regressor;
  scorers : Scorers;
  read_csv : string -> result (list float);
  norm_to_csv : string -> string -> list float -> result unit;
  best_to_csv : list row -> result unit
}.

Definition tail_length : nat := 30.

Definition methods : list string :=
  ["Z-Score"; "Min-Max"; "Box-Cox"; "Log"]%string.

(** The body of the [try], up to the dictionary [metrics]. *)
Definition evaluate (W : World) (instrument method : string)
  (data : list float) : result (row * list float) :=
  norm_data <- _evaluate_normalization (kernels W) data method ;;
  let X_train := slice_to_neg tail_length norm_data in
  let X_test := slice_from_neg tail_length norm_data in
  model <- fit (regressor W)
             (reshape_col (slice_to_neg 1 X_train)) (slice_from 1 X_train) ;;
  pred <- predict (regressor W) model (reshape_col (slice_to_neg 1 X_test)) ;;
  mae <- mean_absolute_error (scorers W) (slice_from 1 X_test) pred ;;
  mse <- mean_squared_error (scorers W) (slice_from 1 X_test) pred ;;
  r2 <- r2_score (scorers W) (slice_from 1 X_test) pred ;;
  Ok ({| Instrument := instrument; Method := method;
         MAE := mae; MSE := mse; R2 := r2 |}, norm_data).

(** The whole [try]: [results] after it, and how it ended. *)
Definition try_block (W : World) (instrument method : string)
  (data : list float) (results : list row) : list row * result unit :=
  match evaluate W instrument method data with
  | Raise e => (results, Raise e)
  | Ok (metrics, norm_data) =>
      (results ++ [metrics], norm_to_csv W instrument method norm_data)
  end.

(** What one method adds to [results]: its row, or nothing when
    normalizing, fitting, predicting or scoring raised. *)
Definition contribution (W : World) (instrument : string)
  (data : list float) (method : string) : list row :=
  match evaluate W instrument method data with
  | Ok (metrics, _) => [metrics]
  | Raise _ => []
  end.

(** The rows of one instrument whose file is read. *)
Definition scored (W : World) (instrument : string) : list row :=
  match read_csv W instrument with
  | Ok data => flat_map (contribution W instrument data) methods
  | Raise _ => []
  end.

(** The loop over the methods; the handler prints and goes on. *)
Fixpoint methods_loop (W : World) (instrument : string) (data : list float)
  (ms : list string) (results : list row) : list row :=
  match ms with
  | [] => results
  | method :: rest =>
      let '(results', _) := try_block W instrument method data results in
      methods_loop W instrument data rest results'
  end.

(** The loop over the instruments; [read_csv] is outside the [try]. *)
Fixpoint instruments_loop (W : World) (instruments : list string)
  (results : list row) : result (list row) :=
  match instruments with
  | [] => Ok results
  | instrument :: rest =>
      data <- read_csv W instrument ;;
      instruments_loop W rest (methods_loop W instrument data methods results)
  end.

(** *** The best method of each instrument *)

Fixpoint insert_sorted (s : string) (l : list string) : list string :=
  match l with
  | [] => [s]
  | t :: rest => if String.leb s t then s :: l else t :: insert_sorted s rest
  end.

Definition sort_strings (l : list string) : list string :=
  fold_right insert_sorted [] l.

(** The keys of the groups, one per instrument, in increasing order. *)
Definition group_keys (results : list row) : list string :=
  sort_strings (nodup string_dec (map Instrument results)).

(** [idxmax] of the column R2 within the group of [key]: the label of
    the first row holding the largest value, NaN skipped.  [i] is the
    label of the head of [rows]; [best] is the candidate so far. *)
Fixpoint idxmax_from (key : string) (rows : list row) (i : nat)
  (best : option (nat * float)) : option nat :=
  match rows with
  | [] => option_map fst best
  | r :: rest =>
      let best' :=
        if negb (Instrument r =? key)%string then best
        else if is_nan (R2 r) then best
        else match best with
             | None => Some (i, R2 r)
             | Some (_, m) => if ltb m (R2 r) then Some (i, R2 r) else best
             end in
      idxmax_from key rest (S i) best'
  end.

Definition idxmax (results : list row) (key : string) : result nat :=
  match idxmax_from key results 0 None with
  | Some i => Ok i
  | None => Raise ValueError
  end.

(** [df.loc[label]]. *)
Definition loc (results : list row) (label : nat) : result row :=
  match nth_error results label with
  | Some r => Ok r
  | None => Raise KeyError
  end.

Fixpoint mapM {A B : Type} (f : A -> result B) (l : list A)
  : result (list B) :=
  match l with
  | [] => Ok []
  | a :: rest => b <- f a ;; bs <- mapM f rest ;; Ok (b :: bs)
  end.

(** [df.loc[df.groupby(...)['R2'].idxmax()]], grouped by the instrument
    column.  A frame built from an empty list has no column to group
    by. *)
Definition select_best (results : list row) : result (list row) :=
  match results with
  | [] => Raise KeyError
  | _ =>
      labels <- mapM (idxmax results) (group_keys results) ;;
      mapM (loc results) labels
  end.

(** The row of label [j] is the first of the best rows of the group of
    [key] among [rows]: no row of the group has a larger R2, and the
    rows of the group before it have a strictly smaller one. *)
Definition first_best (key : string) (rows : list row) (j : nat) : Prop :=
  exists w,
    nth_error rows j = Some w /\ Instrument w = key /\
    forall k c, nth_error rows k = Some c -> Instrument c = key ->
      leb (R2 c) (R2 w) = true /\
      ((k < j)%nat -> ltb (R2 c) (R2 w) = true).

(** The state of [idxmax_from] after the rows [pre]. *)
Definition candidate_ok (key : string) (pre : list row)
  (best : option (nat * float)) : Prop :=
  match best with
  | None => forall c, In c pre -> Instrument c <> key
  | Some (j, m) =>
      first_best key pre j /\
      exists w, nth_error pre j = Some w /\ R2 w = m
  end.

Definition normalize_data (W : World) (instruments : list string)
  : result (list row) :=
  results <- instruments_loop W instruments [] ;;
  best_methods <- select_best results ;;
  _ <- best_to_csv W best_methods ;;
  Ok best_methods.

End EnhancedDataPipeline.


(* ================================================================= *)
(** ** The sizing rule as the design document words it *)

Module Documented.

(** [floor(equityValue * riskPercent / 100 / price)], over the
    rationals. *)
Definition documented_size (equityValue riskPercent price : float) : Z :=
  Qfloor (to_Q equityValue * to_Q riskPercent / 100 / to_Q price)%Q.

(** "price exceeds equity * riskPercent / 100", over the rationals. *)
Definition price_exceeds_budget (equity riskPercent price : float) : Prop :=
  (to_Q equity * to_Q riskPercent / 100 < to_Q price)%Q.

End Documented.

(* ================================================================= *)
(** ** Concrete collaborators for the examples *)

Module Reference.

Import EnhancedDataPipeline.

Definition of_nat (n : nat) : float := of_Z (Z.of_nat n).

Definition sum (l : list float) : float := fold_left add l zero.

Definition skip_nan (l : list float) : list float :=
  filter (fun x => negb (is_nan x)) l.

(** Mean and variance summed from left to right, NaN skipped. *)
Definition nanmean (l : list float) : float :=
  let xs := skip_nan l in div (sum xs) (of_nat (length xs)).

Definition nanvar (l : list float) : float :=
  let xs := skip_nan l in
  let m := nanmean l in
  div (sum (map (fun x => mul (sub x m) (sub x m)) xs)) (of_nat (length xs)).

(** The logarithm and the two Box-Cox routines have no binary64
    definition here; the examples below never reach them, and this set of
    kernels answers NaN in their place. *)
Definition kernels : Kernels :=
  {| np_log := fun _ => S754_nan;
     boxcox_normmax := fun _ => S754_nan;
     special_boxcox := fun _ _ => S754_nan;
     np_nanmean := nanmean;
     np_nanvar := nanvar |}.

(** A regressor that predicts the value it is shown, and that, like
    scikit-learn, refuses to fit on an empty sample or on NaN. *)
Definition persistence : Regressor :=
  {| fitted := unit;
     fit := fun X y =>
              match X with
              | [] => Raise ValueError
              | _ => if existsb is_nan (Py.flatten X ++ y)
                     then Raise ValueError else Ok tt
              end;
     predict := fun _ X => mapM index0 X |}.

Definition errors (y_true y_pred : list float) : list float :=
  map (fun yp => sub (fst yp) (snd yp)) (combine y_true y_pred).

Definition checked (y_true y_pred : list float) (score : float)
  : result float :=
  if negb (length y_true =? length y_pred)%nat then Raise ValueError
  else match y_true with [] => Raise ValueError | _ => Ok score end.

Definition mae (y_true y_pred : list float) : result float :=
  checked y_true y_pred
    (div (sum (map SFabs (errors y_true y_pred))) (of_nat (length y_true))).

Definition mse (y_true y_pred : list float) : result float :=
  checked y_true y_pred
    (div (sum (map (fun d => mul d d) (errors y_true y_pred)))
         (of_nat (length y_true))).

Definition r2 (y_true y_pred : list float) : result float :=
  let ss_res := sum (map (fun d => mul d d) (errors y_true y_pred)) in
  let m := nanmean y_true in
  let ss_tot := sum (map (fun y => mul (sub y m) (sub y m)) y_true) in
  checked y_true y_pred
    (if is_zero ss_tot then (if is_zero ss_res then one else zero)
     else sub one (div ss_res ss_tot)).

Definition scorers : Scorers :=
  {| mean_absolute_error := mae;
     mean_squared_error := mse;
     r2_score := r2 |}.

(** A world where every file holds the same closes. *)
Definition world (closes : list float) : World :=
  {| EnhancedDataPipeline.kernels := kernels;
     regressor := persistence;
     EnhancedDataPipeline.scorers := scorers;
     read_csv := fun _ => Ok closes;
     norm_to_csv := fun _ _ _ => Ok tt;
     best_to_csv := fun _ => Ok tt |}.

(** The closes 1, 2, ..., n. *)
Definition ramp (n : nat) : list float := map of_nat (seq 1 n).

(** A forecast model that answers the last close of the window. *)
Definition last_close : MLStrategy.ForecastModel :=
  mapM (index_neg 1).

Definition strategy_params : MLStrategy.params :=
  {| MLStrategy.model := last_close;
     MLStrategy.lookback := 2;
     MLStrategy.risk_percent := of_Z 2 |}.



Definition flat_bar (c : Z) : MLStrategy.bar :=
  {| MLStrategy.bar_close := of_Z c;
     MLStrategy.bar_position_size := 0;
     MLStrategy.bar_broker_value := of_Z 10000 |}.

(** The binary64 number that follows 7: [7.000000000000001]. *)
Definition next_after_7 : float :=
  S754_finite false 7881299347898369 (-50).

(** Three scored rows: two methods tie for the first instrument. *)
Definition leaderboard : list row :=
  [ {| Instrument := "NVDA"; Method := "Z-Score";
       MAE := one; MSE := one; R2 := zero |};
    {| Instrument := "MSTR"; Method := "Z-Score";
       MAE := one; MSE := one; R2 := one |};
    {| Instrument := "MSTR"; Method := "Min-Max";
       MAE := one; MSE := one; R2 := one |} ].

End Reference.

(* ================================================================= *)
(** ** Notions used in the proofs *)

(** An order-preserving key of the numbers that are not NaN. *)
Definition key (x : float) : Z * Z * Z :=
  match x with
  | S754_nan => (0, 0, 0)
  | S754_zero _ => (0, 0, 0)
  | S754_infinity true => (-2, 0, 0)
  | S754_infinity false => (2, 0, 0)
  | S754_finite true m e => (-1, - e, - Zpos m)
  | S754_finite false m e => (1, e, Zpos m)
  end%Z.

Definition key_lt (a b : Z * Z * Z) : Prop :=
  let '(a1, a2, a3) := a in
  let '(b1, b2, b3) := b in
  (a1 < b1 \/ (a1 = b1 /\ (a2 < b2 \/ (a2 = b2 /\ a3 < b3))))%Z.

Definition key_le (a b : Z * Z * Z) : Prop :=
  let '(a1, a2, a3) := a in
  let '(b1, b2, b3) := b in
  (a1 < b1 \/ (a1 = b1 /\ (a2 < b2 \/ (a2 = b2 /\ a3 <= b3))))%Z.

(** The round and sticky bits of a shifted mantissa. *)
Definition inexact (r : shr_record) : bool := shr_r r || shr_s r.

(** By how many bits rounding shifts a mantissa [m] of exponent [e]. *)
Definition shift_of (m e : Z) : Z :=
  Z.max (fexp prec emax (Zdigits2 m + e) - e) 0.

(** A finite number with at most 53 bits of mantissa and an exponent not
    below the least one. *)
Definition bounded53 (x : float) : Prop :=
  match x with
  | S754_finite _ m e => (Zpos m < 2 ^ prec /\ emin prec emax <= e)%Z
  | _ => True
  end.

(** Neither a negative number nor minus infinity. *)
Definition not_negative (x : float) : Prop :=
  match x with
  | S754_finite true _ _ | S754_infinity true => False
  | _ => True
  end.

(** A positive number or plus infinity. *)
Definition above_zero (x : float) : Prop :=
  match x with
  | S754_finite false _ _ | S754_infinity false => True
  | _ => False
  end.

(** The test [np.all(x == x[0])] of [stats.boxcox] on the closes once
    1e-6 is added. *)
Definition shifted_constant (data : list float) : bool :=
  match map (fun x => add x lit_1em6) data with
  | [] => true
  | x0 :: _ => forallb (fun x => eqb (add x lit_1em6) x0) data
  end.


(* ================================================================= *)
(** ** What backtrader does with the calls of [next] *)

Module Backtrader.







End Backtrader.

(* ================================================================= *)
(** ** [EnhancedDataPipeline._process_single] *)

Module Processing.

(** A row of a raw file: [Date] and [Close]. *)
Definition raw_row : Type := (string * float)%type.

(** What pandas does: [Series.quantile], and the chain
    [interpolate().ffill().bfill()] on a frame. *)
Record Frames : Type := {
  quantile : list float -> float -> float;
  fill : list raw_row -> result (list raw_row)
}.

(** The literals [0.05] and [0.95]. *)
Definition lit_0_05 : float := Eval vm_compute in div (of_Z 5) (of_Z 100).
Definition lit_0_95 : float := Eval vm_compute in div (of_Z 95) (of_Z 100).

(** [(raw['Close'] > q_low) & (raw['Close'] < q_hi)] on one row. *)
Definition within (q_low q_hi : float) (r : raw_row) : bool :=
  ltb q_low (snd r) && ltb (snd r) q_hi.

(** [_process_single], from the frame read to the value of
    [processed]; writing the file and drawing the figure come after. *)
Definition _process_single (F : Frames) (raw : list raw_row)
  : result (list raw_row) :=
  let q_low := quantile F (map snd raw) lit_0_05 in
  let q_hi := quantile F (map snd raw) lit_0_95 in
  let filtered := filter (within q_low q_hi) raw in
  fill F filtered.

End Processing.

(* ================================================================= *)
(** ** [EnhancedDataPipeline.train_model] *)

Module ModelTraining.

(** The literal [0.8]. *)
Definition lit_0_8 : float := Eval vm_compute in div (of_Z 8) (of_Z 10).

(** [l[:k]] and [l[k:]] for any integer [k]. *)
Definition slice_to {A : Type} (k : Z) (l : list A) : list A :=
  if (k <? 0)%Z then firstn (length l - Z.to_nat (- k)) l
  else firstn (Z.to_nat k) l.

Definition slice_since {A : Type} (k : Z) (l : list A) : list A :=
  if (k <? 0)%Z then skipn (length l - Z.to_nat (- k)) l
  else skipn (Z.to_nat k) l.

(** A row of the features file: the feature columns and [Close]; the
    column [Date] is taken to be filled in. *)
Definition sample : Type := (list float * float)%type.

(** [dropna]: the rows with a missing value are dropped. *)
Definition dropna (rows : list sample) : list sample :=
  filter (fun r => negb (existsb is_nan (snd r :: fst r))) rows.

(** [RandomForestRegressor(n_estimators).fit(X, y)]: the fit draws on
    the state of a random generator. *)
Record Learner : Type := {
  rng : Type;
  forest : Type;
  fit : nat -> rng -> list (list float) -> list float -> result forest
}.

(** [split = int(0.8 * len(X))]. *)
Definition split (n : nat) : result Z :=
  int (mul lit_0_8 (of_Z (Z.of_nat n))).

(** [train_model], from the rows read to the value of [self.model].
    The two test parts are computed and never read. *)
Definition train_model (L : Learner) (g : rng L) (rows : list sample)
  : result (forest L) :=
  let data := dropna rows in
  let X := map fst data in
  let y := map snd data in
  split <- split (length X) ;;
  let X_train := slice_to split X in
  let X_test := slice_since split X in
  let y_train := slice_to split y in
  let y_test := slice_since split y in
  fit L 100 g X_train y_train.

End ModelTraining.

(* ================================================================= *)
(** ** More collaborators for the examples *)

Module Samples.

(** A forecast model that, like scikit-learn, refuses a window holding
    NaN, and otherwise answers the last close of the window. *)
Definition nan_checking : MLStrategy.ForecastModel :=
  fun X =>
    if existsb (existsb is_nan) X then Raise ValueError
    else Reference.last_close X.

Definition checking_params : MLStrategy.params :=
  {| MLStrategy.model := nan_checking;
     MLStrategy.lookback := 2;
     MLStrategy.risk_percent := of_Z 2 |}.

(** A model that refuses every window. *)
Definition refusing_params : MLStrategy.params :=
  {| MLStrategy.model := fun _ => Raise ValueError;
     MLStrategy.lookback := 3;
     MLStrategy.risk_percent := of_Z 2 |}.

(** A bar whose close is missing. *)
Definition nan_bar : MLStrategy.bar :=
  {| MLStrategy.bar_close := S754_nan;
     MLStrategy.bar_position_size := 0;
     MLStrategy.bar_broker_value := of_Z 10000 |}.

(** One prediction made, of -1; the close has fallen to 0. *)
Definition low_state : MLStrategy.state :=
  {| MLStrategy.predicted_prices := [of_Z (-1)] |}.

Definition zero_close_view : MLStrategy.view :=
  {| MLStrategy.data_close := [of_Z 1; zero];
     MLStrategy.position_size := 0;
     MLStrategy.broker_value := of_Z 10000 |}.




(** A world where the file of COIN is missing. *)
Definition world_without_coin : EnhancedDataPipeline.World :=
  {| EnhancedDataPipeline.kernels := Reference.kernels;
     EnhancedDataPipeline.regressor := Reference.persistence;
     EnhancedDataPipeline.scorers := Reference.scorers;
     EnhancedDataPipeline.read_csv :=
       fun i => if (i =? "COIN")%string then Raise OSError
                else Ok (Reference.ramp 3);
     EnhancedDataPipeline.norm_to_csv := fun _ _ _ => Ok tt;
     EnhancedDataPipeline.best_to_csv := fun _ => Ok tt |}.

(** Quantiles by rank, the lowest close below one half and the highest
    above; and a gap filling that finds the frame as it wants it. *)
Definition rank_frames : Processing.Frames :=
  {| Processing.quantile := fun l q =>
       if ltb q (div one (of_Z 2)) then EnhancedDataPipeline.np_nanmin l
       else EnhancedDataPipeline.np_nanmax l;
     Processing.fill := fun rows => Ok rows |}.

(** Five days, one close missing. *)
Definition five_days : list Processing.raw_row :=
  [("d1", of_Z 3); ("d2", S754_nan); ("d3", of_Z 1); ("d4", of_Z 2);
   ("d5", of_Z 5)]%string.

Definition flat_days : list Processing.raw_row :=
  [("d1", of_Z 3); ("d2", of_Z 3); ("d3", of_Z 3)]%string.

(** A learner that answers the mean of the closes it is shown and
    refuses an empty sample. *)
Definition mean_learner : ModelTraining.Learner :=
  {| ModelTraining.rng := unit;
     ModelTraining.forest := float;
     ModelTraining.fit := fun _ _ X y =>
       match X with
       | [] => Raise ValueError
       | _ => Ok (Reference.nanmean y)
       end |}.

(** Ten rows of one feature, the close of the day before; and the same
    rows with another last close. *)
Definition ten_rows : list ModelTraining.sample :=
  map (fun k => ([Reference.of_nat k], Reference.of_nat (S k))) (seq 1 10).

Definition ten_rows_changed : list ModelTraining.sample :=
  firstn 9 ten_rows ++ [([Reference.of_nat 10], Reference.of_nat 99)].

End Samples.

(* ================================================================= *)
(** * Properties *)

(** ** The error monad *)

Lemma bind_ok {A B : Type} (r : result A) (k : A -> result B) (b : B) :
  bind r k = Ok b -> exists a, r = Ok a /\ k a = Ok b.
Proof.
  destruct r as [a|e]; simpl; intros H; [exists a; auto | discriminate].
Qed.

(** ** Comparisons of binary64 numbers *)

Lemma eqb_not_ltb (x y : float) :
  eqb x y = true -> ltb x y = false /\ ltb y x = false.
Proof.
  unfold eqb, ltb, SFeqb, SFltb.
  destruct x as [sx|sx| |sx mx ex], y as [sy|sy| |sy my ey]; simpl;
    try (destruct sx); try (destruct sy); simpl;
    try discriminate; try (split; reflexivity).
  all: destruct (Z.compare ex ey) eqn:He; try discriminate;
    apply Z.compare_eq in He; subst ey;
    rewrite Z.compare_refl;
    fold (Pos.compare mx my); fold (Pos.compare my mx);
    rewrite (Pos.compare_antisym mx my);
    destruct (Pos.compare mx my) eqn:Hm; try discriminate; auto.
Qed.

Section Order.

  Local Open Scope Z_scope.

Lemma compare_key (x y : float) :
  is_nan x = false -> is_nan y = false ->
  match SFcompare x y with
  | Some Lt => key_lt (key x) (key y)
  | Some Eq => key x = key y
  | Some Gt => key_lt (key y) (key x)
  | None => False
  end.
Proof.
  destruct x as [sx|sx| |sx mx ex], y as [sy|sy| |sy my ey]; simpl;
    try discriminate; intros _ _;
    try (destruct sx); try (destruct sy); simpl; try lia; try reflexivity.
  all: change (Pos.compare_cont Eq mx my) with (Pos.compare mx my);
    destruct (Z.compare_spec ex ey); simpl; try lia;
    destruct (Pos.compare_spec mx my); simpl; subst; try lia; try reflexivity.
Qed.

Lemma ltb_key (x y : float) :
  is_nan x = false -> is_nan y = false ->
  (ltb x y = true <-> key_lt (key x) (key y)).
Proof.
  intros Hx Hy. pose proof (compare_key x y Hx Hy) as H.
  unfold ltb, SFltb. destruct (SFcompare x y) as [[]|]; try contradiction.
  - rewrite H. split; [discriminate|].
    destruct (key y) as [[a b] c]. simpl. lia.
  - split; auto.
  - split; [discriminate|].
    destruct (key y) as [[a b] c], (key x) as [[a' b'] c']. simpl in *. lia.
Qed.

Lemma leb_key (x y : float) :
  is_nan x = false -> is_nan y = false ->
  (leb x y = true <-> key_le (key x) (key y)).
Proof.
  intros Hx Hy. pose proof (compare_key x y Hx Hy) as H.
  unfold leb, SFleb. destruct (SFcompare x y) as [[]|]; try contradiction.
  - rewrite H. split; [|reflexivity].
    destruct (key y) as [[a b] c]. simpl. lia.
  - split; [|reflexivity].
    destruct (key y) as [[a b] c], (key x) as [[a' b'] c']. simpl in *. lia.
  - split; [discriminate|].
    destruct (key y) as [[a b] c], (key x) as [[a' b'] c']. simpl in *. lia.
Qed.

Lemma ltb_trans x y z :
  is_nan x = false -> is_nan y = false -> is_nan z = false ->
  ltb x y = true -> ltb y z = true -> ltb x z = true.
Proof.
  intros Hx Hy Hz. rewrite !ltb_key by assumption.
  destruct (key x) as [[a b] c], (key y) as [[a' b'] c'], (key z) as [[a'' b''] c''].
  simpl. lia.
Qed.

Lemma leb_ltb_trans x y z :
  is_nan x = false -> is_nan y = false -> is_nan z = false ->
  leb x y = true -> ltb y z = true -> ltb x z = true.
Proof.
  intros Hx Hy Hz. rewrite !ltb_key, leb_key by assumption.
  destruct (key x) as [[a b] c], (key y) as [[a' b'] c'], (key z) as [[a'' b''] c''].
  simpl. lia.
Qed.

Lemma not_ltb_leb x y :
  is_nan x = false -> is_nan y = false ->
  ltb x y = false -> leb y x = true.
Proof.
  intros Hx Hy H. apply leb_key; try assumption.
  assert (~ key_lt (key x) (key y)).
  { intros Hk. apply ltb_key in Hk; try assumption. congruence. }
  destruct (key x) as [[a b] c], (key y) as [[a' b'] c']. simpl in *. lia.
Qed.

Lemma ltb_leb x y :
  is_nan x = false -> is_nan y = false ->
  ltb x y = true -> leb x y = true.
Proof.
  intros Hx Hy. rewrite ltb_key, leb_key by assumption.
  destruct (key x) as [[a b] c], (key y) as [[a' b'] c']. simpl. lia.
Qed.

Lemma leb_refl x : is_nan x = false -> leb x x = true.
Proof.
  intros Hx. apply leb_key; try assumption.
  destruct (key x) as [[a b] c]. simpl. lia.
Qed.

End Order.

(** ** [MLStrategy.next] *)

Section Strategy.

Import MLStrategy.

Variable p : params.

Lemma index_neg_last {A : Type} (l : list A) (a : A) :
  index_neg 1 (l ++ [a]) = Ok a.
Proof.
  unfold index_neg. rewrite length_app. simpl.
  replace (length l + 1 <? 1)%nat with false
    by (symmetry; apply Nat.ltb_ge; lia).
  replace (length l + 1 - 1)%nat with (length l) by lia.
  now rewrite nth_error_app2, Nat.sub_diag by lia.
Qed.

Lemma index_neg_2_snoc {A : Type} (l : list A) (a : A) :
  index_neg 2 (l ++ [a]) = index_neg 1 l.
Proof.
  unfold index_neg. rewrite length_app. simpl.
  destruct l as [|b l'] using rev_ind; [reflexivity|].
  rewrite length_app. simpl.
  replace (length l' + 1 + 1 <? 2)%nat with false
    by (symmetry; apply Nat.ltb_ge; lia).
  replace (length l' + 1 <? 1)%nat with false
    by (symmetry; apply Nat.ltb_ge; lia).
  replace (length l' + 1 + 1 - 2)%nat with (length l') by lia.
  replace (length l' + 1 - 1)%nat with (length l') by lia.
  rewrite <- app_assoc. simpl.
  rewrite !nth_error_app2, Nat.sub_diag by lia. reflexivity.
Qed.

(** What one call does while the window is not full. *)
Lemma next_warming st v :
  (length (data_close v) < lookback p)%nat ->
  next p st v = Ok (st, None).
Proof.
  intros H. unfold next.
  now replace (length (data_close v) <? lookback p)%nat with true
    by (symmetry; apply Nat.ltb_lt; lia).
Qed.

(** What one call does once the window is full: the prediction is
    appended first, whatever the rest of the call decides. *)
Lemma next_forecasting st v st' o :
  (lookback p <= length (data_close v))%nat ->
  next p st v = Ok (st', o) ->
  exists preds prediction,
    model p [get (lookback p) (data_close v)] = Ok preds /\
    index0 preds = Ok prediction /\
    predicted_prices st' = predicted_prices st ++ [prediction].
Proof.
  intros Hfull H. unfold next in H.
  replace (length (data_close v) <? lookback p)%nat with false in H
    by (symmetry; apply Nat.ltb_ge; lia).
  apply bind_ok in H. destruct H as [preds [Hm H]].
  apply bind_ok in H. destruct H as [prediction [Hi H]].
  exists preds, prediction. split; [exact Hm|]. split; [exact Hi|].
  cbn [predicted_prices] in H.
  destruct (length (predicted_prices st ++ [prediction]) <? 2)%nat.
  - now inversion H.
  - apply bind_ok in H. destruct H as [cp [_ H]].
    apply bind_ok in H. destruct H as [pv [_ H]].
    destruct (ltb pv prediction && negb (position v)).
    + apply bind_ok in H. destruct H as [n [_ H]]. now inversion H.
    + destruct (ltb prediction pv && position v); now inversion H.
Qed.

End Strategy.

Section Signal.

Import MLStrategy Backtrader.

Variable p : params.





End Signal.



(** ** The forecast history over a run *)

Section History.

Import MLStrategy.

Variable p : params.

Lemma next_history st v st' o :
  next p st v = Ok (st', o) ->
  exists added,
    predicted_prices st' = predicted_prices st ++ added /\
    length added =
      if (length (data_close v) <? lookback p)%nat then 0%nat else 1%nat.
Proof.
  intros H.
  destruct (length (data_close v) <? lookback p)%nat eqn:Hw.
  - apply Nat.ltb_lt in Hw. rewrite (next_warming p st v Hw) in H.
    inversion H; subst. exists []. now rewrite app_nil_r.
  - apply Nat.ltb_ge in Hw.
    destruct (next_forecasting p st v st' o Hw H) as [_ [x [_ [_ Hpp]]]].
    now exists [x].
Qed.

Lemma run_history feed : forall seen st st' os,
  run p seen st feed = Ok (st', os) ->
  length os = length feed /\
  exists added,
    predicted_prices st' = predicted_prices st ++ added /\
    length added =
      (full_bars p (length seen + length feed)
       - full_bars p (length seen))%nat.
Proof.
  unfold full_bars.
  induction feed as [|b rest IH]; intros seen st st' os H; simpl in H.
  - inversion H; subst. split; [reflexivity|].
    exists []. rewrite app_nil_r. split; [reflexivity|]. simpl. lia.
  - apply bind_ok in H. destruct H as [[st1 o1] [Hn H]].
    apply bind_ok in H. destruct H as [[st2 os2] [Hr H]].
    simpl in H. inversion H; subst st' os. simpl in Hr.
    destruct (IH _ _ _ _ Hr) as [Hlen [added2 [Hpp2 Hl2]]].
    destruct (next_history _ _ _ _ Hn) as [added1 [Hpp1 Hl1]].
    split; [simpl; now rewrite Hlen|].
    exists (added1 ++ added2). rewrite Hpp2, Hpp1, app_assoc.
    split; [reflexivity|].
    rewrite length_app, Hl1, Hl2.
    unfold view_of. cbn [data_close]. rewrite !length_app. simpl.
    destruct (length seen + 1 <? lookback p)%nat eqn:Hw;
      [apply Nat.ltb_lt in Hw | apply Nat.ltb_ge in Hw]; lia.
Qed.

Lemma run_prefix feed : forall seen st st' os k,
  run p seen st feed = Ok (st', os) ->
  exists st_k later,
    run p seen st (firstn k feed) = Ok (st_k, firstn k os) /\
    predicted_prices st' = predicted_prices st_k ++ later.
Proof.
  induction feed as [|b rest IH]; intros seen st st' os k H; simpl in H.
  - inversion H; subst. exists st', []. rewrite !firstn_nil, app_nil_r.
    now split.
  - apply bind_ok in H. destruct H as [[st1 o1] [Hn H]].
    apply bind_ok in H. destruct H as [[st2 os2] [Hr H]].
    simpl in H. inversion H; subst st' os. simpl in Hr.
    destruct k as [|k].
    + exists st. simpl.
      destruct (run_history _ _ _ _ _ Hr) as [_ [a2 [Hp2 _]]].
      destruct (next_history _ _ _ _ Hn) as [a1 [Hp1 _]].
      exists (a1 ++ a2). split; [reflexivity|].
      now rewrite Hp2, Hp1, app_assoc.
    + destruct (IH _ _ _ _ k Hr) as [st_k [later [Hk Hl]]].
      exists st_k, later. split; [|exact Hl].
      simpl. rewrite Hn. cbn [bind fst snd]. rewrite Hk. reflexivity.
Qed.

(** C10.  Over a run from the first bar, after any number [k] of bars the
    forecast history holds one prediction for each of those bars whose
    window was full ([k - (lookback - 1)] of them, none while fewer than
    [lookback] bars were seen), independently of the orders given, and
    the history only grows by appending. *)
Theorem forecast_history_length feed st os k :
  run p [] init feed = Ok (st, os) ->
  (k <= length feed)%nat ->
  exists st_k later,
    run p [] init (firstn k feed) = Ok (st_k, firstn k os) /\
    length (predicted_prices st_k) = full_bars p k /\
    predicted_prices st = predicted_prices st_k ++ later.
Proof.
  intros H Hk.
  destruct (run_prefix feed [] init st os k H) as [st_k [later [Hrun Hpre]]].
  exists st_k, later. split; [exact Hrun|]. split; [|exact Hpre].
  destruct (run_history _ _ _ _ _ Hrun) as [_ [added [Hpp Hl]]].
  rewrite Hpp, length_app, Hl. simpl.
  rewrite length_firstn, Nat.min_l by lia.
  unfold full_bars. simpl. lia.
Qed.

End History.

Lemma forecast_history_length_witness :
  exists st_k later,
    MLStrategy.run Reference.strategy_params [] MLStrategy.init
      (firstn 2 (map Reference.flat_bar [1; 2; 3]%Z))
    = Ok (st_k, firstn 2 [None; None; Some (MLStrategy.buy 66)]) /\
    length (MLStrategy.predicted_prices st_k)
    = MLStrategy.full_bars Reference.strategy_params 2 /\
    [of_Z 2; of_Z 3] = MLStrategy.predicted_prices st_k ++ later.
Proof.
  apply (forecast_history_length Reference.strategy_params
           (map Reference.flat_bar [1; 2; 3]%Z)
           {| MLStrategy.predicted_prices := [of_Z 2; of_Z 3] |}
           [None; None; Some (MLStrategy.buy 66)] 2).
  - vm_compute. reflexivity.
  - simpl. lia.
Defined.

(** ** The walk-forward split *)

Section WalkForward.

Import EnhancedDataPipeline.

Lemma slice_split {A : Type} (k : nat) (l : list A) :
  l = slice_to_neg k l ++ slice_from_neg k l.
Proof. unfold slice_to_neg, slice_from_neg. now rewrite firstn_skipn. Qed.

Lemma length_slice_from_neg {A : Type} (k : nat) (l : list A) :
  length (slice_from_neg k l) = Nat.min k (length l).
Proof. unfold slice_from_neg. rewrite length_skipn. lia. Qed.

Lemma length_slice_to_neg {A : Type} (k : nat) (l : list A) :
  length (slice_to_neg k l) = (length l - k)%nat.
Proof. unfold slice_to_neg. rewrite length_firstn. lia. Qed.

(** The pairs built from one slice: the input of rank [t] is the value of
    rank [t], its target is the value of rank [t + 1]. *)
Lemma supervised_pairs (slice : list float) (t : nat) (x y : float) :
  nth_error slice t = Some x ->
  nth_error slice (S t) = Some y ->
  nth_error (reshape_col (slice_to_neg 1 slice)) t = Some [x] /\
  nth_error (slice_from 1 slice) t = Some y.
Proof.
  intros Hx Hy. split.
  - unfold reshape_col, slice_to_neg.
    rewrite nth_error_map, nth_error_firstn.
    assert (S t < length slice)%nat
      by (apply nth_error_Some; congruence).
    replace (t <? length slice - 1)%nat with true
      by (symmetry; apply Nat.ltb_lt; lia).
    now rewrite Hx.
  - unfold slice_from. now rewrite nth_error_skipn.
Qed.

Lemma supervised_lengths (slice : list float) :
  length (reshape_col (slice_to_neg 1 slice)) = (length slice - 1)%nat /\
  length (slice_from 1 slice) = (length slice - 1)%nat.
Proof.
  unfold reshape_col, slice_from.
  now rewrite length_map, length_slice_to_neg, length_skipn.
Qed.

Variable W : World.

(** scikit-learn refuses to fit on an empty sample. *)
Hypothesis fit_needs_samples :
  forall y, fit (regressor W) [] y = Raise ValueError.

(** C2.  Whenever a method is scored, the normalized series is the
    training slice followed by a held-out tail of exactly 30 points; the
    model is fitted on the pairs (value at [t], value at [t + 1]) of the
    training slice and asked about the values of the tail; and each of
    the three metrics compares the predictions with targets that are
    points of the tail, the target of rank [i] being the point of rank
    [i + 1] of the tail, that is of rank [length X_train + i + 1] of the
    series. *)
Theorem walk_forward_split instrument method data metrics norm_data :
  evaluate W instrument method data = Ok (metrics, norm_data) ->
  exists X_train X_test model pred,
    _evaluate_normalization (kernels W) data method = Ok norm_data /\
    norm_data = X_train ++ X_test /\
    length X_test = 30%nat /\
    X_test = slice_from_neg 30 norm_data /\
    fit (regressor W) (reshape_col (slice_to_neg 1 X_train))
      (slice_from 1 X_train) = Ok model /\
    predict (regressor W) model (reshape_col (slice_to_neg 1 X_test))
      = Ok pred /\
    mean_absolute_error (scorers W) (slice_from 1 X_test) pred
      = Ok (MAE metrics) /\
    mean_squared_error (scorers W) (slice_from 1 X_test) pred
      = Ok (MSE metrics) /\
    r2_score (scorers W) (slice_from 1 X_test) pred = Ok (R2 metrics) /\
    (forall slice t x y,
        slice = X_train \/ slice = X_test ->
        nth_error slice t = Some x -> nth_error slice (S t) = Some y ->
        nth_error (reshape_col (slice_to_neg 1 slice)) t = Some [x] /\
        nth_error (slice_from 1 slice) t = Some y) /\
    (forall i y,
        nth_error (slice_from 1 X_test) i = Some y ->
        nth_error X_test (S i) = Some y /\
        nth_error norm_data (length X_train + S i) = Some y).
Proof.
  intros H. unfold evaluate in H.
  apply bind_ok in H. destruct H as [nd [Hn H]].
  apply bind_ok in H. destruct H as [model [Hfit H]].
  apply bind_ok in H. destruct H as [pred [Hpred H]].
  apply bind_ok in H. destruct H as [mae [Hmae H]].
  apply bind_ok in H. destruct H as [mse [Hmse H]].
  apply bind_ok in H. destruct H as [r2 [Hr2 H]].
  inversion H; subst metrics norm_data. clear H.
  unfold tail_length in *.
  exists (slice_to_neg 30 nd), (slice_from_neg 30 nd), model, pred.
  cbn [MAE MSE R2].
  assert (Hlen : (32 <= length nd)%nat).
  { destruct (reshape_col (slice_to_neg 1 (slice_to_neg 30 nd))) eqn:He.
    - rewrite fit_needs_samples in Hfit. discriminate.
    - apply (f_equal (@length _)) in He.
      destruct (supervised_lengths (slice_to_neg 30 nd)) as [Hl _].
      rewrite Hl, length_slice_to_neg in He. simpl in He. lia. }
  repeat (split; [first [assumption | reflexivity | apply slice_split
                        | rewrite length_slice_from_neg; lia]|]).
  split.
  - intros slice t x y _. apply supervised_pairs.
  - intros i y Hy.
    unfold slice_from in Hy. rewrite nth_error_skipn in Hy.
    split; [exact Hy|].
    rewrite (slice_split 30 nd) at 1.
    rewrite nth_error_app2 by lia.
    rewrite <- Hy. f_equal. lia.
Qed.

End WalkForward.

Lemma walk_forward_split_witness :
  exists metrics norm_data X_train X_test,
    EnhancedDataPipeline.evaluate (Reference.world (Reference.ramp 40))
      "MSTR" "Z-Score" (Reference.ramp 40) = Ok (metrics, norm_data) /\
    norm_data = X_train ++ X_test /\
    length X_train = 10%nat /\
    length X_test = 30%nat.
Proof.
  assert (H : exists mn,
             EnhancedDataPipeline.evaluate (Reference.world (Reference.ramp 40))
               "MSTR" "Z-Score" (Reference.ramp 40) = Ok mn)
    by (vm_compute; eexists; reflexivity).
  destruct H as [[metrics norm_data] H].
  destruct (walk_forward_split (Reference.world (Reference.ramp 40))
              (fun _ => eq_refl) "MSTR" "Z-Score" (Reference.ramp 40)
              metrics norm_data H)
    as [X_train [X_test [model [pred [Hn [Hsplit [Hlen _]]]]]]].
  exists metrics, norm_data, X_train, X_test.
  split; [exact H|]. split; [exact Hsplit|]. split; [|exact Hlen].
  assert (Hl : length norm_data = 40%nat).
  { unfold EnhancedDataPipeline._evaluate_normalization in Hn.
    vm_compute in Hn. inversion Hn. reflexivity. }
  rewrite Hsplit, length_app, Hlen in Hl. lia.
Defined.

(** ** Failures of single methods *)

Section Containment.

Import EnhancedDataPipeline.

Variable W : World.

Lemma evaluate_labels instrument method data metrics norm_data :
  evaluate W instrument method data = Ok (metrics, norm_data) ->
  Instrument metrics = instrument /\ Method metrics = method.
Proof.
  unfold evaluate. intros H.
  repeat (apply bind_ok in H; destruct H as [? [_ H]]).
  inversion H; subst. now split.
Qed.

Lemma try_block_results instrument method data results :
  fst (try_block W instrument method data results)
  = results ++ contribution W instrument data method.
Proof.
  unfold try_block, contribution.
  destruct (evaluate W instrument method data) as [[metrics nd]|e]; simpl.
  - reflexivity.
  - now rewrite app_nil_r.
Qed.

Lemma methods_loop_spec instrument data ms : forall results,
  methods_loop W instrument data ms results
  = results ++ flat_map (contribution W instrument data) ms.
Proof.
  induction ms as [|m rest IH]; intros results; simpl.
  - now rewrite app_nil_r.
  - pose proof (try_block_results instrument m data results) as Ht.
    destruct (try_block W instrument m data results) as [results' ended].
    simpl in Ht. subst results'. rewrite IH. now rewrite <- app_assoc.
Qed.

Lemma instruments_loop_spec instruments : forall results,
  Forall (fun i => is_ok (read_csv W i) = true) instruments ->
  instruments_loop W instruments results
  = Ok (results ++ flat_map (scored W) instruments).
Proof.
  induction instruments as [|i rest IH]; intros results Hread;
    cbn [instruments_loop flat_map].
  - now rewrite app_nil_r.
  - inversion Hread as [|? ? Hi Hrest]; subst.
    unfold scored at 1.
    destruct (read_csv W i) as [data|e]; [|discriminate]. cbn [bind].
    rewrite IH by assumption. rewrite methods_loop_spec.
    now rewrite <- app_assoc.
Qed.

(** C6.  When every file is read, the loops end normally whatever the
    methods do, and [results] holds, in order, the rows of the methods
    that were scored and nothing else: a method that raised while it was
    normalized, fitted, asked to predict or scored has no row, and the
    rows of all the other methods and instruments are there. *)
Theorem method_failure_contained instruments :
  Forall (fun i => is_ok (read_csv W i) = true) instruments ->
  exists results,
    instruments_loop W instruments [] = Ok results /\
    results = flat_map (scored W) instruments /\
    (forall instrument method data e,
        read_csv W instrument = Ok data ->
        evaluate W instrument method data = Raise e ->
        forall r, In r results ->
          ~ (Instrument r = instrument /\ Method r = method)) /\
    (forall instrument method data metrics norm_data,
        In instrument instruments -> In method methods ->
        read_csv W instrument = Ok data ->
        evaluate W instrument method data = Ok (metrics, norm_data) ->
        In metrics results).
Proof.
  intros Hread. exists (flat_map (scored W) instruments).
  split; [now rewrite instruments_loop_spec|].
  split; [reflexivity|]. split.
  - intros instrument method data e Hdata Hfail r Hr [Hi Hm].
    apply in_flat_map in Hr. destruct Hr as [i' [_ Hr]].
    unfold scored in Hr.
    destruct (read_csv W i') as [data'|] eqn:Hd'; [|contradiction].
    apply in_flat_map in Hr. destruct Hr as [m' [_ Hr]].
    unfold contribution in Hr.
    destruct (evaluate W i' m' data') as [[metrics nd]|] eqn:Hev;
      [|contradiction].
    destruct Hr as [Hr|[]]. subst metrics.
    destruct (evaluate_labels _ _ _ _ _ Hev) as [Hi' Hm'].
    assert (i' = instrument) by congruence. subst i'.
    assert (m' = method) by congruence. subst m'.
    assert (data' = data) by congruence. subst data'.
    congruence.
  - intros instrument method data metrics nd Hi Hm Hdata Hev.
    apply in_flat_map. exists instrument. split; [exact Hi|].
    unfold scored. rewrite Hdata.
    apply in_flat_map. exists method. split; [exact Hm|].
    unfold contribution. rewrite Hev. now left.
Qed.

End Containment.

Lemma method_failure_contained_witness :
  exists results,
    EnhancedDataPipeline.instruments_loop
      (Reference.world (Reference.ramp 40)) ["MSTR"; "NVDA"]%string []
    = Ok results /\
    (forall r, In r results ->
       ~ (EnhancedDataPipeline.Instrument r = "MSTR"%string /\
          EnhancedDataPipeline.Method r = "Log"%string)) /\
    length results = 4%nat.
Proof.
  destruct (method_failure_contained (Reference.world (Reference.ramp 40))
              ["MSTR"; "NVDA"]%string)
    as [results [Hloop [Hrows [Hfail _]]]].
  - repeat constructor.
  - exists results. split; [exact Hloop|]. split.
    + apply (Hfail "MSTR"%string "Log"%string (Reference.ramp 40) ValueError).
      * reflexivity.
      * vm_compute. reflexivity.
    + rewrite Hrows. vm_compute. reflexivity.
Defined.


(** ** The choice of the best method *)

Section Selection.

Import EnhancedDataPipeline.

Lemma mapM_map {A B : Type} (f : A -> result B) (g : A -> B) (l : list A) :
  (forall a, In a l -> f a = Ok (g a)) -> mapM f l = Ok (map g l).
Proof.
  induction l as [|a rest IH]; intros H; simpl; [reflexivity|].
  rewrite (H a) by now left. simpl.
  rewrite IH by (intros; apply H; now right). reflexivity.
Qed.

Lemma in_insert_sorted s x l :
  In x (insert_sorted s l) <-> x = s \/ In x l.
Proof.
  induction l as [|t rest IH]; simpl.
  - intuition.
  - destruct (String.leb s t); simpl; rewrite ?IH; intuition.
Qed.

Lemma in_sort_strings x l : In x (sort_strings l) <-> In x l.
Proof.
  induction l as [|s rest IH]; simpl; [tauto|].
  rewrite in_insert_sorted, IH. intuition.
Qed.

Lemma NoDup_insert_sorted s l :
  ~ In s l -> NoDup l -> NoDup (insert_sorted s l).
Proof.
  induction l as [|t rest IH]; simpl; intros Hs Hl.
  - constructor; [tauto|constructor].
  - destruct (String.leb s t).
    + constructor; [simpl; tauto|assumption].
    + inversion Hl; subst. constructor.
      * rewrite in_insert_sorted. intuition.
      * apply IH; tauto.
Qed.

Lemma NoDup_sort_strings l : NoDup l -> NoDup (sort_strings l).
Proof.
  induction l as [|s rest IH]; simpl; intros H; [constructor|].
  inversion H; subst. apply NoDup_insert_sorted; auto.
  now rewrite in_sort_strings.
Qed.

Lemma in_group_keys results key :
  In key (group_keys results) <-> In key (map Instrument results).
Proof.
  unfold group_keys. now rewrite in_sort_strings, nodup_In.
Qed.

Lemma NoDup_group_keys results : NoDup (group_keys results).
Proof. apply NoDup_sort_strings, NoDup_nodup. Qed.

Variable key : string.

Lemma idxmax_from_spec rows : forall pre best,
  Forall (fun r => is_nan (R2 r) = false) (pre ++ rows) ->
  candidate_ok key pre best ->
  match idxmax_from key rows (length pre) best with
  | Some j => first_best key (pre ++ rows) j
  | None => forall c, In c (pre ++ rows) -> Instrument c <> key
  end.
Proof.
  induction rows as [|r rest IH]; intros pre best Hnan Hc.
  - simpl. rewrite app_nil_r.
    destruct best as [[j m]|]; simpl; [apply Hc|exact Hc].
  - cbn [idxmax_from].
    replace (S (length pre)) with (length (pre ++ [r]))
      by (rewrite length_app; simpl; lia).
    replace (pre ++ r :: rest) with ((pre ++ [r]) ++ rest) in *
      by (now rewrite <- app_assoc).
    apply IH; [exact Hnan|].
    assert (Hr : is_nan (R2 r) = false).
    { rewrite Forall_forall in Hnan. apply Hnan.
      apply in_or_app. left. apply in_or_app. right. now left. }
    assert (Hpre : forall c, In c pre -> is_nan (R2 c) = false).
    { intros c Hin. rewrite Forall_forall in Hnan. apply Hnan.
      apply in_or_app. left. apply in_or_app. now left. }
    destruct (Instrument r =? key)%string eqn:Hk; cbn [negb].
    + apply String.eqb_eq in Hk. rewrite Hr.
      destruct best as [[j m]|].
      * destruct Hc as [[w [Hw [Hwk Hmax]]] [w' [Hw' Hm]]].
        assert (w' = w) by congruence. subst w'. subst m.
        assert (Hjlt : (j < length pre)%nat)
          by (apply nth_error_Some; congruence).
        assert (Hwn : is_nan (R2 w) = false)
          by (apply Hpre; eapply nth_error_In; eassumption).
        destruct (ltb (R2 w) (R2 r)) eqn:Hlt.
        -- (* the new row is strictly better *)
           split.
           ++ exists r. split; [|split; [exact Hk|]].
              { rewrite nth_error_app2 by lia. now rewrite Nat.sub_diag. }
              intros k c Hkc Hck.
              destruct (Nat.lt_ge_cases k (length pre)) as [Hlt'|Hge].
              ** rewrite nth_error_app1 in Hkc by assumption.
                 destruct (Hmax k c Hkc Hck) as [Hle _].
                 assert (Hcn : is_nan (R2 c) = false)
                   by (apply Hpre; eapply nth_error_In; eassumption).
                 assert (ltb (R2 c) (R2 r) = true)
                   by (eapply leb_ltb_trans; [| | |exact Hle|exact Hlt];
                       assumption).
                 split; [now apply ltb_leb|auto].
              ** rewrite nth_error_app2 in Hkc by assumption.
                 destruct (k - length pre)%nat as [|n] eqn:Hn.
                 --- simpl in Hkc. inversion Hkc; subst c.
                     split; [now apply leb_refl|lia].
                 --- simpl in Hkc. destruct n; discriminate.
           ++ exists r. split; [|reflexivity].
              rewrite nth_error_app2 by lia. now rewrite Nat.sub_diag.
        -- (* the candidate stays *)
           split.
           ++ exists w. split; [|split; [exact Hwk|]].
              { rewrite nth_error_app1 by assumption. exact Hw. }
              intros k c Hkc Hck.
              destruct (Nat.lt_ge_cases k (length pre)) as [Hlt'|Hge].
              ** rewrite nth_error_app1 in Hkc by assumption. now apply Hmax.
              ** rewrite nth_error_app2 in Hkc by assumption.
                 destruct (k - length pre)%nat as [|n] eqn:Hn.
                 --- simpl in Hkc. inversion Hkc; subst c.
                     split; [now apply not_ltb_leb|lia].
                 --- simpl in Hkc. destruct n; discriminate.
           ++ exists w. split; [|reflexivity].
              rewrite nth_error_app1 by assumption. exact Hw.
      * (* first row of the group *)
        simpl in Hc. split.
        -- exists r. split; [|split; [exact Hk|]].
           { rewrite nth_error_app2 by lia. now rewrite Nat.sub_diag. }
           intros k c Hkc Hck.
           destruct (Nat.lt_ge_cases k (length pre)) as [Hlt'|Hge].
           ++ rewrite nth_error_app1 in Hkc by assumption.
              exfalso. apply (Hc c); [eapply nth_error_In; eassumption|exact Hck].
           ++ rewrite nth_error_app2 in Hkc by assumption.
              destruct (k - length pre)%nat as [|n] eqn:Hn.
              ** simpl in Hkc. inversion Hkc; subst c.
                 split; [now apply leb_refl|lia].
              ** simpl in Hkc. destruct n; discriminate.
        -- exists r. split; [|reflexivity].
           rewrite nth_error_app2 by lia. now rewrite Nat.sub_diag.
    + (* a row of another instrument *)
      apply String.eqb_neq in Hk.
      destruct best as [[j m]|].
      * destruct Hc as [[w [Hw [Hwk Hmax]]] [w' [Hw' Hm]]].
        assert (Hjlt : (j < length pre)%nat)
          by (apply nth_error_Some; congruence).
        split.
        -- exists w. split; [|split; [exact Hwk|]].
           { rewrite nth_error_app1 by assumption. exact Hw. }
           intros k c Hkc Hck.
           destruct (Nat.lt_ge_cases k (length pre)) as [Hlt'|Hge].
           ++ rewrite nth_error_app1 in Hkc by assumption. now apply Hmax.
           ++ rewrite nth_error_app2 in Hkc by assumption.
              destruct (k - length pre)%nat as [|n] eqn:Hn.
              ** simpl in Hkc. inversion Hkc; subst c. contradiction.
              ** simpl in Hkc. destruct n; discriminate.
        -- exists w'. split; [|exact Hm].
           rewrite nth_error_app1 by assumption. exact Hw'.
      * simpl in *. intros c Hin. apply in_app_or in Hin.
        destruct Hin as [Hin|[Hin|[]]]; [now apply Hc|now subst c].
Qed.

End Selection.

Section Best.

Import EnhancedDataPipeline.

Lemma idxmax_first_best results key :
  Forall (fun r => is_nan (R2 r) = false) results ->
  In key (map Instrument results) ->
  exists j, idxmax results key = Ok j /\ first_best key results j.
Proof.
  intros Hnan Hin.
  pose proof (idxmax_from_spec key results [] None) as H.
  simpl in H. specialize (H Hnan (fun c (Hc : False) => match Hc with end)).
  unfold idxmax.
  destruct (idxmax_from key results 0 None) as [j|].
  - now exists j.
  - exfalso. apply in_map_iff in Hin. destruct Hin as [c [Hk Hc]].
    now apply (H c Hc).
Qed.

Lemma select_best_rows results :
  results <> [] ->
  Forall (fun r => is_nan (R2 r) = false) results ->
  exists best,
    select_best results = Ok best /\
    NoDup (map Instrument best) /\
    (forall i, In i (map Instrument best) <-> In i (map Instrument results)) /\
    (forall w, In w best ->
       exists j, nth_error results j = Some w /\
                 first_best (Instrument w) results j).
Proof.
  intros Hne Hnan.
  assert (Hsel : select_best results
                 = (labels <- mapM (idxmax results) (group_keys results) ;;
                    mapM (loc results) labels))
    by (destruct results; [congruence|reflexivity]).
  assert (Hr0 : exists r0 : row, In r0 results)
    by (destruct results as [|r0 rest]; [congruence|exists r0; now left]).
  destruct Hr0 as [r0 _].
  set (g := fun key => match idxmax results key with Ok j => j | Raise _ => 0%nat end).
  set (h := fun j => nth j results r0).
  assert (Hg : forall key, In key (group_keys results) ->
               idxmax results key = Ok (g key) /\ first_best key results (g key)).
  { intros key Hk. apply in_group_keys in Hk.
    destruct (idxmax_first_best results key Hnan Hk) as [j [Hj Hf]].
    unfold g. rewrite Hj. now split. }
  assert (Hh : forall key, In key (group_keys results) ->
               nth_error results (g key) = Some (h (g key)) /\
               Instrument (h (g key)) = key).
  { intros key Hk. destruct (Hg key Hk) as [_ [w [Hw [Hwk _]]]].
    unfold h. rewrite (nth_error_nth _ _ r0 Hw). rewrite Hw. now split. }
  exists (map h (map g (group_keys results))).
  assert (Hinst : map Instrument (map h (map g (group_keys results)))
                  = group_keys results).
  { rewrite !map_map. rewrite <- (map_id (group_keys results)) at 2.
    apply map_ext_in. intros key Hk. now apply Hh. }
  split.
  - rewrite Hsel.
    rewrite (mapM_map (idxmax results) g) by (intros; now apply Hg).
    cbn [bind].
    apply mapM_map. intros j Hj. apply in_map_iff in Hj.
    destruct Hj as [key [Hj Hk]]. subst j.
    unfold loc. destruct (Hh key Hk) as [Hn _]. now rewrite Hn.
  - rewrite Hinst. split; [apply NoDup_group_keys|].
    split; [intros i; apply in_group_keys|].
    intros w Hw. apply in_map_iff in Hw. destruct Hw as [j [Hw Hj]].
    apply in_map_iff in Hj. destruct Hj as [key [Hj Hk]]. subst j w.
    exists (g key). destruct (Hh key Hk) as [Hn Hi]. split; [exact Hn|].
    rewrite Hi. now apply Hg.
Qed.

(** C3.  On a leaderboard that is not empty (its R2 being numbers),
    [select_best] returns one row for each instrument of the leaderboard
    and no other; each returned row is a row of the leaderboard whose R2
    no row of the same instrument exceeds, and every row of that
    instrument met before it has a strictly smaller R2: among equal
    best rows the first one wins. *)
Theorem select_best_first_max results :
  results <> [] ->
  Forall (fun r => is_nan (R2 r) = false) results ->
  exists best,
    select_best results = Ok best /\
    NoDup (map Instrument best) /\
    (forall i, In i (map Instrument best) <-> In i (map Instrument results)) /\
    (forall w, In w best ->
       exists j,
         nth_error results j = Some w /\
         forall k c, nth_error results k = Some c ->
           Instrument c = Instrument w ->
           leb (R2 c) (R2 w) = true /\
           ((k < j)%nat -> ltb (R2 c) (R2 w) = true)).
Proof.
  intros Hne Hnan.
  destruct (select_best_rows results Hne Hnan)
    as [best [Hsel [Hnodup [Hin Hbest]]]].
  exists best. repeat (split; [assumption|]).
  intros w Hw. destruct (Hbest w Hw) as [j [Hj [w' [Hw' [_ Hmax]]]]].
  exists j. split; [exact Hj|].
  assert (w' = w) by congruence. subst w'. exact Hmax.
Qed.

(** No row of the selection bears an instrument that the leaderboard
    lacks. *)
Lemma select_best_instruments results best i :
  Forall (fun r => is_nan (R2 r) = false) results ->
  select_best results = Ok best ->
  ~ In i (map Instrument results) ->
  ~ In i (map Instrument best).
Proof.
  intros Hnan Hsel Hi.
  destruct results as [|r0 rest]; [discriminate|].
  destruct (select_best_rows (r0 :: rest) ltac:(discriminate) Hnan)
    as [best' [Hsel' [_ [Hin _]]]].
  assert (best' = best) by congruence. subst best'.
  now rewrite Hin.
Qed.

(** When every method of every instrument fails, [results] stays empty
    and the selection raises. *)
Lemma all_failed_raises W instruments :
  Forall (fun i => is_ok (read_csv W i) = true) instruments ->
  (forall i m data, is_ok (evaluate W i m data) = false) ->
  normalize_data W instruments = Raise KeyError.
Proof.
  intros Hread Hfail. unfold normalize_data.
  rewrite instruments_loop_spec by assumption.
  assert (Hnone : flat_map (scored W) instruments = []).
  { clear Hread. induction instruments as [|i rest IH]; [reflexivity|].
    cbn [flat_map]. rewrite IH, app_nil_r. unfold scored.
    destruct (read_csv W i) as [data|]; [|reflexivity].
    induction methods as [|m ms IHm]; [reflexivity|].
    cbn [flat_map]. rewrite IHm, app_nil_r. unfold contribution.
    specialize (Hfail i m data).
    now destruct (evaluate W i m data) as [[? ?]|]. }
  rewrite Hnone. reflexivity.
Qed.

End Best.

Lemma select_best_first_max_witness :
  exists best,
    EnhancedDataPipeline.select_best Reference.leaderboard = Ok best /\
    map EnhancedDataPipeline.Method best = ["Z-Score"; "Z-Score"]%string /\
    NoDup (map EnhancedDataPipeline.Instrument best).
Proof.
  destruct (select_best_first_max Reference.leaderboard)
    as [best [Hsel [Hnodup _]]].
  - discriminate.
  - repeat constructor.
  - exists best. split; [exact Hsel|]. split; [|exact Hnodup].
    vm_compute in Hsel. inversion Hsel. reflexivity.
Defined.

(** C7.  With three closes per file no method can be fitted, [results]
    stays empty, and the selection does not return an empty table: the
    frame built from the empty list has no instrument column and the
    grouping raises [KeyError]. *)
Theorem empty_leaderboard_raises :
  EnhancedDataPipeline.instruments_loop
    (Reference.world (Reference.ramp 3)) ["MSTR"; "BTC-USD"]%string []
  = Ok [] /\
  EnhancedDataPipeline.select_best [] = Raise KeyError /\
  EnhancedDataPipeline.normalize_data
    (Reference.world (Reference.ramp 3)) ["MSTR"; "BTC-USD"]%string
  = Raise KeyError.
Proof. repeat split; vm_compute; reflexivity. Qed.


(** ** Rounding to binary64 *)

Section Rounding.

  Local Open Scope Z_scope.

(** ** Digits *)

Lemma digits2_pos_bounds (m : positive) :
  2 ^ (Zpos (digits2_pos m) - 1) <= Zpos m < 2 ^ Zpos (digits2_pos m).
Proof.
  induction m as [m IH|m IH|]; cbn [digits2_pos].
  - rewrite Pos2Z.inj_succ.
    replace (Z.succ (Zpos (digits2_pos m)) - 1) with (Zpos (digits2_pos m)) by lia.
    rewrite Z.pow_succ_r by lia.
    replace (Zpos (digits2_pos m)) with (Zpos (digits2_pos m) - 1 + 1) at 1 by lia.
    rewrite Z.pow_add_r in * by lia. lia.
  - rewrite Pos2Z.inj_succ.
    replace (Z.succ (Zpos (digits2_pos m)) - 1) with (Zpos (digits2_pos m)) by lia.
    rewrite Z.pow_succ_r by lia.
    replace (Zpos (digits2_pos m)) with (Zpos (digits2_pos m) - 1 + 1) at 1 by lia.
    rewrite Z.pow_add_r in * by lia. lia.
  - simpl. lia.
Qed.

Lemma Zdigits2_nonneg (m : Z) : 0 <= Zdigits2 m.
Proof. destruct m; simpl; lia. Qed.

Lemma Zdigits2_upper (m : Z) : 0 <= m -> m < 2 ^ Zdigits2 m.
Proof.
  destruct m as [|m|m]; simpl; intros H; try lia.
  apply digits2_pos_bounds.
Qed.

Lemma Zdigits2_lower (m : Z) : 0 < m -> 2 ^ (Zdigits2 m - 1) <= m.
Proof.
  destruct m as [|m|m]; simpl; intros H; try lia.
  apply digits2_pos_bounds.
Qed.


Lemma iter_pos_nat {A : Type} (f : A -> A) (p : positive) (x : A) :
  iter_pos f p x = Nat.iter (Pos.to_nat p) f x.
Proof.
  revert x. induction p as [p IH|p IH|]; intros x; cbn [iter_pos].
  - rewrite !IH. rewrite Pos2Nat.inj_xI.
    replace (S (2 * Pos.to_nat p))%nat with (Pos.to_nat p + (Pos.to_nat p + 1))%nat by lia.
    rewrite !Nat.iter_add. simpl. reflexivity.
  - rewrite !IH. rewrite Pos2Nat.inj_xO.
    replace (2 * Pos.to_nat p)%nat with (Pos.to_nat p + Pos.to_nat p)%nat by lia.
    now rewrite Nat.iter_add.
  - reflexivity.
Qed.

Lemma shr_1_spec (r : shr_record) :
  0 <= shr_m r ->
  shr_m (shr_1 r) = shr_m r / 2 /\
  (inexact (shr_1 r) = true -> inexact r = true \/ shr_m r mod 2 <> 0).
Proof.
  destruct r as [m b s]. unfold inexact. cbn [shr_m shr_r shr_s]. intros Hm.
  destruct m as [|[m|m|]|m]; try lia; cbn [shr_1 shr_m shr_r shr_s].
  - split; [reflexivity|]. rewrite orb_false_l. tauto.
  - split.
    + rewrite Pos2Z.inj_xI. apply Z.div_unique with (r := 1); lia.
    + intros _. right. rewrite Pos2Z.inj_xI.
      replace (2 * Zpos m + 1) with (1 + Zpos m * 2) by lia.
      rewrite Z.mod_add by lia. discriminate.
  - split.
    + rewrite Pos2Z.inj_xO. apply Z.div_unique with (r := 0); lia.
    + rewrite orb_false_l. tauto.
  - split; [reflexivity|]. intros _. right. discriminate.
Qed.

Lemma shr_iter_spec (n : nat) (r : shr_record) :
  0 <= shr_m r ->
  shr_m (Nat.iter n shr_1 r) = shr_m r / 2 ^ Z.of_nat n /\
  (inexact (Nat.iter n shr_1 r) = true ->
   inexact r = true \/ shr_m r mod 2 ^ Z.of_nat n <> 0).
Proof.
  intros Hm. induction n as [|n [IHm IHi]].
  - simpl. rewrite Z.div_1_r, Z.mod_1_r. split; [reflexivity|tauto].
  - change (Nat.iter (S n) shr_1 r) with (shr_1 (Nat.iter n shr_1 r)).
    assert (Hpos : 0 <= shr_m (Nat.iter n shr_1 r)).
    { rewrite IHm. apply Z.div_pos; lia. }
    destruct (shr_1_spec _ Hpos) as [H1 H2].
    rewrite Nat2Z.inj_succ, Z.pow_succ_r by lia.
    assert (H2n : 0 < 2 ^ Z.of_nat n) by (apply Z.pow_pos_nonneg; lia).
    split.
    + rewrite H1, IHm. rewrite Z.div_div by lia. f_equal. lia.
    + intros Hi. destruct (H2 Hi) as [Hi'|Hodd]; [destruct (IHi Hi'); auto|].
      * right. intros Hz. apply H. 
        rewrite Z.mul_comm in Hz. rewrite Z.rem_mul_r in Hz by lia.
        pose proof (Z.mod_pos_bound (shr_m r) (2 ^ Z.of_nat n) H2n).
        pose proof (Z.mod_pos_bound (shr_m r / 2 ^ Z.of_nat n) 2 ltac:(lia)).
        nia.
      * right. intros Hz. apply Hodd. rewrite IHm.
        rewrite Z.mul_comm in Hz. rewrite Z.rem_mul_r in Hz by lia.
        pose proof (Z.mod_pos_bound (shr_m r) (2 ^ Z.of_nat n) H2n).
        pose proof (Z.mod_pos_bound (shr_m r / 2 ^ Z.of_nat n) 2 ltac:(lia)).
        nia.
Qed.

Lemma shr_spec (r : shr_record) (e n : Z) :
  0 <= shr_m r ->
  let k := Z.max n 0 in
  snd (shr r e n) = e + k /\
  shr_m (fst (shr r e n)) = shr_m r / 2 ^ k /\
  (inexact (fst (shr r e n)) = true ->
   inexact r = true \/ shr_m r mod 2 ^ k <> 0).
Proof.
  intros Hm k. unfold shr, k. destruct n as [|p|p]; cbn [fst snd].
  - simpl. rewrite Z.div_1_r. repeat split; try lia. tauto.
  - rewrite iter_pos_nat. destruct (shr_iter_spec (Pos.to_nat p) r Hm) as [H1 H2].
    rewrite positive_nat_Z in *.
    replace (Z.max (Zpos p) 0) with (Zpos p) by lia. repeat split; auto.
  - simpl. rewrite Z.div_1_r. repeat split; try lia. tauto.
Qed.


Lemma shr_fexp_spec (m e : Z) (l : location) :
  0 <= m ->
  snd (shr_fexp prec emax m e l) = e + shift_of m e /\
  shr_m (fst (shr_fexp prec emax m e l)) = m / 2 ^ shift_of m e /\
  (inexact (fst (shr_fexp prec emax m e l)) = true ->
   l <> loc_Exact \/ m mod 2 ^ shift_of m e <> 0).
Proof.
  intros Hm. unfold shr_fexp, shift_of.
  set (n := fexp prec emax (Zdigits2 m + e) - e).
  assert (Hr : shr_m (shr_record_of_loc m l) = m)
    by (destruct l as [|[]]; reflexivity).
  destruct (shr_spec (shr_record_of_loc m l) e n) as [H1 [H2 H3]];
    [rewrite Hr; exact Hm|].
  rewrite Hr in *. repeat split; auto.
  intros Hi. destruct (H3 Hi) as [Hl|Hl]; [left|now right].
  intros ->. discriminate.
Qed.

Lemma round_nearest_even_spec (r : shr_record) :
  round_nearest_even (shr_m r) (loc_of_shr_record r) = shr_m r \/
  (round_nearest_even (shr_m r) (loc_of_shr_record r) = shr_m r + 1 /\
   inexact r = true).
Proof.
  destruct r as [m [|] [|]]; unfold inexact; simpl; auto.
  destruct (Z.even m); auto.
Qed.

Lemma binary_round_aux_spec (sx : bool) (mx ex : Z) (lx : location) :
  0 <= mx ->
  exists m1,
    let k1 := shift_of mx ex in
    let e1 := ex + k1 in
    let k2 := shift_of m1 e1 in
    (m1 = mx / 2 ^ k1 \/
     (m1 = mx / 2 ^ k1 + 1 /\ (lx <> loc_Exact \/ mx mod 2 ^ k1 <> 0))) /\
    binary_round_aux prec emax sx mx ex lx =
      match m1 / 2 ^ k2 with
      | 0 => S754_zero sx
      | Zpos m =>
          if e1 + k2 <=? emax - prec then S754_finite sx m (e1 + k2)
          else S754_infinity sx
      | Zneg _ => S754_nan
      end.
Proof.
  intros Hm. unfold binary_round_aux.
  destruct (shr_fexp_spec mx ex lx Hm) as [He1 [Hm1 Hi1]].
  destruct (shr_fexp prec emax mx ex lx) as [mrs' e'] eqn:Hs1.
  cbn [fst snd] in *.
  set (m1 := round_nearest_even (shr_m mrs') (loc_of_shr_record mrs')).
  exists m1. cbn zeta.
  assert (Hdiv : 0 <= mx / 2 ^ shift_of mx ex)
    by (apply Z.div_pos; [lia|apply Z.pow_pos_nonneg; unfold shift_of; lia]).
  assert (Hm1' : m1 = mx / 2 ^ shift_of mx ex \/
                 (m1 = mx / 2 ^ shift_of mx ex + 1 /\
                  (lx <> loc_Exact \/ mx mod 2 ^ shift_of mx ex <> 0))).
  { unfold m1. destruct (round_nearest_even_spec mrs') as [H|[H Hi]];
      rewrite H, Hm1; auto. }
  split; [exact Hm1'|].
  assert (Hm1pos : 0 <= m1) by (destruct Hm1' as [->|[-> _]]; lia).
  destruct (shr_fexp_spec m1 e' loc_Exact Hm1pos) as [He2 [Hm2 _]].
  destruct (shr_fexp prec emax m1 e' loc_Exact) as [mrs'' e''] eqn:Hs2.
  cbn [fst snd] in *. subst e'. rewrite Hm2, He2. reflexivity.
Qed.

Lemma fexp_ge_emin (x : Z) : emin prec emax <= fexp prec emax x.
Proof. unfold fexp. lia. Qed.

Lemma shift_of_bounds (m e : Z) :
  0 <= shift_of m e /\
  fexp prec emax (Zdigits2 m + e) <= e + shift_of m e /\
  Zdigits2 m - prec <= shift_of m e.
Proof. unfold shift_of, fexp. lia. Qed.


Lemma binary_round_aux_sign (sx : bool) (mx ex : Z) (lx : location) :
  0 <= mx ->
  (binary_round_aux prec emax sx mx ex lx = S754_zero sx \/
   binary_round_aux prec emax sx mx ex lx = S754_infinity sx \/
   exists m e, binary_round_aux prec emax sx mx ex lx = S754_finite sx m e) /\
  bounded53 (binary_round_aux prec emax sx mx ex lx).
Proof.
  intros Hm.
  destruct (binary_round_aux_spec sx mx ex lx Hm) as [m1 [Hm1 Heq]].
  cbn zeta in *. rewrite Heq. clear Heq.
  set (k1 := shift_of mx ex) in *.
  set (k2 := shift_of m1 (ex + k1)).
  assert (Hk1 : 0 <= k1) by apply shift_of_bounds.
  assert (Hdiv : 0 <= mx / 2 ^ k1)
    by (apply Z.div_pos; [lia|apply Z.pow_pos_nonneg; lia]).
  assert (Hm1pos : 0 <= m1) by (destruct Hm1 as [->|[-> _]]; lia).
  destruct (shift_of_bounds m1 (ex + k1)) as [Hk2 [Hfe Hdg]]. fold k2 in Hk2, Hfe, Hdg.
  assert (H2k : 0 < 2 ^ k2) by (apply Z.pow_pos_nonneg; lia).
  assert (Hq : 0 <= m1 / 2 ^ k2) by (apply Z.div_pos; lia).
  destruct (m1 / 2 ^ k2) as [|m|m] eqn:Hm2; [split; cbn [bounded53]; auto| |lia].
  destruct (ex + k1 + k2 <=? emax - prec); [|split; cbn [bounded53]; auto].
  split; [right; right; eauto|]. cbn [bounded53]. split.
  - rewrite <- Hm2. apply Z.div_lt_upper_bound; [lia|].
    rewrite <- Z.pow_add_r by (unfold prec; lia).
    apply Z.lt_le_trans with (2 ^ Zdigits2 m1); [now apply Zdigits2_upper|].
    apply Z.pow_le_mono_r; lia.
  - pose proof (fexp_ge_emin (Zdigits2 m1 + (ex + k1))). lia.
Qed.

Lemma binary_round_aux_nonzero (sx : bool) (mx ex : Z) (lx : location) :
  0 < mx -> emin prec emax <= ex ->
  binary_round_aux prec emax sx mx ex lx = S754_infinity sx \/
  exists m e, binary_round_aux prec emax sx mx ex lx = S754_finite sx m e.
Proof.
  intros Hm He.
  destruct (binary_round_aux_spec sx mx ex lx ltac:(lia)) as [m1 [Hm1 Heq]].
  cbn zeta in *. rewrite Heq. clear Heq.
  set (k1 := shift_of mx ex) in *.
  set (k2 := shift_of m1 (ex + k1)).
  assert (Hshift : forall m e, 0 < m -> emin prec emax <= e ->
                     1 <= m / 2 ^ shift_of m e).
  { intros m e Hmp Hee.
    assert (Hd : 1 <= Zdigits2 m) by (destruct m; cbn [Zdigits2]; lia).
    apply Z.div_le_lower_bound; [apply Z.pow_pos_nonneg; unfold shift_of; lia|].
    rewrite Z.mul_1_r.
    apply Z.le_trans with (2 ^ (Zdigits2 m - 1)); [|now apply Zdigits2_lower].
    apply Z.pow_le_mono_r; [lia|].
    unfold shift_of, fexp, prec in *. lia. }
  assert (H1 : 1 <= mx / 2 ^ k1) by now apply Hshift.
  assert (Hm1pos : 0 < m1) by (destruct Hm1 as [->|[-> _]]; lia).
  assert (He1 : emin prec emax <= ex + k1)
    by (unfold k1; pose proof (shift_of_bounds mx ex); lia).
  pose proof (Hshift m1 (ex + k1) Hm1pos He1) as H2. fold k2 in H2.
  destruct (m1 / 2 ^ k2) as [|m|m]; try lia.
  destruct (ex + k1 + k2 <=? emax - prec); [right; eauto|now left].
Qed.

(** The largest binary64 number below 1 is [(2^53 - 1) * 2^-53].  A value
    that does not exceed it is rounded to a number below 1, whose integer
    part is 0. *)
Lemma binary_round_aux_lt_one (sx : bool) (mx ex : Z) (lx : location) :
  0 <= mx ->
  ex + shift_of mx ex <= - prec ->
  mx <= (2 ^ prec - 1) * 2 ^ (- prec - ex) ->
  (lx <> loc_Exact -> mx < (2 ^ prec - 1) * 2 ^ (- prec - ex)) ->
  int (binary_round_aux prec emax sx mx ex lx) = Ok 0.
Proof.
  intros Hm HE Hle Hlt.
  destruct (binary_round_aux_spec sx mx ex lx Hm) as [m1 [Hm1 Heq]].
  cbn zeta in *. rewrite Heq. clear Heq.
  set (k1 := shift_of mx ex) in *.
  set (k2 := shift_of m1 (ex + k1)).
  assert (Hk1 : 0 <= k1) by apply shift_of_bounds.
  assert (Hk2 : 0 <= k2) by apply shift_of_bounds.
  set (E1 := ex + k1) in *.
  set (P := 2 ^ prec - 1) in *.
  set (N1 := P * 2 ^ (- prec - E1)).
  assert (H2k1 : 0 < 2 ^ k1) by (apply Z.pow_pos_nonneg; lia).
  assert (H2k2 : 0 < 2 ^ k2) by (apply Z.pow_pos_nonneg; lia).
  assert (HT : P * 2 ^ (- prec - ex) = 2 ^ k1 * N1).
  { unfold N1. replace (- prec - ex) with (k1 + (- prec - E1)) by (unfold E1; lia).
    rewrite Z.pow_add_r by lia. ring. }
  rewrite HT in Hle, Hlt.
  assert (HN1 : N1 < 2 ^ (- E1)).
  { unfold N1, P. replace (- E1) with (prec + (- prec - E1)) by lia.
    rewrite Z.pow_add_r by (unfold prec in *; lia).
    assert (0 < 2 ^ (- prec - E1)) by (apply Z.pow_pos_nonneg; lia).
    nia. }
  assert (Hm1le : 0 <= m1 <= N1).
  { assert (0 <= mx / 2 ^ k1) by (apply Z.div_pos; lia).
    assert (mx / 2 ^ k1 <= N1) by (apply Z.div_le_upper_bound; lia).
    destruct Hm1 as [->|[-> Hin]]; [lia|].
    assert (mx < 2 ^ k1 * N1).
    { destruct Hin as [Hin|Hin]; [auto|].
      assert (mx <> 2 ^ k1 * N1); [|lia].
      intros Hx. apply Hin. rewrite Hx, Z.mul_comm. apply Z.mod_mul. lia. }
    assert (mx / 2 ^ k1 < N1) by (apply Z.div_lt_upper_bound; lia).
    lia. }
  destruct (m1 / 2 ^ k2) as [|m|m] eqn:Hm2; [reflexivity| |].
  - assert (He : E1 + k2 < 0).
    { destruct (Z.lt_ge_cases (E1 + k2) 0) as [|Hge]; [assumption|exfalso].
      assert (2 ^ (- E1) <= 2 ^ k2) by (apply Z.pow_le_mono_r; lia).
      rewrite Z.div_small in Hm2 by lia. discriminate. }
    replace (E1 + k2 <=? emax - prec) with true
      by (symmetry; apply Z.leb_le; unfold emax, prec; lia).
    cbn [int]. f_equal.
    assert (Hs : Z.shiftl (Zpos m) (E1 + k2) = 0).
    { rewrite <- Z.shiftr_opp_r, Z.shiftr_div_pow2 by lia.
      apply Z.div_small. split; [lia|]. rewrite <- Hm2.
      apply Z.div_lt_upper_bound; [lia|].
      rewrite <- Z.pow_add_r by lia.
      replace (k2 + - (E1 + k2)) with (- E1) by lia. lia. }
    rewrite Hs. now destruct sx.
  - assert (0 <= m1 / 2 ^ k2) by (apply Z.div_pos; lia). lia.
Qed.

(** ** Division *)

Lemma SFdiv_core_binary_spec (m1 e1 m2 e2 : Z) :
  let e' := Z.min (fexp prec emax (Zdigits2 m1 + e1 - (Zdigits2 m2 + e2)))
                  (e1 - e2) in
  let s := e1 - e2 - e' in
  SFdiv_core_binary prec emax m1 e1 m2 e2
  = ((m1 * 2 ^ s) / m2, e', new_location m2 ((m1 * 2 ^ s) mod m2)).
Proof.
  intros e' s. unfold SFdiv_core_binary. fold e'. fold s.
  assert (Hs : 0 <= s) by (unfold s, e'; lia).
  assert (Hm : match s with
               | Zpos _ => Z.shiftl m1 s
               | 0 => m1
               | Zneg _ => 0
               end = m1 * 2 ^ s).
  { destruct s as [|p|p] eqn:E; [simpl; lia| |lia].
    now rewrite Z.shiftl_mul_pow2 by lia. }
  rewrite Hm. unfold Z.div, Z.modulo.
  now destruct (Z.div_eucl (m1 * 2 ^ s) m2).
Qed.

Lemma new_location_exact (n k : Z) :
  new_location n k <> loc_Exact -> k <> 0.
Proof.
  unfold new_location, new_location_even, new_location_odd.
  intros H ->. destruct (Z.even n); simpl in H; congruence.
Qed.

Lemma valid_finite_bounds (s : bool) (m : positive) (e : Z) :
  valid (S754_finite s m e) = true ->
  Zpos m < 2 ^ prec /\ emin prec emax <= e /\
  (emin prec emax < e -> 2 ^ (prec - 1) <= Zpos m).
Proof.
  unfold valid, valid_binary, bounded, canonical_mantissa.
  intros H. apply andb_true_iff in H. destruct H as [H _].
  apply Z.eqb_eq in H.
  pose proof (digits2_pos_bounds m) as [Hlo Hhi].
  unfold fexp in H.
  repeat split.
  - apply Z.lt_le_trans with (2 ^ Zpos (digits2_pos m)); [exact Hhi|].
    apply Z.pow_le_mono_r; lia.
  - lia.
  - intros He. apply Z.le_trans with (2 ^ (Zpos (digits2_pos m) - 1)); [|exact Hlo].
    apply Z.pow_le_mono_r; lia.
Qed.

Lemma ltb_finite_pos (ma mp : positive) (ea ep : Z) :
  ltb (S754_finite false ma ea) (S754_finite false mp ep) = true ->
  ea < ep \/ (ea = ep /\ Zpos ma < Zpos mp).
Proof.
  unfold ltb, SFltb. simpl.
  change (Pos.compare_cont Eq ma mp) with (Pos.compare ma mp).
  destruct (Z.compare_spec ea ep); try discriminate; [|now left].
  destruct (Pos.compare_spec ma mp); try discriminate.
  intros _. right. split; [assumption|lia].
Qed.

Lemma pow2_lt_inv (a b : Z) : 0 <= b -> 2 ^ a < 2 ^ b -> a < b.
Proof. intros Hb H. apply (Z.pow_lt_mono_r_iff 2); lia. Qed.

(** A quotient of two positive binary64 numbers, the first below the
    second, has integer part 0. *)
Lemma div_lt_one (sa sp : bool) (ma mp : positive) (ea ep : Z) :
  Zpos ma < 2 ^ prec -> emin prec emax <= ea ->
  valid (S754_finite false mp ep) = true ->
  ltb (S754_finite false ma ea) (S754_finite false mp ep) = true ->
  int (div (S754_finite sa ma ea) (S754_finite sp mp ep)) = Ok 0.
Proof.
  intros Hma Hea Hvp Hlt.
  destruct (valid_finite_bounds _ _ _ Hvp) as [Hmp [Hep Hnorm]].
  apply ltb_finite_pos in Hlt.
  pose proof (digits2_pos_bounds ma) as [Hda_lo Hda_hi].
  pose proof (digits2_pos_bounds mp) as [Hdp_lo Hdp_hi].
  unfold div, SFdiv. rewrite SFdiv_core_binary_spec. cbn zeta.
  cbn [Zdigits2].
  set (da := Zpos (digits2_pos ma)) in *.
  set (dp := Zpos (digits2_pos mp)) in *.
  set (e' := Z.min (fexp prec emax (da + ea - (dp + ep))) (ea - ep)).
  set (s := ea - ep - e').
  assert (Hda : 1 <= da <= prec).
  { split; [unfold da; lia|].
    assert (da - 1 < prec); [|lia].
    apply pow2_lt_inv; [unfold prec; lia|]. lia. }
  assert (HX : da + ea - (dp + ep) <= 0).
  { destruct Hlt as [Hlt|[Heq Hlt]].
    - assert (emin prec emax < ep) by lia.
      specialize (Hnorm H).
      assert (prec - 1 < dp); [|lia].
      apply pow2_lt_inv; [unfold dp; lia|]. lia.
    - subst ep. assert (da - 1 < dp); [|lia].
      apply pow2_lt_inv; [unfold dp; lia|]. lia. }
  assert (He' : e' <= - prec).
  { unfold e', fexp, emin, prec, emax in *. lia. }
  assert (Hs : 0 <= s) by (unfold s, e'; lia).
  set (P := 2 ^ prec - 1).
  set (T := 2 ^ (- prec - e')).
  assert (HT : 0 < T) by (apply Z.pow_pos_nonneg; lia).
  assert (H2s : 0 < 2 ^ s) by (apply Z.pow_pos_nonneg; lia).
  assert (Hprec : 2 ^ prec = 9007199254740992) by reflexivity.
  assert (Hkey : Zpos ma * 2 ^ s <= Zpos mp * (P * T)).
  { unfold P, T. destruct Hlt as [Hlt|[Heq Hlt]].
    - assert (emin prec emax < ep) by lia. specialize (Hnorm H).
      set (dl := ep - ea) in *.
      destruct (Z.le_gt_cases prec dl) as [Hbig|Hsmall].
      + replace (- prec - e') with (s + (dl - prec)) by (unfold s, dl; lia).
        rewrite Z.pow_add_r by lia.
        assert (0 < 2 ^ (dl - prec)) by (apply Z.pow_pos_nonneg; lia).
        assert (Zpos ma <= Zpos mp * (2 ^ prec - 1) * 2 ^ (dl - prec)) by nia.
        nia.
      + replace s with ((- prec - e') + (prec - dl)) by (unfold s, dl; lia).
        rewrite Z.pow_add_r by lia.
        assert (2 ^ (prec - dl) <= 2 ^ (prec - 1))
          by (apply Z.pow_le_mono_r; unfold dl; lia).
        assert (0 < 2 ^ (prec - dl)) by (apply Z.pow_pos_nonneg; lia).
        assert (Zpos ma * 2 ^ (prec - dl) <= Zpos mp * (2 ^ prec - 1)) by nia.
        fold T. nia.
    - subst ep. replace s with (prec + (- prec - e')) by (unfold s; lia).
      rewrite Z.pow_add_r by (unfold prec in *; lia).
      fold T. rewrite Hprec in *. nia. }
  set (q := Zpos ma * 2 ^ s / Zpos mp).
  set (r := (Zpos ma * 2 ^ s) mod Zpos mp).
  assert (Hqr : Zpos ma * 2 ^ s = Zpos mp * q + r /\ 0 <= r < Zpos mp).
  { unfold q, r. split; [apply Z.div_mod; lia|apply Z.mod_pos_bound; lia]. }
  assert (Hq0 : 0 <= q) by (unfold q; apply Z.div_pos; lia).
  assert (Hqle : q <= P * T) by (unfold q; apply Z.div_le_upper_bound; lia).
  assert (Hqlt : r <> 0 -> q < P * T) by (intros; nia).
  apply binary_round_aux_lt_one.
  - exact Hq0.
  - assert (HD : Zdigits2 q + e' <= 0).
    { destruct (Z.eq_dec q 0) as [->|Hq]; [simpl; unfold prec in *; lia|].
      pose proof (Zdigits2_lower q ltac:(lia)).
      assert (Zdigits2 q - 1 < - e'); [|lia].
      apply pow2_lt_inv; [lia|].
      apply Z.le_lt_trans with (P * T); [lia|].
      unfold P, T. replace (- e') with (prec + (- prec - e')) by lia.
      rewrite (Z.pow_add_r 2 prec) by (unfold prec in *; lia). nia. }
    unfold shift_of, fexp, emin, prec, emax in *. lia.
  - fold P. fold T. exact Hqle.
  - fold P. fold T. intros Hl. apply Hqlt. now apply new_location_exact in Hl.
Qed.


Lemma leb_zero_not_negative (x : float) :
  leb zero x = true -> not_negative x /\ is_nan x = false.
Proof. destruct x as [s|[|]| |[|] m e]; simpl; try discriminate; auto. Qed.

Lemma binary_round_aux_not_negative (mx ex : Z) (lx : location) :
  0 <= mx ->
  not_negative (binary_round_aux prec emax false mx ex lx) /\
  bounded53 (binary_round_aux prec emax false mx ex lx).
Proof.
  intros Hm. destruct (binary_round_aux_sign false mx ex lx Hm) as [H Hb].
  split; [|exact Hb].
  destruct H as [->|[->|[m [e ->]]]]; exact I.
Qed.


Lemma ltb_zero_above (x : float) : ltb zero x = true -> above_zero x.
Proof. destruct x as [s|[|]| |[|] m e]; simpl; try discriminate; auto. Qed.

Lemma div_not_negative (x y : float) :
  not_negative x -> above_zero y ->
  not_negative (div x y) /\ bounded53 (div x y).
Proof.
  destruct x as [sx|sx| |sx mx ex], y as [sy|sy| |sy my ey];
    try destruct sx; try destruct sy; cbn [not_negative above_zero]; try tauto;
    intros _ _; try (split; exact I).
  unfold div, SFdiv. rewrite SFdiv_core_binary_spec. cbn zeta.
  apply binary_round_aux_not_negative.
  apply Z.div_pos; [|lia].
  apply Z.mul_nonneg_nonneg; [lia|]. apply Z.pow_nonneg. lia.
Qed.

Lemma mul_not_negative (x y : float) :
  not_negative x -> not_negative y ->
  not_negative (mul x y) /\ bounded53 (mul x y).
Proof.
  destruct x as [sx|sx| |sx mx ex], y as [sy|sy| |sy my ey];
    try destruct sx; try destruct sy; cbn [not_negative]; try tauto;
    intros _ _; try (split; exact I).
  unfold mul, SFmul. apply binary_round_aux_not_negative. lia.
Qed.

Lemma int_floor (x : float) :
  not_negative x -> is_finite x = true -> int x = Ok (Qfloor (to_Q x)).
Proof.
  destruct x as [s|s| |[|] m e]; cbn [not_negative is_finite];
    try discriminate; try tauto; intros _ _.
  unfold int, to_Q, cond_Zopp. f_equal. destruct e as [|p|p].
  - cbn [Qfloor inject_Z]. rewrite Z.div_1_r. simpl. lia.
  - cbn [Qfloor inject_Z]. rewrite Z.div_1_r.
    now rewrite Z.shiftl_mul_pow2 by lia.
  - cbn [Qfloor].
    change (Z.shiftl (Zpos m) (Zneg p)) with (Z.shiftr (Zpos m) (Zpos p)).
    rewrite Z.shiftr_div_pow2 by lia. now rewrite Pos2Z.inj_pow.
Qed.

Lemma shl_align_snd (m : positive) (e e' : Z) :
  snd (shl_align m e e') = Z.min e e'.
Proof.
  unfold shl_align. destruct (e' - e) eqn:E; cbn [snd]; lia.
Qed.

Lemma binary_round_above (m : positive) (e : Z) :
  emin prec emax <= e -> above_zero (binary_round prec emax false m e).
Proof.
  intros He. unfold binary_round.
  pose proof (shl_align_snd m e (fexp prec emax (Zpos (digits2_pos m) + e))) as Hs.
  destruct (shl_align m e (fexp prec emax (Zpos (digits2_pos m) + e)))
    as [mz ez]. cbn [snd] in Hs.
  pose proof (fexp_ge_emin (Zpos (digits2_pos m) + e)).
  destruct (binary_round_aux_nonzero false (Zpos mz) ez loc_Exact)
    as [->|[m' [e' ->]]]; try exact I; lia.
Qed.

(** Adding [1e-6] to a positive binary64 number gives a positive number
    (or plus infinity). *)
Lemma add_lit_positive (x : float) :
  valid x = true -> is_finite x = true -> ltb zero x = true ->
  leb (add x lit_1em6) zero = false.
Proof.
  intros Hv Hf Hp.
  destruct x as [s|s| |[|] m e]; try discriminate.
  destruct (valid_finite_bounds _ _ _ Hv) as [_ [He _]].
  assert (H : above_zero (add (S754_finite false m e) lit_1em6)).
  { unfold add, lit_1em6, SFadd. cbn [cond_Zopp].
    set (ez := Z.min e (-72)).
    change (Zpos (fst (shl_align m e ez)) +
            Zpos (fst (shl_align 4722366482869645 (-72) ez)))
      with (Zpos (fst (shl_align m e ez) +
                  fst (shl_align 4722366482869645 (-72) ez))).
    cbn [binary_normalize]. apply binary_round_above.
    unfold ez, emin, prec, emax in *. lia. }
  destruct (add (S754_finite false m e) lit_1em6) as [s|[|]| |[|] m' e'];
    try contradiction; reflexivity.
Qed.

End Rounding.


(** ** Sums that do not overflow *)

Section Finiteness.

Local Open Scope Z_scope.

Lemma Zdigits2_unique (x d : Z) :
  0 < x -> 2 ^ (d - 1) <= x < 2 ^ d -> Zdigits2 x = d.
Proof.
  intros Hx [Hlo Hhi].
  pose proof (Zdigits2_lower x Hx) as Hl.
  pose proof (Zdigits2_upper x ltac:(lia)) as Hu.
  pose proof (Zdigits2_nonneg x) as Hn.
  assert (0 <= d).
  { destruct (Z.lt_ge_cases d 0) as [Hneg|]; [|assumption].
    rewrite (Z.pow_neg_r 2 d) in Hhi by assumption. lia. }
  assert (Zdigits2 x - 1 < d)
    by (apply (Z.pow_lt_mono_r_iff 2); lia).
  assert (d - 1 < Zdigits2 x)
    by (apply (Z.pow_lt_mono_r_iff 2); lia).
  lia.
Qed.

Lemma valid_finite_canonical (s : bool) (m : positive) (e : Z) :
  valid (S754_finite s m e) = true ->
  fexp prec emax (Zpos (digits2_pos m) + e) = e /\ e <= emax - prec.
Proof.
  unfold valid, valid_binary, bounded, canonical_mantissa.
  intros H. apply andb_true_iff in H. destruct H as [H1 H2].
  apply Z.eqb_eq in H1. apply Z.leb_le in H2. now split.
Qed.

Lemma shl_align_fst (m : positive) (e e' : Z) :
  Zpos (fst (shl_align m e e')) = Zpos m * 2 ^ (e - Z.min e e').
Proof.
  unfold shl_align.
  destruct (e' - e) as [|k|k] eqn:Hk; cbn [fst].
  - replace (e - Z.min e e') with 0 by lia. lia.
  - replace (e - Z.min e e') with 0 by lia. lia.
  - change (Pos.iter xO m k) with (shift_pos k m).
    rewrite shift_pos_correct.
    change (Z.pow_pos 2 k) with (2 ^ Zpos k).
    replace (e - Z.min e e') with (Zpos k) by lia. lia.
Qed.

Lemma binary_round_aux_canonical (s : bool) (m : positive) (e : Z) :
  fexp prec emax (Zpos (digits2_pos m) + e) = e -> e <= emax - prec ->
  binary_round_aux prec emax s (Zpos m) e loc_Exact = S754_finite s m e.
Proof.
  intros Hc He.
  destruct (binary_round_aux_spec s (Zpos m) e loc_Exact ltac:(lia))
    as [m1 [Hm1 Heq]].
  cbn zeta in *. rewrite Heq. clear Heq.
  assert (Hk : shift_of (Zpos m) e = 0)
    by (unfold shift_of; cbn [Zdigits2]; rewrite Hc; lia).
  rewrite Hk in *. rewrite Z.div_1_r, Z.mod_1_r in Hm1.
  assert (m1 = Zpos m)
    by (destruct Hm1 as [H|[_ [H|H]]]; [exact H|congruence|congruence]).
  subst m1. replace (e + 0) with e by lia. rewrite Hk, Z.div_1_r.
  replace (e + 0) with e by lia.
  replace (e <=? emax - prec) with true by (symmetry; now apply Z.leb_le).
  reflexivity.
Qed.

(** An integer below [2^53] is a binary64 number. *)
Lemma of_Z_exact (n : Z) :
  0 < n < 2 ^ prec ->
  exists m e,
    of_Z n = S754_finite false m e /\
    Zpos m = n * 2 ^ (- e) /\ e <= 0 /\
    2 ^ (prec - 1) <= Zpos m < 2 ^ prec.
Proof.
  intros [Hpos Hlt]. destruct n as [|p|p]; try lia.
  unfold of_Z, binary_normalize, binary_round, shl_align.
  pose proof (digits2_pos_bounds p) as [Hlo Hhi].
  set (d := Zpos (digits2_pos p)) in *.
  assert (Hd : d <= prec).
  { assert (d - 1 < prec); [|lia].
    apply (Z.pow_lt_mono_r_iff 2); [lia|unfold prec; lia|lia]. }
  assert (Hf : fexp prec emax (d + 0) = d - prec)
    by (unfold fexp, emin, emax, prec in *; lia).
  rewrite Hf.
  destruct (d - prec - 0) as [|k|k] eqn:Hk; try lia.
  - exists p, 0. assert (d = prec) by lia.
    split; [|split; [simpl; lia|split; [lia|]]].
    + apply binary_round_aux_canonical; [|unfold emax, prec; lia].
      fold d. unfold fexp, emin, emax, prec in *. lia.
    + replace (prec - 1) with (d - 1) by lia. lia.
  - change (Pos.iter xO p k) with (shift_pos k p).
    exists (shift_pos k p), (d - prec).
    assert (Hs : Zpos (shift_pos k p) = Zpos p * 2 ^ Zpos k).
    { rewrite shift_pos_correct.
      change (Z.pow_pos 2 k) with (2 ^ Zpos k). lia. }
    assert (Hkd : Zpos k = prec - d) by lia.
    assert (Hb : 2 ^ (prec - 1) <= Zpos (shift_pos k p) < 2 ^ prec).
    { rewrite Hs, Hkd.
      assert (H1 : 2 ^ (prec - 1) = 2 ^ (d - 1) * 2 ^ (prec - d))
        by (rewrite <- Z.pow_add_r by lia; f_equal; lia).
      assert (H2 : 2 ^ prec = 2 ^ d * 2 ^ (prec - d))
        by (rewrite <- Z.pow_add_r by lia; f_equal; lia).
      rewrite H1, H2.
      assert (0 < 2 ^ (prec - d)) by (apply Z.pow_pos_nonneg; lia).
      split; [apply Z.mul_le_mono_nonneg_r; lia|].
      apply Z.mul_lt_mono_pos_r; lia. }
    split; [|split; [|split; [lia|exact Hb]]].
    + apply binary_round_aux_canonical; [|unfold emax, prec in *; lia].
      assert (Hdig : Zdigits2 (Zpos (shift_pos k p)) = prec)
        by (apply Zdigits2_unique; [lia|exact Hb]).
      cbn [Zdigits2] in Hdig. rewrite Hdig.
      unfold fexp, emin, emax, prec in *. lia.
    + rewrite Hs. f_equal. f_equal. lia.
Qed.

(** Rounding gives a finite number when the value is below [2^1023],
    or below [2^1024] with a mantissa that rounding up cannot carry
    to [2^53]. *)
Lemma binary_round_aux_finite (mx ex : Z) (lx : location) :
  0 < mx -> ex <= emax - prec - 1 ->
  Zdigits2 mx + ex <= emax - 1 \/
  (Zdigits2 mx + ex = emax /\
   mx / 2 ^ (Zdigits2 mx - prec) + 1 < 2 ^ prec) ->
  is_finite (binary_round_aux prec emax false mx ex lx) = true.
Proof.
  intros Hmx Hex Hcase.
  destruct (binary_round_aux_spec false mx ex lx ltac:(lia))
    as [m1 [Hm1 Heq]].
  cbn zeta in *. rewrite Heq. clear Heq.
  set (d := Zdigits2 mx) in *.
  set (k1 := shift_of mx ex) in *.
  destruct (shift_of_bounds mx ex) as [Hk1 [Hfe Hdg]].
  fold k1 in Hk1, Hfe, Hdg. fold d in Hfe, Hdg.
  assert (HK : 0 < 2 ^ k1) by (apply Z.pow_pos_nonneg; lia).
  pose proof (Zdigits2_upper mx ltac:(lia)) as Hup. fold d in Hup.
  pose proof (Zdigits2_nonneg mx) as Hdn. fold d in Hdn.
  assert (Hfloor : 0 <= mx / 2 ^ k1 < 2 ^ prec).
  { split; [apply Z.div_pos; lia|].
    apply Z.div_lt_upper_bound; [lia|].
    rewrite <- Z.pow_add_r by (unfold prec; lia).
    apply Z.lt_le_trans with (2 ^ d); [exact Hup|].
    apply Z.pow_le_mono_r; lia. }
  assert (Hm1b : 0 <= m1 <= 2 ^ prec)
    by (destruct Hm1 as [->|[-> _]]; lia).
  assert (He1 : emin prec emax <= ex + k1).
  { pose proof (fexp_ge_emin (d + ex)). lia. }
  set (e1 := ex + k1) in *.
  assert (Hdig : forall b, m1 < 2 ^ b -> 0 <= b -> Zdigits2 m1 <= b).
  { intros b Hb Hb0.
    destruct (Z.eq_dec m1 0) as [->|Hnz]; [simpl; lia|].
    pose proof (Zdigits2_lower m1 ltac:(lia)) as Hl.
    pose proof (Zdigits2_nonneg m1).
    assert (Zdigits2 m1 - 1 < b); [|lia].
    apply (Z.pow_lt_mono_r_iff 2); lia. }
  assert (Hfin : e1 + shift_of m1 e1 <= emax - prec).
  { destruct Hcase as [Hlow|[Htop Hcarry]].
    - assert (e1 <= emax - prec - 1)
        by (unfold e1, k1, shift_of, fexp; fold d;
            unfold emin, emax, prec in *; lia).
      assert (Zdigits2 m1 <= prec + 1).
      { apply Hdig; [|unfold prec; lia].
        rewrite Z.pow_add_r by (unfold prec; lia).
        change (2 ^ 1) with 2. lia. }
      unfold shift_of, fexp. unfold emin, emax, prec in *. lia.
    - assert (Hk : k1 = d - prec)
        by (unfold k1, shift_of, fexp; fold d;
            unfold emin, emax, prec in *; lia).
      rewrite <- Hk in Hcarry.
      assert (m1 < 2 ^ prec) by (destruct Hm1 as [->|[-> _]]; lia).
      assert (Zdigits2 m1 <= prec) by (apply Hdig; [assumption|unfold prec; lia]).
      unfold shift_of, fexp, e1. unfold emin, emax, prec in *. lia. }
  set (k2 := shift_of m1 e1) in *.
  assert (0 <= k2) by apply shift_of_bounds.
  assert (0 <= m1 / 2 ^ k2)
    by (apply Z.div_pos; [lia|apply Z.pow_pos_nonneg; lia]).
  destruct (m1 / 2 ^ k2) as [|m|m]; [reflexivity| |lia].
  replace (e1 + k2 <=? emax - prec) with true
    by (symmetry; now apply Z.leb_le).
  reflexivity.
Qed.

(** Adding [1e-6] to a positive binary64 number never overflows. *)
Lemma add_lit_finite (x : float) :
  valid x = true -> is_finite x = true -> ltb zero x = true ->
  is_finite (add x lit_1em6) = true.
Proof.
  intros Hv Hf Hp.
  destruct x as [s|s| |[|] m e]; try discriminate.
  destruct (valid_finite_bounds _ _ _ Hv) as [Hm [He Hnorm]].
  destruct (valid_finite_canonical _ _ _ Hv) as [_ Hemax].
  unfold prec, emax in Hm, Hemax. unfold emin, prec, emax in He, Hnorm.
  destruct (Z.eq_dec e 971) as [He971|He971].
  - (* the largest exponent *)
    subst e. destruct (Pos.eq_dec m 9007199254740991) as [->|Hmax].
    + vm_compute. reflexivity.
    + assert (Hm2 : Zpos m + 1 < 2 ^ 53) by lia.
      specialize (Hnorm ltac:(lia)).
      unfold add, lit_1em6, SFadd. cbn [cond_Zopp].
      change (Z.min 971 (-72)) with (-72).
      set (a := fst (shl_align m 971 (-72))).
      set (b := fst (shl_align 4722366482869645 (-72) (-72))).
      change (Zpos a + Zpos b) with (Zpos (a + b)).
      cbn [binary_normalize]. unfold binary_round.
      assert (Ha : Zpos a = Zpos m * 2 ^ 1043).
      { unfold a. rewrite shl_align_fst. f_equal. }
      assert (Hb : Zpos b = 4722366482869645) by reflexivity.
      assert (HS : Zpos (a + b) = Zpos m * 2 ^ 1043 + 4722366482869645)
        by (rewrite Pos2Z.inj_add, Ha, Hb; reflexivity).
      assert (HP : 2 ^ 53 <= 2 ^ 1043) by (apply Z.pow_le_mono_r; lia).
      assert (HP0 : 0 < 2 ^ 1043) by (apply Z.pow_pos_nonneg; lia).
      assert (Hdig : Zdigits2 (Zpos (a + b)) = 1096).
      { apply Zdigits2_unique; [lia|]. rewrite HS.
        replace (1096 - 1) with (52 + 1043) by lia.
        replace 1096 with (53 + 1043) at 2 by lia.
        rewrite !Z.pow_add_r by lia. nia. }
      cbn [Zdigits2] in Hdig. rewrite Hdig.
      change (fexp prec emax (1096 + -72)) with 971.
      change (shl_align (a + b) (-72) 971) with ((a + b)%positive, -72).
      apply binary_round_aux_finite; [lia|unfold emax, prec; lia|].
      right. cbn [Zdigits2]. rewrite Hdig. split; [reflexivity|].
      change (1096 - prec) with 1043. rewrite HS.
      rewrite Z.div_add_l by lia.
      rewrite Z.div_small by lia. unfold prec. lia.
  - (* below the largest exponent *)
    assert (He970 : e <= 970) by lia.
    unfold add, lit_1em6, SFadd. cbn [cond_Zopp].
    set (ez := Z.min e (-72)).
    set (a := fst (shl_align m e ez)).
    set (b := fst (shl_align 4722366482869645 (-72) ez)).
    change (Zpos a + Zpos b) with (Zpos (a + b)).
    cbn [binary_normalize]. unfold binary_round.
    assert (Ha : Zpos a = Zpos m * 2 ^ (e - ez)).
    { unfold a. rewrite shl_align_fst. f_equal. f_equal. unfold ez. lia. }
    assert (Hb : Zpos b = 4722366482869645 * 2 ^ (-72 - ez)).
    { unfold b. rewrite shl_align_fst. f_equal. f_equal. unfold ez. lia. }
    assert (Hez : ez <= -72 /\ ez <= e) by (unfold ez; lia).
    assert (HS : Zpos (a + b) < 2 ^ (1023 - ez)).
    { rewrite Pos2Z.inj_add, Ha, Hb.
      assert (H1 : 2 ^ (e - ez) <= 2 ^ (970 - ez))
        by (apply Z.pow_le_mono_r; lia).
      assert (H2 : 2 ^ (-72 - ez) * 2 ^ 53 <= 2 ^ (970 - ez)).
      { rewrite <- Z.pow_add_r by lia. apply Z.pow_le_mono_r; lia. }
      assert (H3 : 2 ^ (1023 - ez) = 2 ^ 53 * 2 ^ (970 - ez)).
      { rewrite <- Z.pow_add_r by lia. f_equal. lia. }
      assert (0 < 2 ^ (-72 - ez)) by (apply Z.pow_pos_nonneg; lia).
      assert (0 < 2 ^ (e - ez)) by (apply Z.pow_pos_nonneg; lia).
      rewrite H3. nia. }
    set (S := (a + b)%positive) in *.
    pose proof (digits2_pos_bounds S) as [HdL HdU].
    set (dS := Zpos (digits2_pos S)) in *.
    assert (HdS : dS + ez <= 1023).
    { assert (dS - 1 < 1023 - ez); [|lia].
      apply (Z.pow_lt_mono_r_iff 2); lia. }
    pose proof (shl_align_fst S ez (fexp prec emax (dS + ez))) as Hfst.
    pose proof (shl_align_snd S ez (fexp prec emax (dS + ez))) as Hsnd.
    destruct (shl_align S ez (fexp prec emax (dS + ez))) as [mz ez'].
    cbn [fst snd] in Hfst, Hsnd.
    set (g := ez - Z.min ez (fexp prec emax (dS + ez))) in *.
    assert (Hg : 0 <= g) by (unfold g; lia).
    assert (Hdz : Zdigits2 (Zpos mz) = dS + g).
    { apply Zdigits2_unique; [lia|]. rewrite Hfst.
      replace (dS + g - 1) with ((dS - 1) + g) by lia.
      rewrite !Z.pow_add_r by (unfold dS; lia).
      assert (0 < 2 ^ g) by (apply Z.pow_pos_nonneg; lia).
      split; [apply Z.mul_le_mono_nonneg_r; lia|].
      apply Z.mul_lt_mono_pos_r; lia. }
    apply binary_round_aux_finite; [lia|unfold emax, prec; lia|].
    left. rewrite Hdz. unfold emax. unfold g in *. lia.
Qed.

End Finiteness.


(** ** The size of an entry *)


Section Sizing.

Local Open Scope Z_scope.

Import Documented Reference.

Import MLStrategy.

Lemma risk_amount_not_negative (value risk_percent : float) :
  leb zero value = true -> leb zero risk_percent = true ->
  not_negative (risk_amount value risk_percent) /\
  bounded53 (risk_amount value risk_percent).
Proof.
  intros Hv Hr. unfold risk_amount.
  apply leb_zero_not_negative in Hv, Hr.
  apply mul_not_negative; [tauto|].
  apply div_not_negative; [tauto|exact I].
Qed.

Lemma truediv_above (a price : float) :
  ltb zero price = true -> truediv a price = Ok (div a price).
Proof.
  intros H. unfold truediv.
  destruct price as [s|s| |s m e]; simpl in *; try discriminate; reflexivity.
Qed.

(** C4, as the code has it.  For a positive price and a non-negative
    account value and risk percent, the size is the floor of the
    binary64 number [q] that the code computes as
    [value * (risk_percent / 100) / price], each operation rounded to
    nearest; [int] raises when [q] is infinite or NaN.  With a value of
    10000, 2 percent and a price of 100 the size is 2. *)
Theorem entry_size_floor (value risk_percent price : float) :
  ltb zero price = true ->
  leb zero value = true ->
  leb zero risk_percent = true ->
  let q := div (mul value (div risk_percent hundred)) price in
  (is_finite q = true ->
   entry_size value risk_percent price = Ok (Qfloor (to_Q q))) /\
  (is_inf q = true ->
   entry_size value risk_percent price = Raise OverflowError) /\
  (is_nan q = true ->
   entry_size value risk_percent price = Raise ValueError) /\
  (value = of_Z 10000 -> risk_percent = of_Z 2 -> price = of_Z 100 ->
   entry_size value risk_percent price = Ok 2).
Proof.
  intros Hp Hv Hr q.
  assert (Hq : not_negative q).
  { apply div_not_negative; [|now apply ltb_zero_above].
    now apply risk_amount_not_negative. }
  unfold entry_size. rewrite truediv_above by assumption. cbn [bind].
  fold (risk_amount value risk_percent). unfold risk_amount. fold q.
  repeat split.
  - intros Hf. now apply int_floor.
  - destruct q; simpl; try discriminate; reflexivity.
  - destruct q; simpl; try discriminate; reflexivity.
  - intros -> -> ->. vm_compute. reflexivity.
Qed.

(** With a value of 100, 29 percent and a price of 29 the documented
    floor is 1, but [29 / 100] and the product round down and the code
    returns 0. *)
Lemma entry_size_floor_counterexample :
  entry_size (of_Z 100) (of_Z 29) (of_Z 29) = Ok 0 /\
  documented_size (of_Z 100) (of_Z 29) (of_Z 29) = 1.
Proof. split; vm_compute; reflexivity. Qed.

(** C5, as the code has it.  For a positive price and a non-negative
    finite account value and risk percent, the size is 0 whenever the
    risk percent is 0 or the price exceeds the binary64 number
    [risk_amount] that the code computes as
    [value * (risk_percent / 100)]. *)
Theorem entry_size_zero (value risk_percent price : float) :
  valid price = true ->
  ltb zero price = true ->
  is_finite value = true ->
  leb zero value = true ->
  leb zero risk_percent = true ->
  is_zero risk_percent = true \/
  ltb (risk_amount value risk_percent) price = true ->
  entry_size value risk_percent price = Ok 0.
Proof.
  intros Hvalid Hp Hfin Hv Hr Hcase.
  unfold entry_size. rewrite truediv_above by assumption. cbn [bind].
  destruct (risk_amount_not_negative value risk_percent Hv Hr) as [Hnn Hb].
  destruct Hcase as [Hz|Hlt].
  - unfold risk_amount. destruct risk_percent as [s| | |]; try discriminate.
    destruct value as [sv|sv| |sv mv ev]; try discriminate;
      destruct price as [sp|sp| |sp mp ep]; try discriminate;
      destruct s, sv; reflexivity.
  - destruct (risk_amount value risk_percent) as [sa|[|]| |[|] ma ea];
      try contradiction;
      destruct price as [sp|[|]| |[|] mp ep]; try discriminate;
      try reflexivity.
    cbn [bounded53] in Hb. apply div_lt_one; tauto.
Qed.

(** With a value of 100 and 7 percent the budget is 7 over the
    rationals and the price 7.000000000000001 exceeds it; the code
    computes a budget of 7.000000000000001 and returns 1. *)
Lemma entry_size_zero_counterexample :
  price_exceeds_budget (of_Z 100) (of_Z 7) next_after_7 /\
  entry_size (of_Z 100) (of_Z 7) next_after_7 = Ok 1.
Proof. split; vm_compute; reflexivity. Qed.

(** Nothing in [next] keeps the risk percent non-negative: a negative
    one gives a negative size, whatever the price. *)
Example entry_size_negative_risk :
  entry_size (of_Z 1000) (of_Z (-50)) (of_Z 10) = Ok (-50).
Proof. vm_compute. reflexivity. Qed.

(** The product overflows for the largest account value and risk
    percent, and [int] raises. *)
Example entry_size_overflow :
  entry_size (SFmax_float prec emax) (SFmax_float prec emax) one
  = Raise OverflowError.
Proof. vm_compute. reflexivity. Qed.

End Sizing.

Lemma entry_size_floor_witness :
  ltb zero (of_Z 100) = true /\
  MLStrategy.entry_size (of_Z 10000) (of_Z 2) (of_Z 100) = Ok 2%Z /\
  MLStrategy.entry_size (of_Z 10000) (of_Z 2) (of_Z 100)
  = Ok (Qfloor (to_Q (div (mul (of_Z 10000) (div (of_Z 2) hundred))
                          (of_Z 100)))).
Proof.
  pose proof (entry_size_floor (of_Z 10000) (of_Z 2) (of_Z 100)
                eq_refl eq_refl eq_refl) as H.
  cbv zeta in H. destruct H as [Hfloor [_ [_ Htwo]]].
  split; [reflexivity|]. split.
  - apply Htwo; reflexivity.
  - apply Hfloor. vm_compute. reflexivity.
Defined.

Lemma entry_size_zero_witness :
  ltb (MLStrategy.risk_amount (of_Z 100) (of_Z 7)) (of_Z 8) = true /\
  MLStrategy.entry_size (of_Z 100) (of_Z 7) (of_Z 8) = Ok 0%Z.
Proof.
  split; [vm_compute; reflexivity|].
  apply (entry_size_zero (of_Z 100) (of_Z 7) (of_Z 8)).
  - vm_compute. reflexivity.
  - vm_compute. reflexivity.
  - vm_compute. reflexivity.
  - vm_compute. reflexivity.
  - vm_compute. reflexivity.
  - right. vm_compute. reflexivity.
Defined.

(** ** The four normalizations *)

Section Normalizer.

Import EnhancedDataPipeline.

Variable K : Kernels.


Lemma flatten_reshape_col {A : Type} (l : list A) :
  Py.flatten (reshape_col l) = l.
Proof.
  unfold Py.flatten, reshape_col.
  induction l as [|a l IH]; simpl; [reflexivity|now rewrite IH].
Qed.

Lemma flatten_map_reshape_col {A B : Type} (f : A -> B) (l : list A) :
  Py.flatten (map (map f) (reshape_col l)) = map f l.
Proof.
  unfold Py.flatten, reshape_col.
  induction l as [|a l IH]; simpl; [reflexivity|now rewrite IH].
Qed.

Lemma check_array_ok (data : list float) :
  data <> [] ->
  Forall (fun x => is_finite x = true) data ->
  check_array (reshape_col data) = Ok tt.
Proof.
  intros Hne Hfin. unfold check_array.
  destruct data as [|x rest]; [congruence|].
  cbn [reshape_col map]. fold (reshape_col rest).
  change ([x] :: reshape_col rest) with (reshape_col (x :: rest)).
  rewrite flatten_reshape_col.
  replace (existsb is_inf (x :: rest)) with false; [reflexivity|].
  symmetry. apply not_true_is_false. intros H.
  apply existsb_exists in H. destruct H as [y [Hy Hinf]].
  rewrite Forall_forall in Hfin. specialize (Hfin y Hy).
  destruct y; discriminate.
Qed.

Lemma zscore_total (data : list float) :
  data <> [] ->
  Forall (fun x => is_finite x = true) data ->
  _evaluate_normalization K data "Z-Score"
  = Ok (map (pointwise K "Z-Score" data) data).
Proof.
  intros Hne Hfin. unfold _evaluate_normalization, StandardScaler_fit_transform.
  cbn [String.eqb Ascii.eqb Bool.eqb]. 
  rewrite check_array_ok by assumption. cbn [bind flatten].
  rewrite flatten_reshape_col, flatten_map_reshape_col.
  reflexivity.
Qed.

(** A product of two numbers that are finite is not NaN. *)
Lemma mul_finite_number (x y : float) :
  is_finite x = true -> is_finite y = true -> is_nan (mul x y) = false.
Proof.
  destruct x as [sx|sx| |sx mx ex], y as [sy|sy| |sy my ey];
    try discriminate; intros _ _; try reflexivity.
  unfold mul, SFmul.
  destruct (binary_round_aux_sign (xorb sx sy) (Zpos (mx * my)) (ex + ey)
              loc_Exact ltac:(lia)) as [[->|[->|[m [e ->]]]] _];
    reflexivity.
Qed.

(** A square is zero, positive or plus infinity. *)
Lemma square_not_negative (t : float) :
  is_nan t = false ->
  is_nan (mul t t) = false /\ not_negative (mul t t).
Proof.
  destruct t as [s|s| |s m e]; try discriminate; intros _.
  - now destruct s.
  - now destruct s.
  - unfold mul, SFmul. replace (xorb s s) with false by now destruct s.
    destruct (binary_round_aux_sign false (Zpos (m * m)) (e + e)
                loc_Exact ltac:(lia)) as [[->|[->|[m' [e' ->]]]] _];
      now split.
Qed.

(** A variance computed as zero passes scikit-learn's test of a
    constant feature. *)
Lemma constant_feature_zero_variance (var_ mean_ : float) (n : nat) :
  is_zero var_ = true -> is_finite mean_ = true ->
  (Z.of_nat n < 2 ^ 53)%Z ->
  _is_constant_feature var_ mean_ n = true.
Proof.
  intros Hvar Hmean Hn. unfold _is_constant_feature.
  set (N := of_Z (Z.of_nat n)).
  assert (HN : N = zero \/
               exists m e, N = S754_finite false m e /\
                           (Zpos m < 2 ^ 53)%Z /\ (e <= 0)%Z).
  { unfold N. destruct (Z.eq_dec (Z.of_nat n) 0) as [->|Hnz]; [now left|].
    right. destruct (of_Z_exact (Z.of_nat n)) as [m [e [Hof [_ [He [_ Hm]]]]]];
      [unfold prec; lia|].
    exists m, e. unfold prec in Hm. auto. }
  assert (HNf : is_finite N = true)
    by (destruct HN as [->|[m [e [-> _]]]]; reflexivity).
  assert (Ht : is_nan (mul (mul N mean_) eps) = false).
  { destruct (mul N mean_) as [s|s| |s m e] eqn:Hp.
    - reflexivity.
    - reflexivity.
    - pose proof (mul_finite_number _ _ HNf Hmean) as Hx.
      rewrite Hp in Hx. discriminate.
    - unfold mul, eps, SFmul.
      destruct (binary_round_aux_sign (xorb s false)
                  (Zpos (m * 4503599627370496)) (e + -104)
                  loc_Exact ltac:(lia)) as [[->|[->|[m' [e' ->]]]] _];
        reflexivity. }
  destruct (square_not_negative _ Ht) as [Hsq Hnn].
  set (B := mul (mul (mul N mean_) eps) (mul (mul N mean_) eps)) in *.
  assert (HA : is_finite (mul N eps) = true).
  { destruct HN as [->|[m [e [-> [Hm He]]]]]; [reflexivity|].
    unfold mul, eps, SFmul. cbn [xorb].
    apply binary_round_aux_finite; [lia|unfold emax, prec; lia|].
    left.
    assert (Hd : (Zdigits2 (Zpos (m * 4503599627370496)) <= 53 + 52)%Z).
    { pose proof (Zdigits2_lower (Zpos (m * 4503599627370496))
                    ltac:(lia)) as Hl.
      pose proof (Zdigits2_nonneg (Zpos (m * 4503599627370496))).
      assert ((Zdigits2 (Zpos (m * 4503599627370496)) - 1 < 53 + 52)%Z);
        [|lia].
      apply (Z.pow_lt_mono_r_iff 2); [lia|lia|].
      pose proof (Pos2Z.inj_mul m 4503599627370496) as Hmul.
      change (2 ^ (53 + 52))%Z with (2 ^ 53 * 4503599627370496)%Z.
      lia. }
    unfold emax. lia. }
  destruct var_ as [sv|sv| |sv mv ev]; try discriminate.
  destruct (mul N eps) as [sa|sa| |sa ma ea]; try discriminate;
    cbn [mul SFmul];
    destruct B as [sb|[|]| |[|] mb eb]; try discriminate;
      try contradiction;
      try (destruct sv, sa; reflexivity);
      try (destruct sv, sa, sb; reflexivity).
Qed.

Lemma n_samples_seen_numbers (data : list float) :
  Forall (fun x => is_nan x = false) data ->
  n_samples_seen data = length data.
Proof.
  unfold n_samples_seen. induction 1 as [|x rest Hx _ IH]; [reflexivity|].
  cbn [filter]. rewrite Hx. cbn [negb length]. now rewrite IH.
Qed.

(** C8, as the code has it.  On a series whose closes are all equal
    Z-Score normalization does not fail: it returns a series of the
    length of the input.  Whenever scikit-learn's test of a constant
    feature holds of the mean and the variance it has computed, the
    scale is replaced by 1 and each value is the close minus the mean;
    the test holds whenever the computed variance is zero and the mean
    is finite (for fewer than [2^53] closes). *)
Theorem zscore_constant_series (data : list float) (c : float) :
  data <> [] ->
  is_finite c = true ->
  Forall (fun x => x = c) data ->
  exists normalized,
    _evaluate_normalization K data "Z-Score" = Ok normalized /\
    length normalized = length data /\
    (_is_constant_feature (np_nanvar K data) (np_nanmean K data)
       (length data) = true ->
     normalized = map (fun x => div (sub x (np_nanmean K data)) one) data) /\
    (is_zero (np_nanvar K data) = true ->
     is_finite (np_nanmean K data) = true ->
     (Z.of_nat (length data) < 2 ^ 53)%Z ->
     _is_constant_feature (np_nanvar K data) (np_nanmean K data)
       (length data) = true).
Proof.
  intros Hne Hc Hall.
  assert (Hfin : Forall (fun x => is_finite x = true) data).
  { eapply Forall_impl; [|exact Hall]. simpl. now intros x ->. }
  assert (Hnum : n_samples_seen data = length data).
  { apply n_samples_seen_numbers.
    eapply Forall_impl; [|exact Hfin]. simpl. intros x Hx.
    now destruct x. }
  exists (map (pointwise K "Z-Score" data) data).
  split; [now apply zscore_total|]. split; [apply length_map|]. split.
  - intros Hz. apply map_ext. intros x.
    unfold pointwise, handle_zeros_in_scale.
    cbn [String.eqb Ascii.eqb Bool.eqb]. now rewrite Hnum, Hz.
  - apply constant_feature_zero_variance.
Qed.

Lemma shifted_constant_spec (data : list float) (x0 : float)
  (rest : list float) :
  map (fun x => add x lit_1em6) data = x0 :: rest ->
  forallb (fun v => eqb v x0) (map (fun x => add x lit_1em6) data)
  = shifted_constant data.
Proof.
  intros Hs.
  assert (Hmap : forall l,
            forallb (fun v => eqb v x0) (map (fun x => add x lit_1em6) l)
            = forallb (fun x => eqb (add x lit_1em6) x0) l).
  { induction l as [|a l IH]; [reflexivity|].
    cbn [map forallb]. now rewrite IH. }
  rewrite Hmap. unfold shifted_constant. now rewrite Hs.
Qed.

Lemma boxcox_checks (data : list float) :
  Forall (fun x => valid x = true /\ is_finite x = true /\
                   ltb zero x = true) data ->
  existsb (fun v => leb v zero) (map (fun x => add x lit_1em6) data) = false
  /\ forallb is_finite (map (fun x => add x lit_1em6) data) = true.
Proof.
  intros Hdata. split.
  - apply not_true_is_false. intros Hex.
    apply existsb_exists in Hex. destruct Hex as [v [Hv Hle]].
    apply in_map_iff in Hv. destruct Hv as [x [Hv Hx]]. subst v.
    rewrite Forall_forall in Hdata. destruct (Hdata x Hx) as [H1 [H2 H3]].
    rewrite add_lit_positive in Hle by assumption. discriminate.
  - apply forallb_forall. intros v Hv.
    apply in_map_iff in Hv. destruct Hv as [x [Hv Hx]]. subst v.
    rewrite Forall_forall in Hdata. destruct (Hdata x Hx) as [H1 [H2 H3]].
    now apply add_lit_finite.
Qed.

(** C9, as the code has it.  On a series that is not empty and whose
    closes are positive binary64 numbers, Z-Score, Min-Max and Log
    return a series of the length of the input, whose value of rank [i]
    is a function of the close of rank [i] (and of the statistics of the
    whole series): nothing is dropped or reordered.  So does Box-Cox,
    unless the closes all coincide once 1e-6 is added: then it raises
    [ValueError]. *)
Theorem normalize_shape (data : list float) (method : string) :
  In method methods ->
  data <> [] ->
  Forall (fun x => valid x = true /\ is_finite x = true /\
                   ltb zero x = true) data ->
  if (method =? "Box-Cox")%string && shifted_constant data
  then _evaluate_normalization K data method = Raise ValueError
  else
    exists normalized,
      _evaluate_normalization K data method = Ok normalized /\
      normalized = map (pointwise K method data) data /\
      length normalized = length data.
Proof.
  intros Hm Hne Hdata.
  assert (Hfin : Forall (fun x => is_finite x = true) data).
  { eapply Forall_impl; [|exact Hdata]. simpl. tauto. }
  unfold methods in Hm. simpl in Hm.
  destruct Hm as [Hm|[Hm|[Hm|[Hm|[]]]]]; subst method;
    cbn [String.eqb Ascii.eqb Bool.eqb andb].
  - exists (map (pointwise K "Z-Score" data) data).
    split; [|split; [reflexivity|apply length_map]].
    now apply zscore_total.
  - exists (map (pointwise K "Min-Max" data) data).
    split; [|split; [reflexivity|apply length_map]].
    unfold _evaluate_normalization, MinMaxScaler_fit_transform.
    cbn [String.eqb Ascii.eqb Bool.eqb].
    rewrite check_array_ok by assumption. cbn [bind flatten].
    rewrite flatten_reshape_col, flatten_map_reshape_col.
    reflexivity.
  - unfold _evaluate_normalization, stats_boxcox.
    cbn [String.eqb Ascii.eqb Bool.eqb].
    rewrite flatten_reshape_col.
    destruct (map (fun x => add x lit_1em6) data) as [|x0 shifted] eqn:Hs.
    { destruct data; [congruence|discriminate]. }
    rewrite <- Hs. rewrite (shifted_constant_spec data x0 shifted Hs).
    destruct (shifted_constant data); [reflexivity|].
    destruct (boxcox_checks data Hdata) as [Hpos Hfinite].
    rewrite Hpos, Hfinite. cbn [negb bind fst flatten].
    exists (map (pointwise K "Box-Cox" data) data).
    split; [|split; [reflexivity|apply length_map]].
    rewrite map_map. reflexivity.
  - exists (map (pointwise K "Log" data) data).
    split; [|split; [reflexivity|apply length_map]].
    unfold _evaluate_normalization.
    cbn [String.eqb Ascii.eqb Bool.eqb bind flatten].
    rewrite flatten_map_reshape_col. reflexivity.
Qed.

End Normalizer.

(** On three closes of 5 Z-Score normalization returns three zeros and no
    error. *)
Lemma zscore_constant_counterexample :
  EnhancedDataPipeline._evaluate_normalization Reference.kernels
    [of_Z 5; of_Z 5; of_Z 5] "Z-Score"
  = Ok [zero; zero; zero].
Proof. vm_compute. reflexivity. Qed.

(** Three closes of 0.1: their sum is not three times 0.1, the mean is
    the next number above 0.1 and the variance is not zero, yet the
    feature counts as constant, and every close is sent to 0.1 minus the
    mean, about -1.39e-17. *)
Example zscore_constant_tenths :
  let tenth := div one (of_Z 10) in
  EnhancedDataPipeline._evaluate_normalization Reference.kernels
    [tenth; tenth; tenth] "Z-Score"
  = Ok (map (fun x => sub x (Reference.nanmean [tenth; tenth; tenth]))
          [tenth; tenth; tenth]) /\
  is_zero (Reference.nanvar [tenth; tenth; tenth]) = false /\
  sub tenth (Reference.nanmean [tenth; tenth; tenth])
  = S754_finite true 4503599627370496 (-108).
Proof. repeat split; vm_compute; reflexivity. Qed.

(** Three closes that differ by one and two units in the last place: the
    range is below ten epsilons, the scale is 1, and Min-Max only
    subtracts the smallest close. *)
Example minmax_nearly_constant :
  let e := EnhancedDataPipeline.eps in
  EnhancedDataPipeline._evaluate_normalization Reference.kernels
    [one; add one e; add one (add e e)] "Min-Max"
  = Ok [zero; e; add e e].
Proof. vm_compute. reflexivity. Qed.

Lemma zscore_constant_series_witness :
  exists normalized,
    EnhancedDataPipeline._evaluate_normalization Reference.kernels
      [of_Z 5; of_Z 5; of_Z 5] "Z-Score" = Ok normalized /\
    length normalized = 3%nat /\
    normalized
    = map (fun x => div (sub x (Reference.nanmean [of_Z 5; of_Z 5; of_Z 5]))
                        one)
          [of_Z 5; of_Z 5; of_Z 5].
Proof.
  destruct (zscore_constant_series Reference.kernels
              [of_Z 5; of_Z 5; of_Z 5] (of_Z 5))
    as [normalized [Hn [Hlen [Hscale Htest]]]].
  - discriminate.
  - reflexivity.
  - repeat constructor.
  - exists normalized. split; [exact Hn|]. split; [exact Hlen|].
    apply Hscale. apply Htest.
    + reflexivity.
    + reflexivity.
    + reflexivity.
Defined.

Lemma normalize_shape_witness :
  exists normalized,
    EnhancedDataPipeline._evaluate_normalization Reference.kernels
      (Reference.ramp 3) "Box-Cox" = Ok normalized /\
    normalized
    = map (EnhancedDataPipeline.pointwise Reference.kernels "Box-Cox"
             (Reference.ramp 3)) (Reference.ramp 3) /\
    length normalized = length (Reference.ramp 3).
Proof.
  apply (normalize_shape Reference.kernels (Reference.ramp 3) "Box-Cox").
  - right. right. left. reflexivity.
  - discriminate.
  - repeat constructor.
Defined.

(** Three closes of 5 are positive binary64 numbers, and Box-Cox returns
    no series for them: scipy refuses data that are constant. *)
Lemma normalize_shape_counterexample :
  Forall (fun x => valid x = true /\ is_finite x = true /\
                   ltb zero x = true) [of_Z 5; of_Z 5; of_Z 5] /\
  EnhancedDataPipeline._evaluate_normalization Reference.kernels
    [of_Z 5; of_Z 5; of_Z 5] "Box-Cox"
  = Raise ValueError.
Proof. split; [repeat constructor|vm_compute; reflexivity]. Qed.


(* ================================================================= *)
(** * Further properties *)


(** ** The warm-up *)

Section WarmUp.

Import MLStrategy.

Variable p : params.

Lemma run_warming feed : forall seen st,
  (length seen + length feed < lookback p)%nat ->
  run p seen st feed = Ok (st, repeat None (length feed)).
Proof.
  induction feed as [|b rest IH]; intros seen st Hlen; [reflexivity|].
  cbn [run length repeat]. unfold next at 1.
  replace (length (data_close (view_of seen b)) <? lookback p)%nat with true
    by (symmetry; apply Nat.ltb_lt; cbn [view_of data_close];
        rewrite length_app; simpl in *; lia).
  cbn [bind fst snd]. rewrite IH; [reflexivity|].
  rewrite length_app. simpl in *. lia.
Qed.

(** A feed shorter than [lookback] is run to its end without a call to
    the model: whatever the model, even one that always raises, the run
    ends normally, with no prediction stored and no order. *)
Theorem warm_up_never_fails feed :
  (length feed < lookback p)%nat ->
  run p [] init feed = Ok (init, repeat None (length feed)).
Proof.
  intros Hlen. apply run_warming. simpl. lia.
Qed.

End WarmUp.

Lemma warm_up_never_fails_witness :
  MLStrategy.run Samples.refusing_params [] MLStrategy.init
    (map Reference.flat_bar [1; 2]%Z)
  = Ok (MLStrategy.init, [None; None]).
Proof.
  apply (warm_up_never_fails Samples.refusing_params
           (map Reference.flat_bar [1; 2]%Z)).
  simpl. lia.
Defined.

(** ** The strategy over a whole feed *)

Section RunSteps.

Import MLStrategy.

Variable p : params.

Lemma run_app feed1 : forall seen st feed2,
  run p seen st (feed1 ++ feed2)
  = (r1 <- run p seen st feed1 ;;
     r2 <- run p (seen ++ map bar_close feed1) (fst r1) feed2 ;;
     Ok (fst r2, snd r1 ++ snd r2)).
Proof.
  induction feed1 as [|b rest IH]; intros seen st feed2.
  - cbn [app run bind map fst snd]. rewrite app_nil_r.
    destruct (run p seen st feed2) as [[st' os]|e]; reflexivity.
  - cbn [app run map].
    destruct (next p st (view_of seen b)) as [[st1 o]|e]; [|reflexivity].
    cbn [bind fst snd]. rewrite IH.
    replace ((seen ++ [bar_close b]) ++ map bar_close rest)
      with (seen ++ bar_close b :: map bar_close rest)
      by (now rewrite <- app_assoc).
    destruct (run p (seen ++ [bar_close b]) st1 rest) as [[st2 os2]|e];
      [|reflexivity].
    cbn [bind fst snd].
    destruct (run p (seen ++ bar_close b :: map bar_close rest) st2 feed2)
      as [[st3 os3]|e]; reflexivity.
Qed.

Lemma firstn_length_app {A : Type} (l1 l2 : list A) :
  firstn (length l1) (l1 ++ l2) = l1.
Proof.
  rewrite firstn_app, Nat.sub_diag, firstn_all, firstn_O. apply app_nil_r.
Qed.

(** The call made for the bar of rank [k] of a run that ends normally. *)
Lemma run_step feed st os k b :
  run p [] init feed = Ok (st, os) ->
  nth_error feed k = Some b ->
  exists st_k st_k1 o later,
    run p [] init (firstn k feed) = Ok (st_k, firstn k os) /\
    length (predicted_prices st_k) = full_bars p k /\
    next p st_k (view_of (map bar_close (firstn k feed)) b) = Ok (st_k1, o) /\
    nth_error os k = Some o /\
    predicted_prices st = predicted_prices st_k1 ++ later.
Proof.
  intros Hrun Hb.
  assert (Hk : (k < length feed)%nat) by (apply nth_error_Some; congruence).
  destruct (nth_error_split feed k Hb) as [f1 [f2 [Hfeed Hlen]]].
  subst feed. rewrite run_app in Hrun.
  apply bind_ok in Hrun. destruct Hrun as [[st_k os_k] [H1 Hrun]].
  cbn [fst snd] in Hrun.
  apply bind_ok in Hrun. destruct Hrun as [[st2 os2] [H2 Hrun]].
  inversion Hrun; subst st os. clear Hrun.
  cbn [run app] in H2. simpl in H2.
  apply bind_ok in H2. destruct H2 as [[st_k1 o] [Hn H2]].
  apply bind_ok in H2. destruct H2 as [[st3 os3] [H3 H2]].
  cbn [fst snd] in *. inversion H2; subst st2 os2. clear H2.
  destruct (run_history p f2 _ _ _ _ H3) as [_ [later [Hlater _]]].
  destruct (run_history p f1 _ _ _ _ H1) as [Hl1 [added [Hadd Hal]]].
  exists st_k, st_k1, o, later. subst k.
  rewrite firstn_length_app. rewrite <- Hl1, firstn_length_app.
  split; [exact H1|]. split.
  { rewrite Hadd, length_app, Hal. unfold full_bars. simpl. lia. }
  split; [exact Hn|]. split; [|exact Hlater].
  rewrite nth_error_app2 by lia. rewrite Nat.sub_diag. reflexivity.
Qed.

Lemma next_first_prediction st v st' o :
  next p st v = Ok (st', o) ->
  predicted_prices st = [] ->
  o = None.
Proof.
  intros H Hst. unfold next in H.
  destruct (length (data_close v) <? lookback p)%nat; [now inversion H|].
  apply bind_ok in H. destruct H as [preds [_ H]].
  apply bind_ok in H. destruct H as [x [_ H]].
  cbn [predicted_prices] in H. rewrite Hst in H. simpl in H.
  now inversion H.
Qed.

(** No order is placed before the second prediction: the bars of rank
    below [max lookback 1] of a run, counted from 0, end without one,
    whatever the model answers. *)
Theorem no_order_before_second_prediction feed st os k :
  run p [] init feed = Ok (st, os) ->
  (k < Nat.max (lookback p) 1)%nat ->
  (k < length feed)%nat ->
  nth_error os k = Some None.
Proof.
  intros Hrun Hk Hlen.
  destruct (nth_error feed k) as [b|] eqn:Hb;
    [|apply nth_error_None in Hb; lia].
  destruct (run_step feed st os k b Hrun Hb)
    as [st_k [st_k1 [o [later [_ [Hpp [Hn [Ho _]]]]]]]].
  rewrite Ho. f_equal.
  apply (next_first_prediction _ _ _ _ Hn).
  apply length_zero_iff_nil. rewrite Hpp. unfold full_bars. lia.
Qed.

(** The prediction of rank [i] in [predicted_prices] is what the model
    answered on one window of [lookback] closes, the last ones among the
    first [max lookback 1 + i] closes of the feed: no later close is
    shown to the model. *)
Theorem history_is_model_on_windows feed st os i x :
  run p [] init feed = Ok (st, os) ->
  nth_error (predicted_prices st) i = Some x ->
  exists preds,
    model p [get (lookback p)
               (firstn (Nat.max (lookback p) 1 + i) (map bar_close feed))]
    = Ok preds /\
    index0 preds = Ok x /\
    length (get (lookback p)
              (firstn (Nat.max (lookback p) 1 + i) (map bar_close feed)))
    = lookback p.
Proof.
  intros Hrun Hx.
  assert (Hi : (i < length (predicted_prices st))%nat)
    by (apply nth_error_Some; congruence).
  destruct (run_history p feed _ _ _ _ Hrun) as [_ [added [Hadd Hal]]].
  simpl in Hadd. subst added.
  unfold full_bars in Hal. simpl in Hal.
  set (k := (Nat.max (lookback p) 1 + i - 1)%nat).
  assert (Hk : (k < length feed)%nat) by (unfold k; lia).
  destruct (nth_error feed k) as [b|] eqn:Hb;
    [|apply nth_error_None in Hb; lia].
  destruct (run_step feed st os k b Hrun Hb)
    as [st_k [st_k1 [o [later [_ [Hpp [Hn [_ Hfin]]]]]]]].
  assert (Hfull : (lookback p
                   <= length (data_close
                                (view_of (map bar_close (firstn k feed)) b)))%nat).
  { cbn [view_of data_close]. rewrite length_app, length_map, length_firstn.
    simpl. unfold k. lia. }
  destruct (next_forecasting p _ _ _ _ Hfull Hn)
    as [preds [y [Hm [Hy Happ]]]].
  assert (Hwin : data_close (view_of (map bar_close (firstn k feed)) b)
                 = firstn (Nat.max (lookback p) 1 + i) (map bar_close feed)).
  { cbn [view_of data_close].
    replace (Nat.max (lookback p) 1 + i)%nat with (S k) by (unfold k; lia).
    rewrite <- !firstn_map.
    destruct (nth_error_split feed k Hb) as [f1 [f2 [Hfeed Hl]]].
    subst feed. rewrite map_app. cbn [map].
    rewrite firstn_app, length_map, Hl, Nat.sub_diag, firstn_O, app_nil_r.
    rewrite firstn_all2 by (rewrite length_map; lia).
    rewrite firstn_app, length_map, Hl.
    replace (S k - k)%nat with 1%nat by lia.
    rewrite firstn_all2 by (rewrite length_map; lia).
    reflexivity. }
  rewrite Hwin in Hm, Hfull.
  exists preds. split; [exact Hm|]. split.
  - assert (x = y); [|now subst].
    rewrite Hfin, Happ in Hx.
    unfold full_bars in Hpp.
    assert (Hlk : length (predicted_prices st_k) = i) by (unfold k in Hpp; lia).
    rewrite <- app_assoc in Hx. rewrite nth_error_app2 in Hx by lia.
    rewrite Hlk, Nat.sub_diag in Hx. simpl in Hx. congruence.
  - unfold get. rewrite length_skipn. lia.
Qed.

(** An exception of [model.predict] is not handled by [next]: it ends the
    run at the bar whose window the model refused, and the bars after it
    are not processed. *)
Theorem model_failure_aborts_run feed1 b feed2 st1 os1 e :
  run p [] init feed1 = Ok (st1, os1) ->
  (lookback p <= length feed1 + 1)%nat ->
  model p [get (lookback p) (map bar_close (feed1 ++ [b]))] = Raise e ->
  run p [] init (feed1 ++ b :: feed2) = Raise e.
Proof.
  intros H1 Hfull Hm. rewrite run_app, H1. cbn [bind fst snd app run].
  unfold next.
  replace (length (data_close (view_of (map bar_close feed1) b))
           <? lookback p)%nat with false
    by (symmetry; apply Nat.ltb_ge; cbn [view_of data_close];
        rewrite length_app, length_map; simpl; lia).
  cbn [view_of data_close]. rewrite map_app in Hm. cbn [map] in Hm.
  rewrite Hm. reflexivity.
Qed.

End RunSteps.

Lemma no_order_before_second_prediction_witness :
  MLStrategy.run Reference.strategy_params [] MLStrategy.init
    (map Reference.flat_bar [1; 2; 3]%Z)
  = Ok ({| MLStrategy.predicted_prices := [of_Z 2; of_Z 3] |},
        [None; None; Some (MLStrategy.buy 66)]) /\
  nth_error [None; None; Some (MLStrategy.buy 66)] 1 = Some None.
Proof.
  split; [vm_compute; reflexivity|].
  apply (no_order_before_second_prediction Reference.strategy_params
           (map Reference.flat_bar [1; 2; 3]%Z)
           {| MLStrategy.predicted_prices := [of_Z 2; of_Z 3] |}
           [None; None; Some (MLStrategy.buy 66)] 1).
  - vm_compute. reflexivity.
  - simpl. lia.
  - simpl. lia.
Defined.

Lemma history_is_model_on_windows_witness :
  exists preds,
    Reference.last_close
      [MLStrategy.get 2
         (firstn (Nat.max 2 1 + 1)
            (map MLStrategy.bar_close (map Reference.flat_bar [1; 2; 3]%Z)))]
    = Ok preds /\
    index0 preds = Ok (of_Z 3) /\
    length (MLStrategy.get 2
              (firstn (Nat.max 2 1 + 1)
                 (map MLStrategy.bar_close
                    (map Reference.flat_bar [1; 2; 3]%Z)))) = 2%nat.
Proof.
  apply (history_is_model_on_windows Reference.strategy_params
           (map Reference.flat_bar [1; 2; 3]%Z)
           {| MLStrategy.predicted_prices := [of_Z 2; of_Z 3] |}
           [None; None; Some (MLStrategy.buy 66)] 1 (of_Z 3)).
  - vm_compute. reflexivity.
  - reflexivity.
Defined.

Lemma model_failure_aborts_run_witness :
  MLStrategy.run Samples.checking_params [] MLStrategy.init
    ([Reference.flat_bar 1] ++ Samples.nan_bar :: [Reference.flat_bar 3])
  = Raise ValueError.
Proof.
  apply (model_failure_aborts_run Samples.checking_params
           [Reference.flat_bar 1] Samples.nan_bar [Reference.flat_bar 3]
           MLStrategy.init [None] ValueError).
  - vm_compute. reflexivity.
  - simpl. lia.
  - vm_compute. reflexivity.
Defined.

(** ** Entries *)

Section EntryEdges.

Import MLStrategy.

Variable p : params.

(** An entry signal on a bar whose close is zero ends [next] with
    [ZeroDivisionError], the history already extended by the
    prediction. *)
Theorem zero_price_entry_raises st v preds prediction earlier prev_pred price :
  (lookback p <= length (data_close v))%nat ->
  model p [get (lookback p) (data_close v)] = Ok preds ->
  index0 preds = Ok prediction ->
  predicted_prices st = earlier ++ [prev_pred] ->
  ltb prev_pred prediction = true ->
  position v = false ->
  index_neg 1 (data_close v) = Ok price ->
  is_zero price = true ->
  next p st v = Raise ZeroDivisionError.
Proof.
  intros Hfull Hm Hi Hst Hup Hpos Hprice Hz. unfold next.
  replace (length (data_close v) <? lookback p)%nat with false
    by (symmetry; apply Nat.ltb_ge; lia).
  rewrite Hm. cbn [bind]. rewrite Hi. cbn [bind predicted_prices].
  rewrite Hst.
  replace (length ((earlier ++ [prev_pred]) ++ [prediction]) <? 2)%nat
    with false
    by (symmetry; apply Nat.ltb_ge; rewrite !length_app; simpl; lia).
  rewrite Hprice. cbn [bind].
  rewrite index_neg_2_snoc, index_neg_last. cbn [bind].
  rewrite Hup, Hpos. cbn [andb negb].
  unfold entry_size, truediv. rewrite Hz. reflexivity.
Qed.

Lemma int_not_negative (x : float) (n : Z) :
  not_negative x -> int x = Ok n -> (0 <= n)%Z.
Proof.
  destruct x as [s|s| |[|] m e]; cbn [not_negative int cond_Zopp];
    try tauto; try discriminate; intros _ H; inversion H; subst.
  - lia.
  - apply Z.shiftl_nonneg. lia.
Qed.

(** With an account value and a risk percent that are not negative and a
    positive close, the size passed to [buy] is never negative. *)
Theorem entry_size_never_negative (value risk_percent price : float) (n : Z) :
  leb zero value = true ->
  leb zero risk_percent = true ->
  ltb zero price = true ->
  entry_size value risk_percent price = Ok n ->
  (0 <= n)%Z.
Proof.
  intros Hv Hr Hp H. unfold entry_size in H.
  rewrite truediv_above in H by assumption. cbn [bind] in H.
  apply (int_not_negative _ _ (proj1 (div_not_negative _ _
           (proj1 (risk_amount_not_negative _ _ Hv Hr))
           (ltb_zero_above _ Hp))) H).
Qed.

End EntryEdges.

Lemma zero_price_entry_raises_witness :
  MLStrategy.next Reference.strategy_params Samples.low_state
    Samples.zero_close_view
  = Raise ZeroDivisionError.
Proof.
  apply (zero_price_entry_raises Reference.strategy_params Samples.low_state
           Samples.zero_close_view [zero] zero [] (of_Z (-1)) zero).
  - simpl. lia.
  - vm_compute. reflexivity.
  - reflexivity.
  - reflexivity.
  - vm_compute. reflexivity.
  - reflexivity.
  - reflexivity.
  - reflexivity.
Defined.

Lemma entry_size_never_negative_witness :
  MLStrategy.entry_size (of_Z 10000) (of_Z 2) (of_Z 3) = Ok 66%Z /\
  (0 <= 66)%Z.
Proof.
  split; [vm_compute; reflexivity|].
  apply (entry_size_never_negative (of_Z 10000) (of_Z 2) (of_Z 3) 66).
  - vm_compute. reflexivity.
  - vm_compute. reflexivity.
  - vm_compute. reflexivity.
  - vm_compute. reflexivity.
Defined.


(** ** The normalizations on any input *)

Section NormalizerEdges.

Import EnhancedDataPipeline.

Variable K : Kernels.

Lemma check_array_reshape (data : list float) :
  check_array (reshape_col data)
  = match data with
    | [] => Raise ValueError
    | _ => if existsb is_inf data then Raise ValueError else Ok tt
    end.
Proof.
  destruct data as [|x rest]; [reflexivity|].
  unfold check_array. rewrite flatten_reshape_col. reflexivity.
Qed.

Lemma scaler_branch (data : list float) (method : string) :
  (method =? "Box-Cox")%string = false ->
  (method =? "Log")%string = false ->
  _evaluate_normalization K data method
  = (_ <- check_array (reshape_col data) ;;
     Ok (map (pointwise K method data) data)).
Proof.
  intros Hb Hl. unfold _evaluate_normalization, pointwise.
  rewrite Hb, Hl.
  destruct (method =? "Z-Score")%string.
  - unfold StandardScaler_fit_transform.
    destruct (check_array (reshape_col data)); [|reflexivity].
    cbn [bind flatten].
    now rewrite flatten_reshape_col, flatten_map_reshape_col.
  - unfold MinMaxScaler_fit_transform.
    destruct (check_array (reshape_col data)); [|reflexivity].
    cbn [bind flatten].
    now rewrite flatten_reshape_col, flatten_map_reshape_col.
Qed.

(** Whatever the method name and the closes, a series that is returned
    is the pointwise image of the input. *)
Lemma normalization_pointwise (data : list float) (method : string)
  (normalized : list float) :
  _evaluate_normalization K data method = Ok normalized ->
  normalized = map (pointwise K method data) data /\
  length normalized = length data.
Proof.
  intros H.
  assert (Hn : normalized = map (pointwise K method data) data);
    [|split; [exact Hn|rewrite Hn; apply length_map]].
  destruct (method =? "Box-Cox")%string eqn:Hb.
  - unfold _evaluate_normalization, pointwise in *. rewrite Hb in *.
    rewrite flatten_reshape_col in H.
    apply bind_ok in H. destruct H as [X [H HX]].
    apply bind_ok in H. destruct H as [[ys lmax] [H Hv]].
    inversion Hv; subst X. inversion HX; subst normalized. clear Hv HX.
    unfold stats_boxcox in H.
    destruct (map (fun x => add x lit_1em6) data) as [|x0 sh] eqn:Hs;
      [discriminate|]. rewrite <- Hs in *.
    destruct (forallb _ _); [discriminate|].
    destruct (existsb _ _); [discriminate|].
    destruct (forallb is_finite _); [|discriminate]. cbn [negb] in H.
    inversion H; subst. cbn [fst flatten]. now rewrite map_map.
  - destruct (method =? "Log")%string eqn:Hl.
    + unfold _evaluate_normalization, pointwise in *. rewrite Hb, Hl in *.
      cbn [bind flatten] in H. rewrite flatten_map_reshape_col in H.
      now inversion H.
    + rewrite scaler_branch in H by assumption.
      apply bind_ok in H. destruct H as [_ [_ H]]. now inversion H.
Qed.

End NormalizerEdges.

(** ** Exact steps of binary64 arithmetic *)

Section ExactSteps.

Local Open Scope Z_scope.

(** Multiplying a binary64 number by 1 changes nothing. *)
Lemma mul_one_exact (x : float) :
  valid x = true -> is_finite x = true -> mul x one = x.
Proof.
  intros Hv Hf. destruct x as [s|s| |s m e]; try discriminate.
  - unfold mul, one. cbn [SFmul]. now destruct s.
  - destruct (valid_finite_canonical s m e Hv) as [Hc He].
    unfold mul, one. cbn [SFmul].
    replace (xorb s false) with s by now destruct s.
    pose proof (digits2_pos_bounds m) as [Hlo Hhi].
    set (d := Zpos (digits2_pos m)) in *.
    assert (Hmx : Zpos (m * 4503599627370496) = Zpos m * 2 ^ 52)
      by reflexivity.
    rewrite Hmx.
    assert (H52 : 0 < 2 ^ 52) by lia.
    assert (Hdig : Zdigits2 (Zpos m * 2 ^ 52) = d + 52).
    { apply Zdigits2_unique; [lia|].
      replace (d + 52 - 1) with ((d - 1) + 52) by lia.
      rewrite !Z.pow_add_r by (unfold d; lia). nia. }
    destruct (binary_round_aux_spec s (Zpos m * 2 ^ 52) (e + -52) loc_Exact
                ltac:(lia)) as [m1 [Hm1 Heq]].
    cbn zeta in *. rewrite Heq. clear Heq.
    assert (Hk1 : shift_of (Zpos m * 2 ^ 52) (e + -52) = 52).
    { unfold shift_of. rewrite Hdig.
      replace (d + 52 + (e + -52)) with (d + e) by lia. rewrite Hc. lia. }
    rewrite Hk1 in *.
    assert (Hm1' : m1 = Zpos m).
    { rewrite Z.div_mul in Hm1 by lia. rewrite Z.mod_mul in Hm1 by lia.
      destruct Hm1 as [H|[_ [H|H]]]; [exact H|congruence|congruence]. }
    subst m1.
    replace (e + -52 + 52) with e by lia.
    assert (Hk2 : shift_of (Zpos m) e = 0).
    { unfold shift_of. cbn [Zdigits2]. fold d. rewrite Hc. lia. }
    rewrite Hk2. rewrite Z.div_1_r.
    replace (e + 0) with e by lia.
    replace (e <=? emax - prec) with true by (symmetry; now apply Z.leb_le).
    reflexivity.
Qed.

Lemma sub_self (x : float) : is_finite x = true -> sub x x = zero.
Proof.
  destruct x as [s|s| |s m e]; try discriminate; intros _.
  - now destruct s.
  - unfold sub. cbn [SFsub]. rewrite Z.sub_diag. reflexivity.
Qed.

Lemma add_opposite (x : float) :
  is_finite x = true -> add x (sub zero x) = zero.
Proof.
  destruct x as [s|s| |s m e]; try discriminate; intros _.
  - now destruct s.
  - unfold add, sub, zero. cbn [SFsub SFadd].
    replace (cond_Zopp s (Zpos (fst (shl_align m e (Z.min e e)))) +
             cond_Zopp (negb s) (Zpos (fst (shl_align m e (Z.min e e)))))
      with 0 by (destruct s; cbn [cond_Zopp negb]; lia).
    reflexivity.
Qed.

End ExactSteps.

Section MinMaxConstant.

Import EnhancedDataPipeline.

Lemma nan_fold_constant (better : float -> float -> bool) (c : float)
  (data : list float) :
  is_nan c = false -> better c c = false ->
  Forall (fun x => x = c) data ->
  forall acc, acc = c \/ (is_nan acc = true /\ data <> []) ->
  fold_left
    (fun acc x =>
       if is_nan x then acc
       else if is_nan acc then x
       else if better x acc then x else acc) data acc = c.
Proof.
  intros Hc Hb Hall. induction Hall as [|x rest Hx _ IH]; intros acc Hacc.
  - destruct Hacc as [H|[_ H]]; [exact H|congruence].
  - subst x. cbn [fold_left]. rewrite Hc. apply IH. left.
    destruct Hacc as [->|[Hn _]].
    + now rewrite Hc, Hb.
    + now rewrite Hn.
Qed.

Lemma ltb_irrefl (x : float) : ltb x x = false.
Proof.
  destruct (eqb x x) eqn:E.
  - now apply eqb_not_ltb in E.
  - unfold eqb, ltb, SFeqb, SFltb in *.
    destruct x as [s|s| |s m e]; simpl in *; try destruct s;
      try discriminate; try reflexivity;
      rewrite Z.compare_refl in *;
      change (Pos.compare_cont Eq m m) with (Pos.compare m m) in *;
      rewrite Pos.compare_refl in *; simpl in *; discriminate.
Qed.

(** Min-Max on a series of equal closes: the range is zero, the scale is
    1, and every close is sent to 0. *)
Theorem minmax_constant_zeros (K : Kernels) (data : list float) (c : float) :
  data <> [] ->
  valid c = true ->
  is_finite c = true ->
  Forall (fun x => x = c) data ->
  _evaluate_normalization K data "Min-Max" = Ok (map (fun _ => zero) data).
Proof.
  intros Hne Hv Hf Hall.
  assert (Hnan : is_nan c = false) by (destruct c; try discriminate; auto).
  rewrite (scaler_branch K data "Min-Max" eq_refl eq_refl).
  rewrite check_array_ok;
    [|assumption|eapply Forall_impl; [|exact Hall]; simpl; now intros x ->].
  cbn [bind]. f_equal. apply map_ext_in. intros x Hx.
  rewrite Forall_forall in Hall. rewrite (Hall x Hx).
  unfold pointwise. cbn [String.eqb Ascii.eqb Bool.eqb].
  assert (Hmin : np_nanmin data = c).
  { unfold np_nanmin, nan_fold. apply nan_fold_constant; auto.
    - apply ltb_irrefl.
    - now apply Forall_forall. }
  assert (Hmax : np_nanmax data = c).
  { unfold np_nanmax, nan_fold. apply nan_fold_constant; auto.
    - apply ltb_irrefl.
    - now apply Forall_forall. }
  rewrite Hmin, Hmax, (sub_self c Hf).
  change (div one (handle_zeros_in_scale zero None)) with one.
  rewrite (mul_one_exact c Hv Hf). now apply add_opposite.
Qed.

End MinMaxConstant.

Lemma minmax_constant_zeros_witness :
  EnhancedDataPipeline._evaluate_normalization Reference.kernels
    [of_Z 5; of_Z 5; of_Z 5] "Min-Max"
  = Ok [zero; zero; zero].
Proof.
  apply (minmax_constant_zeros Reference.kernels
           [of_Z 5; of_Z 5; of_Z 5] (of_Z 5)).
  - discriminate.
  - vm_compute. reflexivity.
  - reflexivity.
  - repeat constructor.
Defined.


(** ** What is scored *)

Lemma mapM_length {A B : Type} (f : A -> result B) (l : list A) :
  forall l', EnhancedDataPipeline.mapM f l = Ok l' -> length l' = length l.
Proof.
  induction l as [|a rest IH]; intros l' H;
    cbn [EnhancedDataPipeline.mapM] in H.
  - now inversion H.
  - apply bind_ok in H. destruct H as [b [_ H]].
    apply bind_ok in H. destruct H as [bs [Hbs H]].
    inversion H. cbn [length]. now rewrite (IH bs Hbs).
Qed.

Section Scoring.

Import EnhancedDataPipeline.

Variable W : World.

Hypothesis fit_needs_samples :
  forall y, fit (regressor W) [] y = Raise ValueError.

(** What a scored method was fitted and scored on. *)
Lemma evaluate_calls instrument method data metrics norm_data :
  evaluate W instrument method data = Ok (metrics, norm_data) ->
  length norm_data = length data /\
  (32 <= length data)%nat /\
  exists model pred,
    fit (regressor W)
      (reshape_col (slice_to_neg 1 (slice_to_neg 30 norm_data)))
      (slice_from 1 (slice_to_neg 30 norm_data)) = Ok model /\
    predict (regressor W) model
      (reshape_col (slice_to_neg 1 (slice_from_neg 30 norm_data))) = Ok pred /\
    r2_score (scorers W) (slice_from 1 (slice_from_neg 30 norm_data)) pred
    = Ok (R2 metrics) /\
    mean_absolute_error (scorers W)
      (slice_from 1 (slice_from_neg 30 norm_data)) pred = Ok (MAE metrics) /\
    mean_squared_error (scorers W)
      (slice_from 1 (slice_from_neg 30 norm_data)) pred = Ok (MSE metrics).
Proof.
  intros H. unfold evaluate, tail_length in H.
  apply bind_ok in H. destruct H as [nd [Hn H]].
  apply bind_ok in H. destruct H as [model [Hfit H]].
  apply bind_ok in H. destruct H as [pred [Hpred H]].
  apply bind_ok in H. destruct H as [mae [Hmae H]].
  apply bind_ok in H. destruct H as [mse [Hmse H]].
  apply bind_ok in H. destruct H as [r2 [Hr2 H]].
  inversion H; subst metrics norm_data. clear H.
  destruct (normalization_pointwise _ _ _ _ Hn) as [_ Hlen].
  split; [exact Hlen|]. split.
  - destruct (reshape_col (slice_to_neg 1 (slice_to_neg 30 nd))) eqn:He.
    + rewrite fit_needs_samples in Hfit. discriminate.
    + apply (f_equal (@length _)) in He.
      destruct (supervised_lengths (slice_to_neg 30 nd)) as [Hl _].
      rewrite Hl, length_slice_to_neg in He. simpl in He. lia.
  - exists model, pred. cbn [MAE MSE R2]. auto.
Qed.

(** A series of fewer than 32 closes gives no row, whatever the method. *)
Theorem short_series_not_scored instrument method data :
  (length data < 32)%nat ->
  contribution W instrument data method = [].
Proof.
  intros Hshort. unfold contribution.
  destruct (evaluate W instrument method data) as [[metrics nd]|e] eqn:He;
    [|reflexivity].
  destruct (evaluate_calls _ _ _ _ _ He) as [_ [Hlen _]]. lia.
Qed.

(** The four slices, by rank in a series of [n] points. *)
Lemma supervised_slices {A : Type} (l : list A) :
  (31 <= length l)%nat ->
  slice_to_neg 1 (slice_to_neg 30 l) = firstn (length l - 31) l /\
  slice_from 1 (slice_to_neg 30 l)
  = firstn (length l - 31) (skipn 1 l) /\
  slice_to_neg 1 (slice_from_neg 30 l)
  = firstn 29 (skipn (length l - 30) l) /\
  slice_from 1 (slice_from_neg 30 l) = skipn (length l - 29) l.
Proof.
  intros Hl. unfold slice_to_neg, slice_from_neg, slice_from.
  rewrite length_firstn, length_skipn.
  repeat split.
  - rewrite firstn_firstn. f_equal. lia.
  - rewrite skipn_firstn_comm. f_equal. lia.
  - f_equal. lia.
  - rewrite skipn_skipn. f_equal. lia.
Qed.

(** scikit-learn's [predict] answers one value per row. *)
Hypothesis predict_one_per_row :
  forall model X pred,
    predict (regressor W) model X = Ok pred -> length pred = length X.

(** Whenever a method is scored on a series of [n] closes, [n] is at
    least 32; the regressor was fitted on the [n - 31] points of rank 0
    to [n - 32] of the normalized series, one column each, against the
    [n - 31] points of rank 1 to [n - 31]; it was asked about the 29
    points of rank [n - 30] to [n - 2]; and the three metrics compare
    its 29 predictions with the last 29 points. *)
Theorem scored_pairs_count instrument method data metrics norm_data :
  evaluate W instrument method data = Ok (metrics, norm_data) ->
  let n := length data in
  let X_train := reshape_col (firstn (n - 31) norm_data) in
  let y_train := firstn (n - 31) (skipn 1 norm_data) in
  let X_test := reshape_col (firstn 29 (skipn (n - 30) norm_data)) in
  let y_test := skipn (n - 29) norm_data in
  (32 <= n)%nat /\
  length norm_data = n /\
  length X_train = (n - 31)%nat /\
  length y_train = (n - 31)%nat /\
  length X_test = 29%nat /\
  length y_test = 29%nat /\
  Forall (fun r => length r = 1%nat) (X_train ++ X_test) /\
  exists model pred,
    fit (regressor W) X_train y_train = Ok model /\
    predict (regressor W) model X_test = Ok pred /\
    length pred = 29%nat /\
    mean_absolute_error (scorers W) y_test pred = Ok (MAE metrics) /\
    mean_squared_error (scorers W) y_test pred = Ok (MSE metrics) /\
    r2_score (scorers W) y_test pred = Ok (R2 metrics).
Proof.
  intros H. cbv zeta.
  destruct (evaluate_calls _ _ _ _ _ H)
    as [Hlen [H32 [model [pred [Hfit [Hpred [Hr2 [Hmae Hmse]]]]]]]].
  destruct (supervised_slices norm_data ltac:(lia)) as [S1 [S2 [S3 S4]]].
  rewrite S1, S2 in Hfit. rewrite S3 in Hpred.
  rewrite S4 in Hr2, Hmae, Hmse. rewrite Hlen in *.
  assert (L1 : length (firstn (length data - 31) norm_data)
               = (length data - 31)%nat)
    by (rewrite length_firstn; lia).
  assert (L2 : length (firstn 29 (skipn (length data - 30) norm_data))
               = 29%nat)
    by (rewrite length_firstn, length_skipn; lia).
  split; [exact H32|]. split; [reflexivity|].
  unfold reshape_col. rewrite !length_map, L1, L2.
  split; [reflexivity|].
  split; [rewrite length_firstn, length_skipn; lia|].
  split; [reflexivity|].
  split; [rewrite length_skipn; lia|].
  split.
  - apply Forall_forall. intros r Hr. apply in_app_or in Hr.
    destruct Hr as [Hr|Hr]; apply in_map_iff in Hr;
      destruct Hr as [x [<- _]]; reflexivity.
  - exists model, pred. split; [exact Hfit|]. split; [exact Hpred|].
    split; [|auto].
    rewrite (predict_one_per_row _ _ _ Hpred).
    unfold reshape_col. now rewrite length_map.
Qed.

End Scoring.

Lemma short_series_not_scored_witness :
  EnhancedDataPipeline.contribution (Reference.world (Reference.ramp 31))
    "MSTR" (Reference.ramp 31) "Min-Max" = [].
Proof.
  apply (short_series_not_scored (Reference.world (Reference.ramp 31))
           (fun _ => eq_refl) "MSTR" "Min-Max" (Reference.ramp 31)).
  vm_compute. lia.
Defined.

Lemma scored_pairs_count_witness :
  exists metrics norm_data model pred,
    EnhancedDataPipeline.evaluate (Reference.world (Reference.ramp 40))
      "MSTR" "Min-Max" (Reference.ramp 40) = Ok (metrics, norm_data) /\
    length norm_data = 40%nat /\
    EnhancedDataPipeline.fit Reference.persistence
      (reshape_col (firstn 9 norm_data)) (firstn 9 (skipn 1 norm_data))
    = Ok model /\
    EnhancedDataPipeline.predict Reference.persistence model
      (reshape_col (firstn 29 (skipn 10 norm_data))) = Ok pred /\
    length pred = 29%nat /\
    Reference.r2 (skipn 11 norm_data) pred
    = Ok (EnhancedDataPipeline.R2 metrics).
Proof.
  assert (H : exists mn,
             EnhancedDataPipeline.evaluate (Reference.world (Reference.ramp 40))
               "MSTR" "Min-Max" (Reference.ramp 40) = Ok mn)
    by (vm_compute; eexists; reflexivity).
  destruct H as [[metrics norm_data] H].
  destruct (scored_pairs_count (Reference.world (Reference.ramp 40))
              (fun _ => eq_refl)
              (fun _ X pred Hp => mapM_length index0 X pred Hp)
              "MSTR" "Min-Max" (Reference.ramp 40)
              metrics norm_data H)
    as [_ [Hlen [_ [_ [_ [_ [_ [model [pred
         [Hfit [Hpred [Hl [_ [_ Hr2]]]]]]]]]]]]]].
  exists metrics, norm_data, model, pred.
  split; [exact H|]. split; [exact Hlen|]. split; [exact Hfit|].
  split; [exact Hpred|]. split; [exact Hl|exact Hr2].
Defined.

(** ** Reading the files *)

Section Reading.

Import EnhancedDataPipeline.

Variable W : World.

Lemma instruments_loop_app pre : forall post results,
  Forall (fun i => is_ok (read_csv W i) = true) pre ->
  instruments_loop W (pre ++ post) results
  = instruments_loop W post (results ++ flat_map (scored W) pre).
Proof.
  induction pre as [|i rest IH]; intros post results Hread.
  - cbn [app flat_map]. now rewrite app_nil_r.
  - inversion Hread as [|? ? Hi Hrest]; subst.
    cbn [app instruments_loop flat_map]. unfold scored at 1.
    destruct (read_csv W i) as [data|e]; [|discriminate]. cbn [bind].
    rewrite IH by assumption. rewrite methods_loop_spec.
    now rewrite <- app_assoc.
Qed.

(** A file that cannot be read ends [normalize_data] with the exception
    of the read, whatever was scored before. *)
Theorem read_failure_aborts pre instrument post e :
  Forall (fun i => is_ok (read_csv W i) = true) pre ->
  read_csv W instrument = Raise e ->
  instruments_loop W (pre ++ instrument :: post) [] = Raise e /\
  normalize_data W (pre ++ instrument :: post) = Raise e.
Proof.
  intros Hpre He.
  assert (H : instruments_loop W (pre ++ instrument :: post) [] = Raise e).
  { rewrite instruments_loop_app by assumption.
    cbn [instruments_loop]. rewrite He. reflexivity. }
  split; [exact H|]. unfold normalize_data. now rewrite H.
Qed.

Lemma instruments_loop_reads instruments : forall acc results,
  instruments_loop W instruments acc = Ok results ->
  Forall (fun i => is_ok (read_csv W i) = true) instruments.
Proof.
  induction instruments as [|i rest IH]; intros acc results Hloop;
    [constructor|].
  cbn [instruments_loop] in Hloop.
  destruct (read_csv W i) as [data|e] eqn:Hr; [|discriminate].
  constructor; [now rewrite Hr|]. cbn [bind] in Hloop. eauto.
Qed.

(** The labels of the rows of an instrument: the methods that were
    scored, in the order of the loop. *)
Lemma scored_labels instrument :
  map (fun r => (Instrument r, Method r)) (scored W instrument)
  = map (fun m => (instrument, m))
      (filter (fun m => match read_csv W instrument with
                        | Ok data => is_ok (evaluate W instrument m data)
                        | Raise _ => false
                        end) methods).
Proof.
  unfold scored.
  destruct (read_csv W instrument) as [data|e].
  - induction methods as [|m ms IH]; [reflexivity|].
    cbn [flat_map filter]. rewrite map_app, IH. unfold contribution.
    destruct (evaluate W instrument m data) as [[metrics nd]|] eqn:Hev.
    + destruct (evaluate_labels _ _ _ _ _ _ Hev) as [Hi Hm].
      cbn [is_ok map app]. now rewrite Hi, Hm.
    + reflexivity.
  - induction methods as [|m ms IH]; [reflexivity|exact IH].
Qed.

Lemma filter_none {A : Type} (f : A -> bool) (l : list A) :
  (forall x, In x l -> f x = false) -> filter f l = [].
Proof.
  induction l as [|a rest IH]; intros H; [reflexivity|].
  cbn [filter]. rewrite (H a (or_introl eq_refl)).
  apply IH. intros x Hx. apply H. now right.
Qed.

Lemma NoDup_map_pair (i : string) (l : list string) :
  NoDup l -> NoDup (map (fun m => (i, m)) l).
Proof.
  induction 1 as [|m rest Hnin _ IH]; cbn [map]; constructor; [|exact IH].
  intros Hin. apply in_map_iff in Hin. destruct Hin as [m' [He Hm']].
  inversion He; subst. contradiction.
Qed.

Lemma NoDup_labels (instruments : list string) (f : string -> list string) :
  NoDup instruments ->
  (forall i, NoDup (f i)) ->
  NoDup (flat_map (fun i => map (fun m => (i, m)) (f i)) instruments).
Proof.
  intros Hi Hf. induction Hi as [|i rest Hnin _ IH]; [constructor|].
  cbn [flat_map]. apply NoDup_app.
  - apply NoDup_map_pair, Hf.
  - exact IH.
  - intros [i' m] H1 H2.
    apply in_map_iff in H1. destruct H1 as [m1 [H1 _]]. inversion H1; subst.
    apply in_flat_map in H2. destruct H2 as [j [Hj H2]].
    apply in_map_iff in H2. destruct H2 as [m2 [H2 _]]. inversion H2; subst.
    contradiction.
Qed.

(** With distinct instruments no two rows of the leaderboard bear the
    same instrument and method, and no instrument has more than four
    rows. *)
Theorem leaderboard_one_row_per_pair instruments results :
  NoDup instruments ->
  instruments_loop W instruments [] = Ok results ->
  NoDup (map (fun r => (Instrument r, Method r)) results) /\
  forall i,
    (length (filter (fun r => (Instrument r =? i)%string) results) <= 4)%nat.
Proof.
  intros Hnd Hloop.
  pose proof (instruments_loop_reads _ _ _ Hloop) as Hread.
  rewrite instruments_loop_spec in Hloop by assumption.
  inversion Hloop; subst results. clear Hloop. cbn [app].
  split.
  - rewrite flat_map_concat_map, concat_map, map_map.
    rewrite (map_ext _ _ scored_labels).
    rewrite <- flat_map_concat_map.
    apply (NoDup_labels instruments
             (fun i => filter (fun m => match read_csv W i with
                                        | Ok data => is_ok (evaluate W i m data)
                                        | Raise _ => false
                                        end) methods)).
    + exact Hnd.
    + intros i. apply NoDup_filter. unfold methods.
      repeat constructor; simpl; intuition discriminate.
  - intros i.
    induction Hnd as [|j rest Hnin Hrest IH]; [simpl; lia|].
    inversion Hread; subst. cbn [flat_map]. rewrite filter_app, length_app.
    assert (Hrows : forall i', Forall (fun r => Instrument r = i') (scored W i')).
    { intros i'. apply Forall_forall. intros r Hr.
      assert (Hl : In (Instrument r, Method r)
                     (map (fun r => (Instrument r, Method r)) (scored W i')))
        by (apply in_map_iff; now exists r).
      rewrite scored_labels in Hl. apply in_map_iff in Hl.
      destruct Hl as [m [Hm _]]. now inversion Hm. }
    assert (Hlen : (length (scored W j) <= 4)%nat).
    { rewrite <- (length_map (fun r => (Instrument r, Method r))).
      rewrite scored_labels, length_map.
      etransitivity; [apply filter_length_le|]. reflexivity. }
    destruct (String.eqb_spec j i) as [->|Hne].
    + assert (Hz : filter (fun r => (Instrument r =? i)%string)
                     (flat_map (scored W) rest) = []).
      { apply filter_none. intros r Hr.
        apply in_flat_map in Hr. destruct Hr as [k [Hk Hr]].
        pose proof (Hrows k) as Hk'. rewrite Forall_forall in Hk'.
        apply String.eqb_neq. rewrite (Hk' r Hr). intros ->. contradiction. }
      rewrite Hz. simpl. pose proof (filter_length_le
        (fun r => (Instrument r =? i)%string) (scored W i)). lia.
    + assert (Hz : filter (fun r => (Instrument r =? i)%string) (scored W j)
                   = []).
      { apply filter_none. intros r Hr.
        pose proof (Hrows j) as Hj. rewrite Forall_forall in Hj.
        apply String.eqb_neq. now rewrite (Hj r Hr). }
      rewrite Hz. simpl. now apply IH.
Qed.

End Reading.

Lemma read_failure_aborts_witness :
  EnhancedDataPipeline.instruments_loop Samples.world_without_coin
    (["MSTR"%string] ++ "COIN"%string :: ["NVDA"%string]) [] = Raise OSError /\
  EnhancedDataPipeline.normalize_data Samples.world_without_coin
    (["MSTR"%string] ++ "COIN"%string :: ["NVDA"%string]) = Raise OSError.
Proof.
  apply (read_failure_aborts Samples.world_without_coin
           ["MSTR"]%string "COIN"%string ["NVDA"]%string OSError).
  - repeat constructor.
  - reflexivity.
Defined.

Lemma leaderboard_one_row_per_pair_witness :
  exists results,
    EnhancedDataPipeline.instruments_loop
      (Reference.world (Reference.ramp 40)) ["MSTR"; "NVDA"]%string []
    = Ok results /\
    NoDup (map (fun r => (EnhancedDataPipeline.Instrument r,
                          EnhancedDataPipeline.Method r)) results) /\
    (length (filter (fun r => (EnhancedDataPipeline.Instrument r =? "MSTR")%string)
               results) <= 4)%nat.
Proof.
  assert (H : exists results,
             EnhancedDataPipeline.instruments_loop
               (Reference.world (Reference.ramp 40)) ["MSTR"; "NVDA"]%string []
             = Ok results)
    by (vm_compute; eexists; reflexivity).
  destruct H as [results H].
  destruct (leaderboard_one_row_per_pair (Reference.world (Reference.ramp 40))
              ["MSTR"; "NVDA"]%string results) as [Hnd Hfour].
  - repeat constructor; simpl; intuition discriminate.
  - exact H.
  - exists results. split; [exact H|]. split; [exact Hnd|apply Hfour].
Defined.

(** ** The order of the best rows *)

Section StringOrder.

Lemma ascii_compare_lt_trans (a b c : ascii) :
  Ascii.compare a b = Lt -> Ascii.compare b c = Lt -> Ascii.compare a c = Lt.
Proof.
  unfold Ascii.compare. rewrite !N.compare_lt_iff. lia.
Qed.

Lemma string_leb_trans : forall a b c : string,
  String.leb a b = true -> String.leb b c = true -> String.leb a c = true.
Proof.
  unfold String.leb.
  induction a as [|x a IH]; intros [|y b] [|z c]; cbn [String.compare];
    try reflexivity; try discriminate.
  destruct (Ascii.compare x y) eqn:Hxy; try discriminate.
  - apply Ascii.compare_eq_iff in Hxy. subst y.
    destruct (Ascii.compare x z); try discriminate; auto.
    apply IH.
  - intros _.
    destruct (Ascii.compare y z) eqn:Hyz; try discriminate; intros _.
    + apply Ascii.compare_eq_iff in Hyz. subst z. now rewrite Hxy.
    + now rewrite (ascii_compare_lt_trans x y z).
Qed.

Lemma string_leb_ltb (a b : string) :
  String.leb a b = true -> a <> b -> String.ltb a b = true.
Proof.
  unfold String.leb, String.ltb. intros H Hne.
  destruct (String.compare a b) eqn:Hc; try discriminate; [|reflexivity].
  apply String.compare_eq_iff in Hc. contradiction.
Qed.

Import EnhancedDataPipeline.

Lemma insert_sorted_ordered s l :
  ForallOrdPairs (fun a b => String.leb a b = true) l ->
  ForallOrdPairs (fun a b => String.leb a b = true) (insert_sorted s l).
Proof.
  induction 1 as [|t rest Ht Hrest IH]; cbn [insert_sorted].
  - constructor; constructor.
  - destruct (String.leb s t) eqn:Hst.
    + constructor; [|now constructor].
      constructor; [exact Hst|].
      rewrite Forall_forall in *. intros x Hx.
      apply (string_leb_trans s t x Hst). now apply Ht.
    + constructor; [|exact IH].
      rewrite Forall_forall in *. intros x Hx.
      apply in_insert_sorted in Hx. destruct Hx as [->|Hx]; [|now apply Ht].
      destruct (String.leb_total s t) as [H|H]; [congruence|exact H].
Qed.

Lemma sort_strings_ordered l :
  ForallOrdPairs (fun a b => String.leb a b = true) (sort_strings l).
Proof.
  induction l as [|s rest IH]; cbn [sort_strings fold_right].
  - constructor.
  - now apply insert_sorted_ordered.
Qed.

Lemma ordered_strict l :
  NoDup l ->
  ForallOrdPairs (fun a b => String.leb a b = true) l ->
  ForallOrdPairs (fun a b => String.ltb a b = true) l.
Proof.
  intros Hnd Ho. induction Ho as [|a rest Ha _ IH]; [constructor|].
  inversion Hnd as [|? ? Hnin Hnd']; subst.
  constructor; [|now apply IH].
  rewrite Forall_forall in *. intros x Hx.
  apply string_leb_ltb; [now apply Ha|]. intros ->. contradiction.
Qed.

Lemma group_keys_increasing results :
  ForallOrdPairs (fun a b => String.ltb a b = true) (group_keys results).
Proof.
  apply ordered_strict; [apply NoDup_group_keys|].
  unfold group_keys. apply sort_strings_ordered.
Qed.

End StringOrder.

Section BestRows.

Import EnhancedDataPipeline.

Lemma mapM_Forall2 {A B : Type} (f : A -> result B) : forall l l',
  mapM f l = Ok l' -> Forall2 (fun a b => f a = Ok b) l l'.
Proof.
  induction l as [|a rest IH]; intros l' H; cbn [mapM] in H.
  - inversion H. constructor.
  - apply bind_ok in H. destruct H as [b [Hb H]].
    apply bind_ok in H. destruct H as [bs [Hbs H]].
    inversion H; subst. constructor; auto.
Qed.

(** A label answered by [idxmax_from] is the label of a row of the
    group whose R2 is a number. *)
Lemma idxmax_from_label (k : string) rows : forall pre best j,
  (forall j0 m, best = Some (j0, m) ->
     exists w, nth_error pre j0 = Some w /\ Instrument w = k /\
               is_nan (R2 w) = false) ->
  idxmax_from k rows (length pre) best = Some j ->
  exists w, nth_error (pre ++ rows) j = Some w /\ Instrument w = k /\
            is_nan (R2 w) = false.
Proof.
  induction rows as [|r rest IH]; intros pre best j Hbest H.
  - cbn [idxmax_from] in H. rewrite app_nil_r.
    destruct best as [[j0 m]|]; [|discriminate].
    cbn in H. inversion H; subst. eapply Hbest; reflexivity.
  - cbn [idxmax_from] in H.
    replace (S (length pre)) with (length (pre ++ [r])) in H
      by (rewrite length_app; simpl; lia).
    replace (pre ++ r :: rest) with ((pre ++ [r]) ++ rest)
      by (rewrite <- app_assoc; reflexivity).
    eapply IH; [|exact H].
    assert (Hold : forall j0 m, best = Some (j0, m) ->
              exists w, nth_error (pre ++ [r]) j0 = Some w /\
                        Instrument w = k /\ is_nan (R2 w) = false).
    { intros j0 m Hb. destruct (Hbest j0 m Hb) as [w [Hw Hrest]].
      exists w. split; [|exact Hrest].
      rewrite nth_error_app1; [exact Hw|].
      apply nth_error_Some. congruence. }
    assert (Hnew : forall j0 m, Some (length pre, R2 r) = Some (j0, m) ->
              (Instrument r =? k)%string = true -> is_nan (R2 r) = false ->
              exists w, nth_error (pre ++ [r]) j0 = Some w /\
                        Instrument w = k /\ is_nan (R2 w) = false).
    { intros j0 m Hb Hk Hn. inversion Hb; subst. exists r.
      rewrite nth_error_app2, Nat.sub_diag by lia.
      repeat split; auto. now apply String.eqb_eq. }
    intros j0 m.
    destruct (Instrument r =? k)%string eqn:Hk; cbn [negb]; [|apply Hold].
    destruct (is_nan (R2 r)) eqn:Hn; [apply Hold|].
    destruct best as [[jb mb]|].
    + destruct (ltb mb (R2 r)); [|apply Hold].
      intros Hb. now apply (Hnew j0 m).
    + intros Hb. now apply (Hnew j0 m).
Qed.

Lemma select_best_pairs results best :
  select_best results = Ok best ->
  results <> [] /\
  Forall2 (fun k w => Instrument w = k /\ In w results /\
                      is_nan (R2 w) = false)
    (group_keys results) best.
Proof.
  intros H. unfold select_best in H.
  destruct results as [|r0 rest] eqn:Hres; [discriminate|].
  rewrite <- Hres in *. split; [congruence|].
  apply bind_ok in H. destruct H as [labels [Hl Hb]].
  apply mapM_Forall2 in Hl. apply mapM_Forall2 in Hb.
  clear Hres. revert best Hb.
  induction Hl as [|k j ks js Hk _ IH]; intros best Hb.
  - inversion Hb. constructor.
  - inversion Hb as [|? w ? ws Hw Hws]; subst. constructor; [|now apply IH].
    unfold idxmax in Hk.
    destruct (idxmax_from k results 0 None) as [j'|] eqn:Hi; [|discriminate].
    inversion Hk; subst j'.
    destruct (idxmax_from_label k results [] None j) as [w' [Hn [Hi' Hnan]]];
      [discriminate|exact Hi|].
    cbn [app] in Hn. unfold loc in Hw. rewrite Hn in Hw.
    inversion Hw; subst w'. repeat split; auto.
    eapply nth_error_In; eauto.
Qed.

Lemma Forall2_map_eq {A B : Type} (f : B -> A) (P : B -> Prop) :
  forall (l : list A) (l' : list B),
  Forall2 (fun a b => f b = a /\ P b) l l' ->
  map f l' = l /\ Forall P l'.
Proof.
  induction 1 as [|a b l l' [Hf HP] _ [IH1 IH2]]; [split; constructor|].
  cbn [map]. rewrite Hf, IH1. split; [reflexivity|now constructor].
Qed.

Lemma ForallOrdPairs_map {A B : Type} (f : B -> A) (R : A -> A -> Prop)
  (l : list B) :
  ForallOrdPairs R (map f l) -> ForallOrdPairs (fun a b => R (f a) (f b)) l.
Proof.
  induction l as [|b rest IH]; cbn [map]; intros H; [constructor|].
  inversion H as [|? ? Hb Hrest]; subst.
  constructor; [|now apply IH].
  rewrite Forall_forall in *. intros x Hx. apply Hb. now apply in_map.
Qed.

(** The best rows come out in increasing order of the instrument name,
    one for every instrument of the leaderboard; each is a row of the
    leaderboard whose R2 is a number. *)
Theorem select_best_sorted results best :
  select_best results = Ok best ->
  ForallOrdPairs
    (fun a b => String.ltb (Instrument a) (Instrument b) = true) best /\
  (forall w, In w best -> In w results /\ is_nan (R2 w) = false) /\
  (forall r, In r results -> In (Instrument r) (map Instrument best)).
Proof.
  intros H. destruct (select_best_pairs _ _ H) as [_ HF].
  destruct (Forall2_map_eq Instrument
              (fun w => In w results /\ is_nan (R2 w) = false) _ _ HF)
    as [Hmap Hall].
  split; [|split].
  - apply (ForallOrdPairs_map Instrument
             (fun a b => String.ltb a b = true)).
    rewrite Hmap. apply group_keys_increasing.
  - rewrite Forall_forall in Hall. exact Hall.
  - intros r Hr. rewrite Hmap. apply in_group_keys. now apply in_map.
Qed.

End BestRows.

Lemma select_best_sorted_witness :
  exists best,
    EnhancedDataPipeline.select_best Reference.leaderboard = Ok best /\
    map EnhancedDataPipeline.Instrument best = ["MSTR"; "NVDA"]%string /\
    ForallOrdPairs
      (fun a b => String.ltb (EnhancedDataPipeline.Instrument a)
                    (EnhancedDataPipeline.Instrument b) = true) best.
Proof.
  assert (H : exists best,
             EnhancedDataPipeline.select_best Reference.leaderboard = Ok best
             /\ map EnhancedDataPipeline.Instrument best
                = ["MSTR"; "NVDA"]%string)
    by (vm_compute; eexists; split; reflexivity).
  destruct H as [best [H Hnames]].
  destruct (select_best_sorted Reference.leaderboard best H) as [Hs _].
  exists best. split; [exact H|]. split; [exact Hnames|exact Hs].
Defined.

(** ** The table of best methods *)

Section EndToEnd.

Import EnhancedDataPipeline.

Variable W : World.

Lemma scored_rows instrument w :
  In w (scored W instrument) ->
  In (Method w) methods /\
  exists data norm_data,
    read_csv W instrument = Ok data /\
    evaluate W instrument (Method w) data = Ok (w, norm_data).
Proof.
  unfold scored. destruct (read_csv W instrument) as [data|e]; [|intros []].
  intros Hin. apply in_flat_map in Hin. destruct Hin as [m [Hm Hin]].
  unfold contribution in Hin.
  destruct (evaluate W instrument m data) as [[metrics nd]|] eqn:Hev;
    [|contradiction].
  destruct Hin as [->|[]].
  destruct (evaluate_labels _ _ _ _ _ _ Hev) as [_ Hmeth].
  rewrite Hmeth. split; [exact Hm|]. now exists data, nd.
Qed.

(** What [normalize_data] returns is never empty, has been written by
    [best_to_csv], and holds only rows scored in this run: each is the
    score of one of the four methods on the file of one of the given
    instruments. *)
Theorem normalize_data_result instruments best :
  normalize_data W instruments = Ok best ->
  best <> [] /\
  best_to_csv W best = Ok tt /\
  forall w, In w best ->
    In (Instrument w) instruments /\ In (Method w) methods /\
    is_nan (R2 w) = false /\
    exists data norm_data,
      read_csv W (Instrument w) = Ok data /\
      evaluate W (Instrument w) (Method w) data = Ok (w, norm_data).
Proof.
  intros H. unfold normalize_data in H.
  apply bind_ok in H. destruct H as [results [Hloop H]].
  apply bind_ok in H. destruct H as [best' [Hsel H]].
  apply bind_ok in H. destruct H as [u [Hcsv H]].
  inversion H; subst best'. clear H. destruct u.
  pose proof (instruments_loop_reads W _ _ _ Hloop) as Hread.
  rewrite instruments_loop_spec in Hloop by assumption.
  inversion Hloop as [Hres]. cbn [app] in Hres. clear Hloop.
  destruct (select_best_pairs _ _ Hsel) as [Hne HF].
  split; [|split; [exact Hcsv|]].
  - intros ->. inversion HF as [Hk|]. 
    destruct results as [|r rest]; [congruence|].
    assert (Hin : In (Instrument r) (group_keys (r :: rest)))
      by (apply in_group_keys; now left).
    rewrite <- Hk in Hin. contradiction.
  - intros w Hw.
    destruct (Forall2_map_eq Instrument
                (fun w => In w results /\ is_nan (R2 w) = false) _ _ HF)
      as [_ Hall].
    rewrite Forall_forall in Hall. destruct (Hall w Hw) as [Hin Hnan].
    rewrite <- Hres in Hin. apply in_flat_map in Hin.
    destruct Hin as [i [Hi Hin]].
    destruct (scored_rows i w Hin) as [Hm [data [nd [Hr Hev]]]].
    destruct (evaluate_labels _ _ _ _ _ _ Hev) as [Hinst _].
    rewrite Hinst. repeat split; auto. now exists data, nd.
Qed.

End EndToEnd.

Lemma normalize_data_result_witness :
  exists best,
    EnhancedDataPipeline.normalize_data
      (Reference.world (Reference.ramp 40)) ["MSTR"; "NVDA"]%string
    = Ok best /\
    best <> [] /\
    forall w, In w best ->
      In (EnhancedDataPipeline.Instrument w) ["MSTR"; "NVDA"]%string /\
      In (EnhancedDataPipeline.Method w) EnhancedDataPipeline.methods.
Proof.
  assert (H : exists best,
             EnhancedDataPipeline.normalize_data
               (Reference.world (Reference.ramp 40)) ["MSTR"; "NVDA"]%string
             = Ok best)
    by (vm_compute; eexists; reflexivity).
  destruct H as [best H].
  destruct (normalize_data_result (Reference.world (Reference.ramp 40))
              ["MSTR"; "NVDA"]%string best H) as [Hne [_ Hrows]].
  exists best. split; [exact H|]. split; [exact Hne|].
  intros w Hw. destruct (Hrows w Hw) as [Hi [Hm _]]. now split.
Defined.


(** ** The training split *)

Section SplitIndex.

Local Open Scope Z_scope.

(** The integer part of a rounded product or quotient whose exact value
    [mx * 2^ex] lies between [q] and [q + 1], at more than one unit in
    the last place from [q + 1]. *)
Lemma round_int (mx ex q : Z) (lx : location) :
  0 < mx -> emin prec emax <= ex ->
  prec <= Zdigits2 mx ->
  0 <= Zdigits2 mx + ex ->
  ex + Zdigits2 mx - prec <= 0 ->
  0 <= q ->
  q * 2 ^ (- ex) <= mx ->
  mx + 2 ^ (Zdigits2 mx - prec) < (q + 1) * 2 ^ (- ex) ->
  int (binary_round_aux prec emax false mx ex lx) = Ok q.
Proof.
  intros Hmx Hex Hd Hde HE Hq Hlo Hhi.
  destruct (binary_round_aux_spec false mx ex lx ltac:(lia))
    as [m1 [Hm1 Heq]].
  cbn zeta in *. rewrite Heq. clear Heq.
  set (d := Zdigits2 mx) in *.
  assert (Hk1 : shift_of mx ex = d - prec)
    by (unfold shift_of, fexp; fold d; unfold emin, emax, prec in *; lia).
  rewrite Hk1 in *.
  set (k1 := d - prec) in *.
  set (E1 := ex + k1) in *.
  set (U := 2 ^ (- E1)).
  assert (HK : 0 < 2 ^ k1) by (apply Z.pow_pos_nonneg; lia).
  assert (HU : 0 < U) by (apply Z.pow_pos_nonneg; unfold E1, k1; lia).
  assert (Hsplit : 2 ^ (- ex) = 2 ^ k1 * U).
  { unfold U. rewrite <- Z.pow_add_r by (unfold E1, k1; lia).
    f_equal. unfold E1. lia. }
  rewrite Hsplit in Hlo, Hhi.
  assert (Hfl : q * U <= mx / 2 ^ k1)
    by (apply Z.div_le_lower_bound; [lia|nia]).
  assert (Hfu : mx / 2 ^ k1 + 1 < (q + 1) * U).
  { pose proof (Z.mul_div_le mx (2 ^ k1) HK). nia. }
  assert (Hm1b : q * U <= m1 < (q + 1) * U)
    by (destruct Hm1 as [->|[-> _]]; lia).
  assert (Hq1 : (q + 1) * U <= 2 ^ prec).
  { pose proof (Zdigits2_upper mx ltac:(lia)) as Hup. fold d in Hup.
    assert (Hd2 : 2 ^ d = 2 ^ (d + ex) * (2 ^ k1 * U)).
    { rewrite <- Hsplit, <- Z.pow_add_r by lia. f_equal. lia. }
    assert (Hqlt : q < 2 ^ (d + ex)).
    { assert (0 < 2 ^ (d + ex)) by (apply Z.pow_pos_nonneg; lia). nia. }
    assert (Hp : 2 ^ prec = 2 ^ (d + ex) * U).
    { unfold U. rewrite <- Z.pow_add_r by (unfold E1, k1; lia).
      f_equal. unfold E1, k1. lia. }
    rewrite Hp. nia. }
  assert (Hdm : Zdigits2 m1 <= prec).
  { destruct (Z.eq_dec m1 0) as [->|Hnz]; [simpl; unfold prec; lia|].
    pose proof (Zdigits2_lower m1 ltac:(nia)) as Hl.
    assert (Zdigits2 m1 - 1 < prec); [|lia].
    pose proof (Zdigits2_nonneg m1).
    apply (Z.pow_lt_mono_r_iff 2); unfold prec in *; lia. }
  assert (Hk2 : shift_of m1 E1 = 0)
    by (unfold shift_of, fexp, E1, k1; unfold emin, emax, prec in *; lia).
  rewrite Hk2, Z.div_1_r.
  destruct m1 as [|m|m]; [| |nia].
  - cbn [int]. f_equal. nia.
  - replace (E1 + 0 <=? emax - prec) with true
      by (symmetry; apply Z.leb_le; unfold E1, k1, emax, prec in *; lia).
    cbn [int cond_Zopp]. f_equal.
    replace (E1 + 0) with (- - E1) by lia.
    rewrite Z.shiftl_opp_r, Z.shiftr_div_pow2 by (unfold E1, k1; lia).
    fold U. symmetry. apply Z.div_unique with (Zpos m - q * U); lia.
Qed.

End SplitIndex.

Section SplitValue.

Import ModelTraining.

Local Open Scope Z_scope.

Lemma split_value (n : Z) :
  0 <= n < 2 ^ 50 -> int (mul lit_0_8 (of_Z n)) = Ok (4 * n / 5).
Proof.
  intros [Hn0 Hn].
  destruct (Z.eq_dec n 0) as [->|Hnz]; [reflexivity|].
  destruct (of_Z_exact n) as [mz [ez [Hof [Hmz [Hez [Hlo Hhi]]]]]];
    [unfold prec; lia|].
  rewrite Hof. unfold mul, lit_0_8. cbn [SFmul xorb].
  rewrite Pos2Z.inj_mul.
  set (C := 7205759403792794).
  set (M := Zpos mz) in *.
  set (T := 2 ^ (- ez)) in *.
  unfold prec in Hlo, Hhi.
  change (2 ^ (53 - 1)) with (2 ^ 52) in Hlo.
  assert (HT : 8 <= T).
  { destruct (Z.le_gt_cases 3 (- ez)) as [H3|H3].
    - change 8 with (2 ^ 3). apply Z.pow_le_mono_r; lia.
    - assert (T <= 2 ^ 2) by (apply Z.pow_le_mono_r; lia). nia. }
  assert (HT53 : T < 2 ^ 53) by nia.
  assert (Hez' : - ez < 53)
    by (apply (Z.pow_lt_mono_r_iff 2); lia).
  assert (Hmx : 2 ^ 104 <= C * M < 2 ^ 106) by (unfold C; lia).
  pose proof (Zdigits2_upper (C * M) ltac:(lia)) as Hdu.
  pose proof (Zdigits2_lower (C * M) ltac:(lia)) as Hdl.
  pose proof (Zdigits2_nonneg (C * M)) as Hdn.
  set (d := Zdigits2 (C * M)) in *.
  assert (Hd1 : 104 < d) by (apply (Z.pow_lt_mono_r_iff 2); lia).
  assert (Hd2 : d - 1 < 106) by (apply (Z.pow_lt_mono_r_iff 2); lia).
  assert (Hex : 2 ^ (- (-53 + ez)) = 2 ^ 53 * T).
  { unfold T. rewrite <- Z.pow_add_r by lia. f_equal. lia. }
  assert (Hq : 5 * (4 * n / 5) <= 4 * n < 5 * (4 * n / 5) + 5).
  { pose proof (Z.mul_div_le (4 * n) 5 ltac:(lia)).
    pose proof (Z.mul_succ_div_gt (4 * n) 5 ltac:(lia)). lia. }
  set (q := 4 * n / 5) in *.
  assert (Hulp : 2 ^ (d - prec) <= 2 ^ 53)
    by (apply Z.pow_le_mono_r; unfold prec; lia).
  apply round_int; fold d; try rewrite Hex.
  - lia.
  - unfold emin, emax, prec. lia.
  - unfold prec. lia.
  - lia.
  - unfold prec. lia.
  - lia.
  - rewrite Hmz. unfold C. nia.
  - rewrite Hmz.
    assert (H1 : C * n + 2 ^ 50 < (q + 1) * 2 ^ 53) by (unfold C; lia).
    assert (H2 : 2 ^ 53 <= 2 ^ 50 * T) by lia.
    nia.
Qed.

Lemma split_nat (n : nat) :
  Z.of_nat n < 2 ^ 50 -> split n = Ok (Z.of_nat (4 * n / 5)).
Proof.
  intros Hn. unfold split. rewrite split_value by lia.
  now rewrite Nat2Z.inj_div, Nat2Z.inj_mul.
Qed.

End SplitValue.

Section Training.

Import ModelTraining.

Local Open Scope nat_scope.

Lemma slice_to_nat {A : Type} (k : nat) (l : list A) :
  slice_to (Z.of_nat k) l = firstn k l.
Proof.
  unfold slice_to.
  replace (Z.of_nat k <? 0)%Z with false by (symmetry; apply Z.ltb_ge; lia).
  now rewrite Nat2Z.id.
Qed.

Lemma four_fifths_below (n : nat) :
  (4 * n / 5 <= n) /\ ((0 < n) -> (4 * n / 5 < n)) /\
  ((4 * n / 5 = 0) <-> (n <= 1)).
Proof.
  pose proof (Nat.div_mod_eq (4 * n) 5) as H.
  pose proof (Nat.mod_upper_bound (4 * n) 5 ltac:(lia)) as Hm.
  repeat split; lia.
Qed.

Variable L : Learner.

Lemma train_model_call (g : rng L) (rows : list sample) :
  (Z.of_nat (length (dropna rows)) < 2 ^ 50)%Z ->
  train_model L g rows
  = fit L 100 g
      (map fst (firstn (4 * length (dropna rows) / 5) (dropna rows)))
      (map snd (firstn (4 * length (dropna rows) / 5) (dropna rows))).
Proof.
  intros Hn. unfold train_model. rewrite length_map.
  rewrite split_nat by exact Hn. cbn [bind].
  now rewrite !slice_to_nat, !firstn_map.
Qed.

(** The split index is [4 n / 5] rounded down: the binary64 product
    [0.8 * n] never reaches the next integer.  So both parts stay within
    the rows, rows are held out as soon as there is one, and nothing is
    left to fit on when there is at most one row. *)
Theorem split_four_fifths (n : nat) :
  (Z.of_nat n < 2 ^ 50)%Z ->
  split n = Ok (Z.of_nat (4 * n / 5)) /\
  (4 * n / 5 <= n) /\
  ((0 < n) -> (4 * n / 5 < n)) /\
  ((4 * n / 5 = 0) <-> (n <= 1)).
Proof.
  intros Hn. split; [now apply split_nat|apply four_fifths_below].
Qed.

(** [train_model] fits 100 trees on the first [4 n / 5] rows that
    [dropna] keeps, features against closes, row for row. *)
Theorem train_model_fits_prefix (g : rng L) (rows : list sample) :
  (Z.of_nat (length (dropna rows)) < 2 ^ 50)%Z ->
  exists X_train y_train,
    train_model L g rows = fit L 100 g X_train y_train /\
    combine X_train y_train
    = firstn (4 * length (dropna rows) / 5) (dropna rows) /\
    length X_train = (4 * length (dropna rows) / 5) /\
    length y_train = (4 * length (dropna rows) / 5) /\
    Forall (fun r => existsb is_nan (snd r :: fst r) = false)
      (combine X_train y_train).
Proof.
  intros Hn. set (data := dropna rows) in *. set (k := (4 * length data / 5)).
  exists (map fst (firstn k data)), (map snd (firstn k data)).
  assert (Hk : (k <= length data)) by apply four_fifths_below.
  assert (Hc : combine (map fst (firstn k data)) (map snd (firstn k data))
               = firstn k data).
  { generalize (firstn k data). intros l.
    induction l as [|[x y] rest IH]; [reflexivity|].
    cbn [map combine fst snd]. now rewrite IH. }
  split; [now apply train_model_call|]. split; [exact Hc|].
  rewrite !length_map, length_firstn, Nat.min_l by exact Hk.
  split; [reflexivity|]. split; [reflexivity|].
  rewrite Hc. apply Forall_forall. intros r Hr.
  assert (Hin : In r data).
  { rewrite <- (firstn_skipn k data). apply in_or_app. now left. }
  clear Hr. rename Hin into Hr. unfold data, dropna in Hr.
  apply filter_In in Hr. destruct Hr as [_ Hr].
  now apply negb_true_iff in Hr.
Qed.

(** The rows held out as a test set play no part: two files that agree
    on their first [4 n / 5] rows train the same model. *)
Theorem held_out_rows_unused (g : rng L) (rows rows' : list sample) :
  (Z.of_nat (length (dropna rows)) < 2 ^ 50)%Z ->
  length (dropna rows') = length (dropna rows) ->
  firstn (4 * length (dropna rows) / 5) (dropna rows)
  = firstn (4 * length (dropna rows) / 5) (dropna rows') ->
  train_model L g rows = train_model L g rows'.
Proof.
  intros Hn Hlen Hpre.
  rewrite (train_model_call g rows) by exact Hn.
  rewrite (train_model_call g rows') by (rewrite Hlen; exact Hn).
  now rewrite Hlen, Hpre.
Qed.

(** scikit-learn refuses to fit on an empty sample. *)
Hypothesis fit_needs_rows :
  forall n g y, fit L n g [] y = Raise ValueError.

(** With at most one complete row there is nothing to fit on, and
    [train_model] ends with [ValueError]. *)
Theorem single_row_not_trained (g : rng L) (rows : list sample) :
  (length (dropna rows) <= 1) ->
  train_model L g rows = Raise ValueError.
Proof.
  intros Hn. rewrite train_model_call by lia.
  replace (4 * length (dropna rows) / 5) with 0
    by (symmetry; now apply four_fifths_below).
  cbn [firstn map]. apply fit_needs_rows.
Qed.

End Training.

Lemma split_four_fifths_witness :
  ModelTraining.split 10 = Ok 8%Z /\ ModelTraining.split 1 = Ok 0%Z.
Proof.
  split.
  - apply (split_four_fifths 10). reflexivity.
  - apply (split_four_fifths 1). reflexivity.
Defined.

Lemma train_model_fits_prefix_witness :
  exists X_train y_train,
    ModelTraining.train_model Samples.mean_learner tt Samples.ten_rows
    = ModelTraining.fit Samples.mean_learner 100 tt X_train y_train /\
    combine X_train y_train = firstn 8 Samples.ten_rows /\
    length X_train = 8%nat.
Proof.
  destruct (train_model_fits_prefix Samples.mean_learner tt Samples.ten_rows)
    as [X_train [y_train [Hfit [Hrows [Hlen _]]]]].
  - reflexivity.
  - exists X_train, y_train. split; [exact Hfit|].
    split; [exact Hrows|exact Hlen].
Defined.

Lemma held_out_rows_unused_witness :
  Samples.ten_rows <> Samples.ten_rows_changed /\
  ModelTraining.train_model Samples.mean_learner tt Samples.ten_rows
  = ModelTraining.train_model Samples.mean_learner tt Samples.ten_rows_changed.
Proof.
  split; [vm_compute; discriminate|].
  apply (held_out_rows_unused Samples.mean_learner tt
           Samples.ten_rows Samples.ten_rows_changed).
  - reflexivity.
  - reflexivity.
  - vm_compute. reflexivity.
Defined.

Lemma single_row_not_trained_witness :
  ModelTraining.train_model Samples.mean_learner tt
    [([S754_nan], of_Z 1); ([of_Z 1], of_Z 2)]
  = Raise ValueError.
Proof.
  apply (single_row_not_trained Samples.mean_learner
           (fun _ _ _ => eq_refl) tt
           [([S754_nan], of_Z 1); ([of_Z 1], of_Z 2)]).
  simpl. lia.
Defined.


(** ** The outlier filter *)

Section Outliers.

Import Processing.

Lemma ltb_numbers (x y : float) :
  ltb x y = true -> is_nan x = false /\ is_nan y = false.
Proof.
  destruct x as [sx|sx| |sx mx ex], y as [sy|sy| |sy my ey];
    try discriminate; now split.
Qed.

Lemma leb_numbers (x y : float) :
  leb x y = true -> is_nan x = false /\ is_nan y = false.
Proof.
  destruct x as [sx|sx| |sx mx ex], y as [sy|sy| |sy my ey];
    try discriminate; now split.
Qed.

Lemma leb_not_ltb (x y : float) : leb x y = true -> ltb y x = false.
Proof.
  intros H. destruct (leb_numbers x y H) as [Hx Hy].
  destruct (ltb y x) eqn:Hl; [exfalso|reflexivity].
  apply leb_key in H; try assumption. apply ltb_key in Hl; try assumption.
  destruct (key x) as [[a b] c], (key y) as [[a' b'] c']. simpl in *. lia.
Qed.

Lemma leb_trans (x y z : float) :
  leb x y = true -> leb y z = true -> leb x z = true.
Proof.
  intros H1 H2.
  destruct (leb_numbers x y H1) as [Hx Hy].
  destruct (leb_numbers y z H2) as [_ Hz].
  apply leb_key in H1, H2; try assumption. apply leb_key; try assumption.
  destruct (key x) as [[a b] c], (key y) as [[a' b'] c'],
    (key z) as [[a'' b''] c'']. simpl in *. lia.
Qed.

Variable F : Frames.

(** Filling gaps changes no frame that has none. *)
Hypothesis fill_keeps :
  forall rows rows',
    Forall (fun r => is_nan (snd r) = false) rows ->
    fill F rows = Ok rows' -> rows' = rows.

Lemma process_single_filter (raw processed : list raw_row) :
  _process_single F raw = Ok processed ->
  processed
  = filter (within (quantile F (map snd raw) lit_0_05)
              (quantile F (map snd raw) lit_0_95)) raw.
Proof.
  unfold _process_single. apply fill_keeps.
  apply Forall_forall. intros r Hr. apply filter_In in Hr.
  destruct Hr as [_ Hr]. unfold within in Hr.
  apply andb_true_iff in Hr. now apply (ltb_numbers _ _ (proj1 Hr)).
Qed.

(** The rows with a missing close are dropped by the outlier filter, so
    the gap filling finds nothing to fill: what is processed is the raw
    rows whose close lies strictly between the two quantiles, in their
    order. *)
Theorem gap_filling_finds_no_gap (raw processed : list raw_row) :
  _process_single F raw = Ok processed ->
  processed
  = filter (within (quantile F (map snd raw) lit_0_05)
              (quantile F (map snd raw) lit_0_95)) raw /\
  Forall (fun r =>
            In r raw /\ is_nan (snd r) = false /\
            ltb (quantile F (map snd raw) lit_0_05) (snd r) = true /\
            ltb (snd r) (quantile F (map snd raw) lit_0_95) = true)
    processed.
Proof.
  intros H. pose proof (process_single_filter raw processed H) as Hp.
  split; [exact Hp|]. rewrite Hp. apply Forall_forall. intros r Hr.
  apply filter_In in Hr. destruct Hr as [Hin Hr]. unfold within in Hr.
  apply andb_true_iff in Hr. destruct Hr as [H1 H2].
  repeat split; auto. now apply (ltb_numbers _ _ H1).
Qed.

Lemma filter_shorter {A : Type} (f : A -> bool) (l : list A) (a : A) :
  In a l -> f a = false -> (length (filter f l) < length l)%nat.
Proof.
  induction l as [|x rest IH]; intros Hin Hf; [contradiction|].
  cbn [filter length]. pose proof (filter_length_le f rest) as Hle.
  destruct Hin as [->|Hin].
  - rewrite Hf. lia.
  - specialize (IH Hin Hf). destruct (f x); simpl; lia.
Qed.

Lemma low_row_dropped (q_low q_hi a : float) (r : raw_row) :
  leb a q_low = true ->
  (is_nan (snd r) = false -> leb (snd r) a = true) ->
  within q_low q_hi r = false.
Proof.
  intros Ha Hr. unfold within.
  destruct (is_nan (snd r)) eqn:Hn.
  - destruct (snd r); try discriminate. now destruct q_low.
  - rewrite (leb_not_ltb _ _ (leb_trans _ _ _ (Hr eq_refl) Ha)).
    reflexivity.
Qed.

Lemma high_row_dropped (q_low q_hi b : float) (r : raw_row) :
  leb q_hi b = true ->
  (is_nan (snd r) = false -> leb b (snd r) = true) ->
  within q_low q_hi r = false.
Proof.
  intros Hb Hr. unfold within.
  destruct (is_nan (snd r)) eqn:Hn.
  - destruct (snd r); try discriminate. now destruct q_low.
  - rewrite (leb_not_ltb _ _ (leb_trans _ _ _ Hb (Hr eq_refl))).
    apply andb_false_r.
Qed.

(** The comparisons with the quantiles are strict.  As soon as the lower
    quantile is not below every close, the rows holding the lowest close
    are dropped, and likewise the rows holding the highest one: what is
    processed is shorter than what was read. *)
Theorem lowest_and_highest_dropped (raw processed : list raw_row)
  (a b : float) :
  In a (map snd raw) ->
  leb a (quantile F (map snd raw) lit_0_05) = true ->
  In b (map snd raw) ->
  leb (quantile F (map snd raw) lit_0_95) b = true ->
  _process_single F raw = Ok processed ->
  (forall r, In r raw ->
     (forall x, In x (map snd raw) -> is_nan x = false ->
        leb (snd r) x = true) \/
     (forall x, In x (map snd raw) -> is_nan x = false ->
        leb x (snd r) = true) ->
     ~ In r processed) /\
  (length processed < length raw)%nat.
Proof.
  intros Ha Hqa Hb Hqb H.
  rewrite (process_single_filter raw processed H).
  set (q_low := quantile F (map snd raw) lit_0_05) in *.
  set (q_hi := quantile F (map snd raw) lit_0_95) in *.
  destruct (leb_numbers _ _ Hqa) as [Han _].
  destruct (leb_numbers _ _ Hqb) as [_ Hbn].
  split.
  - intros r Hr Hext Hin. apply filter_In in Hin. destruct Hin as [_ Hin].
    destruct Hext as [Hlow|Hhigh].
    + rewrite (low_row_dropped q_low q_hi a r Hqa) in Hin;
        [discriminate|]. intros _. now apply Hlow.
    + rewrite (high_row_dropped q_low q_hi b r Hqb) in Hin;
        [discriminate|]. intros _. now apply Hhigh.
  - apply in_map_iff in Ha. destruct Ha as [r0 [Hr0 Hin0]]. subst a.
    apply (filter_shorter _ raw r0 Hin0).
    apply (low_row_dropped q_low q_hi (snd r0) r0 Hqa).
    intros Hn. now apply leb_refl.
Qed.

(** A file whose closes are all equal is processed to nothing. *)
Theorem constant_series_processed_empty (raw processed : list raw_row)
  (c : float) :
  Forall (fun r => snd r = c) raw ->
  (raw <> [] -> leb c (quantile F (map snd raw) lit_0_05) = true) ->
  _process_single F raw = Ok processed ->
  processed = [].
Proof.
  intros Hc Hq H. rewrite (process_single_filter raw processed H).
  destruct raw as [|r0 rest] eqn:Hraw; [reflexivity|]. rewrite <- Hraw in *.
  specialize (Hq ltac:(congruence)).
  apply filter_none. intros r Hr.
  apply (low_row_dropped _ _ c r Hq). intros Hn.
  rewrite Forall_forall in Hc. rewrite (Hc r Hr) in *. now apply leb_refl.
Qed.

End Outliers.

Lemma gap_filling_finds_no_gap_witness :
  Processing._process_single Samples.rank_frames Samples.five_days
  = Ok [("d1", of_Z 3); ("d4", of_Z 2)]%string /\
  Forall (fun r => In r Samples.five_days /\ is_nan (snd r) = false)
    [("d1", of_Z 3); ("d4", of_Z 2)]%string.
Proof.
  split; [vm_compute; reflexivity|].
  destruct (gap_filling_finds_no_gap Samples.rank_frames) with
    (raw := Samples.five_days)
    (processed := [("d1", of_Z 3); ("d4", of_Z 2)]%string) as [_ Hall].
  - intros rows rows' _ H. inversion H. reflexivity.
  - vm_compute. reflexivity.
  - eapply Forall_impl; [|exact Hall]. intros r [H1 [H2 _]]. now split.
Defined.

Lemma lowest_and_highest_dropped_witness :
  ~ In ("d3", of_Z 1)%string [("d1", of_Z 3); ("d4", of_Z 2)]%string /\
  (length [("d1", of_Z 3); ("d4", of_Z 2)]%string
   < length Samples.five_days)%nat.
Proof.
  destruct (lowest_and_highest_dropped Samples.rank_frames) with
    (raw := Samples.five_days)
    (processed := [("d1", of_Z 3); ("d4", of_Z 2)]%string)
    (a := of_Z 1) (b := of_Z 5) as [Hdrop Hlen].
  - intros rows rows' _ H. inversion H. reflexivity.
  - simpl. tauto.
  - vm_compute. reflexivity.
  - simpl. tauto.
  - vm_compute. reflexivity.
  - vm_compute. reflexivity.
  - split; [|exact Hlen].
    apply (Hdrop ("d3", of_Z 1)%string); [simpl; tauto|].
    left. intros x Hx Hn. simpl in Hx.
    destruct Hx as [<-|[<-|[<-|[<-|[<-|[]]]]]];
      try discriminate; vm_compute; reflexivity.
Defined.

Lemma constant_series_processed_empty_witness :
  Processing._process_single Samples.rank_frames Samples.flat_days = Ok [].
Proof.
  assert (H : exists processed,
             Processing._process_single Samples.rank_frames Samples.flat_days
             = Ok processed)
    by (vm_compute; eexists; reflexivity).
  destruct H as [processed H].
  rewrite H. f_equal.
  apply (constant_series_processed_empty Samples.rank_frames) with
    (raw := Samples.flat_days) (c := of_Z 3).
  - intros rows rows' _ H'. inversion H'. reflexivity.
  - repeat constructor.
  - intros _. vm_compute. reflexivity.
  - exact H.
Defined.
